(** * TRMNL screenshot addon: capture store, capture pipeline and profile store

    A shallow embedding of [app/screenshot-service.js] (class
    [ScreenshotService]), of the profile manager (class [ProfileManager]) and
    of the request handlers of the server that the properties below need,
    followed by the properties themselves.

    Conventions of the embedding.
    - A JavaScript value is one of the primitives a JSON document or the
      code itself puts into the fields that are read: [undefined], [null],
      booleans, numbers and strings.
    - JavaScript numbers are modelled by [Z]: every number the modelled code
      computes with is an integer (counts, sizes, milliseconds) far below
      2^53, where doubles are exact.  [JNaN] stands for the one non-integer
      number the coercions can produce.
    - A plain JavaScript object is a finite map from property names to
      values ([gmap string jsval]); reads that miss fall through to what has
      been added to [Object.prototype].
    - The file system is an association list from normalised absolute paths
      to nodes, in directory order.
    - Everything the environment decides (clock readings, random bytes, the
      outcome of browser and disk operations) is an explicit argument. *)

From Stdlib Require Import ZArith Lia Ascii.
From Stdlib Require Import Strings.Byte.
From Stdlib Require String.
From stdpp Require Import gmap strings list fin_maps pretty sorting.

Local Open Scope Z_scope.

Definition bytes := list byte.

(** ** JavaScript values *)

Inductive jsval :=
| JUndefined
| JNull
| JBool (b : bool)
| JNum (n : Z)
| JNaN
| JStr (s : string).

Global Instance jsval_eq_dec : EqDecision jsval.
Proof. solve_decision. Defined.

(** A plain object: own enumerable properties. *)
Abbreviation jsobj := (gmap string jsval).

(** An exception in flight. *)
Inductive thrown :=
| Error (message : string)
| TypeError (message : string)
| FsError (code : string) (path : string).

(** [error.message]; of the text Node gives a file-system error only the
    code and the path are kept. *)
Definition message (e : thrown) : string :=
  match e with
  | Error m | TypeError m => m
  | FsError code p => code +:+ ": " +:+ p
  end.

(** How a call ends. *)
Inductive completion (A : Type) :=
| Returns (a : A)
| Throws (e : thrown).
Arguments Returns {A} a.
Arguments Throws {A} e.

Module Js.

(** ToBoolean. *)
Definition truthy (v : jsval) : bool :=
  match v with
  | JUndefined | JNull | JNaN => false
  | JBool b => b
  | JNum n => negb (n =? 0)
  | JStr s => negb (String.eqb s "")
  end.

(** [a || b]. *)
Definition or (a b : jsval) : jsval := if truthy a then a else b.

(** [typeof v], for the values of the model. *)
Definition typeof (v : jsval) : string :=
  match v with
  | JUndefined => "undefined"
  | JNull => "object"
  | JBool _ => "boolean"
  | JNum _ | JNaN => "number"
  | JStr _ => "string"
  end.

(** ToString. *)
Definition to_string (v : jsval) : string :=
  match v with
  | JUndefined => "undefined"
  | JNull => "null"
  | JBool true => "true"
  | JBool false => "false"
  | JNum n => pretty n
  | JNaN => "NaN"
  | JStr s => s
  end.

Section Numbers.
(** The runtime's StringToNumber ([None] is NaN); the code never relies
    on how a particular string converts, so it stays a parameter. *)
Variable StringToNumber : string → option Z.

(** ToNumber; [None] is NaN. *)
Definition to_number (v : jsval) : option Z :=
  match v with
  | JUndefined | JNaN => None
  | JNull => Some 0
  | JBool b => Some (if b then 1 else 0)
  | JNum n => Some n
  | JStr s => StringToNumber s
  end.

(** [v <= k] against a number literal: false as soon as NaN is involved. *)
Definition le_num (v : jsval) (k : Z) : bool :=
  match to_number v with
  | Some n => n <=? k
  | None => false
  end.
End Numbers.

Definition of_number (n : option Z) : jsval :=
  match n with Some k => JNum k | None => JNaN end.

(** ToNumber of a value that is not a string. *)
Definition to_number_prim (v : jsval) : option Z :=
  to_number (λ _, None) v.

(** [a + b]: concatenation as soon as one side is a string, numeric
    addition otherwise. *)
Definition add (a b : jsval) : jsval :=
  match a, b with
  | JStr _, _ | _, JStr _ => JStr (to_string a +:+ to_string b)
  | _, _ =>
      match to_number_prim a, to_number_prim b with
      | Some x, Some y => JNum (x + y)
      | _, _ => JNaN
      end
  end.

(** [a === b] on the values of the model. *)
Definition strict_eq (a b : jsval) : bool :=
  match a, b with
  | JNaN, _ | _, JNaN => false
  | _, _ => bool_decide (a = b)
  end.

(** [list.includes(v)] for a list of string literals. *)
Definition includes (l : list string) (v : jsval) : bool :=
  match v with
  | JStr s => bool_decide (s ∈ l)
  | _ => false
  end.

End Js.

(** ** [path.join] on POSIX

    The add-on runs in a Linux container, so [require('path')] is
    [path.posix].  [join] glues its non-empty arguments with "/" and
    normalises the result: empty and "." segments vanish, ".." removes the
    segment before it (and is itself dropped at the root of an absolute
    path). *)

Module Path.

Definition slash : ascii := "/"%char.

(** The segments between the slashes of [s], the text collected since the
    last slash being [cur]. *)
Fixpoint split_go (cur : string) (s : string) : list string :=
  match s with
  | "" => [cur]
  | String c s' =>
      if Ascii.eqb c slash then cur :: split_go "" s'
      else split_go (cur +:+ String c "") s'
  end.

Definition split (s : string) : list string := split_go "" s.

(** One step of [normalizeString]; [res] holds the segments kept so far,
    the latest first. *)
Definition push_segment (allowAboveRoot : bool) (res : list string)
    (seg : string) : list string :=
  if String.eqb seg "" || String.eqb seg "." then res
  else if String.eqb seg ".." then
    match res with
    | last :: rest =>
        if String.eqb last ".." then
          (if allowAboveRoot then ".." :: res else res)
        else rest
    | [] => if allowAboveRoot then [".."] else []
    end
  else seg :: res.

Definition normalizeString (path : string) (allowAboveRoot : bool) : string :=
  String.concat "/"
    (rev (fold_left (push_segment allowAboveRoot) (split path) [])).

Definition starts_with_slash (s : string) : bool :=
  match s with
  | String c _ => Ascii.eqb c slash
  | "" => false
  end.

Definition ends_with_slash (s : string) : bool :=
  starts_with_slash (String.rev s).

Definition normalize (path : string) : string :=
  if String.eqb path "" then "."
  else
    let isAbsolute := starts_with_slash path in
    let trailingSeparator := ends_with_slash path in
    let res := normalizeString path (negb isAbsolute) in
    if String.eqb res "" then
      (if isAbsolute then "/" else if trailingSeparator then "./" else ".")
    else
      (if isAbsolute then "/" else "") +:+ res
        +:+ (if trailingSeparator then "/" else "").

(** [path.join(a, b)]. *)
Definition join (a b : string) : string :=
  match String.eqb a "", String.eqb b "" with
  | true, true => "."
  | true, false => normalize b
  | false, true => normalize a
  | false, false => normalize (a +:+ "/" +:+ b)
  end.

(** [p] is [root] itself or lies below it. *)
Definition within (root p : string) : bool :=
  String.eqb p root || String.prefix (root +:+ "/") p.

End Path.

(** ** The file system *)

Module Fs.

Inductive node_kind :=
| RegularFile (content : bytes)
| Directory.

Record node := { kind : node_kind; mtime : Z }.

(** Normalised absolute path to node; the order is the one [readdirSync]
    reports, and removing an entry leaves the others in place. *)
Abbreviation t := (list (string * node)).

Fixpoint lookup (p : string) (fs : t) : option node :=
  match fs with
  | [] => None
  | (q, n) :: fs' => if String.eqb q p then Some n else lookup p fs'
  end.

(** Drop the entry at path [p]. *)
Definition remove (p : string) (fs : t) : t :=
  filter (λ e, e.1 ≠ p) fs.

Definition existsSync (p : string) (fs : t) : bool :=
  match lookup p fs with Some _ => true | None => false end.

Definition readFileSync (p : string) (fs : t) : completion bytes :=
  match lookup p fs with
  | Some {| kind := RegularFile c |} => Returns c
  | Some {| kind := Directory |} => Throws (FsError "EISDIR" p)
  | None => Throws (FsError "ENOENT" p)
  end.

(** [unlinkSync] removes regular files only. *)
Definition unlinkSync (p : string) (fs : t) : t * completion unit :=
  match lookup p fs with
  | Some {| kind := RegularFile _ |} => (remove p fs, Returns tt)
  | Some {| kind := Directory |} => (fs, Throws (FsError "EISDIR" p))
  | None => (fs, Throws (FsError "ENOENT" p))
  end.

Definition statSync (p : string) (fs : t) : completion node :=
  match lookup p fs with
  | Some n => Returns n
  | None => Throws (FsError "ENOENT" p)
  end.

Fixpoint replace (p : string) (n : node) (fs : t) : t :=
  match fs with
  | [] => []
  | (q, m) :: fs' =>
      if String.eqb q p then (q, n) :: fs' else (q, m) :: replace p n fs'
  end.

(** [writeFileSync] at time [now]: a new file goes to the end of the
    directory order, an existing one is overwritten in place. *)
Definition writeFileSync (p : string) (c : bytes) (now : Z) (fs : t)
    : t * completion unit :=
  let n := {| kind := RegularFile c; mtime := now |} in
  match lookup p fs with
  | Some {| kind := Directory |} => (fs, Throws (FsError "EISDIR" p))
  | Some _ => (replace p n fs, Returns tt)
  | None => (fs ++ [(p, n)], Returns tt)
  end.

(** The last segment of a path. *)
Definition basename (p : string) : string := List.last (Path.split p) "".

(** [p] is an entry of directory [dir]: joining [dir] and the last
    segment of [p] gives [p] back. *)
Definition is_child (dir p : string) : bool :=
  let f := basename p in
  negb (String.eqb f "") && negb (String.eqb f ".")
  && negb (String.eqb f "..") && String.eqb (Path.join dir f) p.

(** [readdirSync(dir)]: the names of the entries of [dir], in directory
    order.  A directory that does not exist has no entries; the callers
    below turn the exception Node raises for it into the result they also
    give for an empty directory. *)
Definition readdirSync (dir : string) (fs : t) : list string :=
  omap (λ e, if is_child dir e.1 then Some (basename e.1) else None) fs.

(** What a call did to the file system, for the properties that speak
    about where it reads and deletes. *)
Inductive access :=
| Exists (p : string)
| Read (p : string)
| Unlink (p : string).

Definition touches_content (a : access) : option string :=
  match a with
  | Exists _ => None
  | Read p | Unlink p => Some p
  end.

End Fs.

(** ** The capture store: [getScreenshot], [deleteScreenshot] *)

Module Store.

(** [getScreenshot(filename)]: the buffer or [null] ([None]), with the
    file-system calls it made. *)
Definition getScreenshot (screenshotPath : string) (fs : Fs.t)
    (filename : string) : completion (option bytes) * list Fs.access :=
  let filepath := Path.join screenshotPath filename in
  (* Prevent directory traversal *)
  if negb (String.prefix screenshotPath filepath) then (Returns None, [])
  else if Fs.existsSync filepath fs then
    match Fs.readFileSync filepath fs with
    | Returns c => (Returns (Some c), [Fs.Exists filepath; Fs.Read filepath])
    | Throws e => (Throws e, [Fs.Exists filepath; Fs.Read filepath])
    end
  else (Returns None, [Fs.Exists filepath]).

(** [deleteScreenshot(filename)]: the file system afterwards, the boolean
    returned, and the file-system calls made.  A failing [unlinkSync] is
    logged and swallowed. *)
Definition deleteScreenshot (screenshotPath : string) (fs : Fs.t)
    (filename : string) : Fs.t * bool * list Fs.access :=
  let filepath := Path.join screenshotPath filename in
  (* Prevent directory traversal *)
  if negb (String.prefix screenshotPath filepath) then (fs, false, [])
  else if Fs.existsSync filepath fs then
    match Fs.unlinkSync filepath fs with
    | (fs', Returns _) => (fs', true, [Fs.Exists filepath; Fs.Unlink filepath])
    | (fs', Throws _) => (fs', false, [Fs.Exists filepath; Fs.Unlink filepath])
    end
  else (fs, false, [Fs.Exists filepath]).

End Store.

(** ** The format converter: [convertToBMP3] and the sharp calls

    sharp is a native library; what the code fixes is which operations it
    asks for and in which order.  A decoded greyscale image is the list of
    its samples (0 to 255) in raster order.  Decoding and encoding stay
    parameters; [threshold] is sharp's documented operation: a sample at or
    above the threshold becomes 255, any other 0. *)

Module Sharp.

Record codec := {
  (** [sharp(buffer).greyscale()], decoded when the pipeline runs. *)
  decode_greyscale : bytes → completion (list Z);
  (** [.png({ colors, dither })]: palette quantisation with error
      diffusion at output time. *)
  encode_png_palette : Z → Z → list Z → bytes;
  (** Output in the input's format when no output option is set. *)
  encode_png : list Z → bytes;
  (** [sharp(buffer).jpeg({ quality }).toBuffer()]. *)
  encode_jpeg : Z → bytes → completion bytes;
}.

Definition threshold (level : Z) (img : list Z) : list Z :=
  (λ v, if level <=? v then 255 else 0) <$> img.

(** [convertToBMP3(pngBuffer, bitDepth = 1)].  The operations run when
    [toBuffer] is awaited: greyscale, then the threshold if one was
    requested, then the PNG encoder with its palette options ([dither]
    defaults to 1).  An error is logged and thrown again. *)
Definition convertToBMP3 (C : codec) (pngBuffer : bytes) (bitDepth : Z)
    : completion bytes :=
  match decode_greyscale C pngBuffer with
  | Throws e => Throws e
  | Returns grey =>
      if bitDepth =? 1 then
        (* 1-bit monochrome with dithering *)
        Returns (encode_png_palette C 2 1 (threshold 128 grey))
      else if bitDepth =? 2 then
        (* 2-bit grayscale (4 colors) *)
        Returns (encode_png_palette C 4 1 grey)
      else Returns (encode_png C grey)
  end.

End Sharp.

(** ** The capture pipeline: [captureScreenshot]

    JavaScript runs one task at a time and switches tasks only at an
    [await].  A call of [captureScreenshot] is therefore modelled by the
    [await] it is suspended at, and one step runs one task from the [await]
    it is at to the next one. *)

Module Capture.

(** The properties of the argument object, [JUndefined] when missing. *)
Record options := {
  url : jsval;
  width : jsval;
  height : jsval;
  theme : jsval;
  haToken : jsval;
  outputFormat : jsval;
}.

Definition default_to (d v : jsval) : jsval :=
  match v with JUndefined => d | _ => v end.

(** The destructuring with defaults at the top of the function. *)
Definition destructure (o : options) : options :=
  {| url := url o;
     width := default_to (JNum 800) (width o);
     height := default_to (JNum 480) (height o);
     theme := default_to (JStr "light") (theme o);
     haToken := default_to JNull (haToken o);
     outputFormat := default_to (JStr "png") (outputFormat o) |}.

Record success := {
  filename : string;
  filepath : string;
  size : Z;
  res_width : jsval;
  res_height : jsval;
  format : jsval;
  timestamp : string;
}.

Inductive result :=
| Success (r : success)
| Failure (error : string).

(** What has been written to disk and is reported on return. *)
Record saved := { s_filename : string; s_filepath : string; s_size : Z }.

(** The promises the function awaits on the browser. *)
Inductive browser_op :=
| CreateBrowserContext | NewPage | SetViewportSize | EmulateMedia
| SetExtraHTTPHeaders | Goto | WaitForTimeout | Screenshot
| PageClose | ContextClose.

(** Where a call is. *)
Inductive pc :=
| NotCalled
| Throttled                        (* in the 100 ms wait of the loop *)
| Awaiting (op : browser_op)       (* inside [try], before the capture *)
| Converting (screenshotBuffer : bytes)
| Closing (op : browser_op) (s : saved)
| Done (r : result).

(** What a call has done so far, oldest first. *)
Inductive event :=
| Acquire                          (* [this.activeCaptures++] *)
| Release                          (* [this.activeCaptures--] *)
| ContextOpened | PageOpened | ViewportSet | MediaEmulated | HeadersSet
| Navigated | Settled | Captured | Converted
| Written (path : string)
| PageClosed | ContextClosed.

Global Instance event_eq_dec : EqDecision event.
Proof. solve_decision. Defined.

Record task := { opts : options; at_pc : pc; log : list event }.

Record service := {
  browser : bool;                  (* [this.browser] is not null *)
  screenshotPath : string;
  timeout : Z;
  imageQuality : Z;
  maxConcurrent : Z;
  activeCaptures : Z;
  fs : Fs.t;
}.

(** The constructor: a default where the option is missing. *)
Definition new_service (path : option string) (timeout quality max : option Z)
    (disk : Fs.t) : service :=
  {| browser := false;
     screenshotPath := default "/data/screenshots" path;
     timeout := default 30000 timeout;
     imageQuality := default 90 quality;
     maxConcurrent := default 3 max;
     activeCaptures := 0;
     fs := disk |}.

(** [initialize()] when the browser launches. *)
Definition initialize (s : service) : service :=
  {| browser := true; screenshotPath := screenshotPath s;
     timeout := timeout s; imageQuality := imageQuality s;
     maxConcurrent := maxConcurrent s; activeCaptures := activeCaptures s;
     fs := fs s |}.

(** What the environment decides for the call numbered [i]. *)
Record world := {
  (** [None]: the promise resolves; [Some m]: it rejects with message [m]. *)
  rejects : nat → browser_op → option string;
  (** What [page.screenshot] resolves to. *)
  raster : nat → bytes;
  sharp : Sharp.codec;
  (** [new Date().toISOString()] for the file name and for the result. *)
  iso_at_save : nat → string;
  iso_at_return : nat → string;
  (** [crypto.randomBytes(4).toString('hex')]. *)
  random_hex : nat → string;
  (** The time the file is written at, and the error [writeFileSync] meets
      for a reason outside the model (disk full, missing directory). *)
  ms_at_save : nat → Z;
  write_fails : nat → option thrown;
}.

(** [.replace(/[:.]/g, '-')]. *)
Fixpoint dashes (s : string) : string :=
  match s with
  | "" => ""
  | String c s' =>
      String (if Ascii.eqb c ":" || Ascii.eqb c "." then "-"%char else c)
             (dashes s')
  end.

Definition is_bmp (fmt : jsval) : bool :=
  Js.strict_eq fmt (JStr "bmp3") || Js.strict_eq fmt (JStr "bmp").

Definition extension (fmt : jsval) : string :=
  if Js.strict_eq fmt (JStr "bmp3") then "bmp" else Js.to_string fmt.

Definition set_active (n : Z) (s : service) : service :=
  {| browser := browser s; screenshotPath := screenshotPath s;
     timeout := timeout s; imageQuality := imageQuality s;
     maxConcurrent := maxConcurrent s; activeCaptures := n; fs := fs s |}.

Definition set_fs (d : Fs.t) (s : service) : service :=
  {| browser := browser s; screenshotPath := screenshotPath s;
     timeout := timeout s; imageQuality := imageQuality s;
     maxConcurrent := maxConcurrent s;
     activeCaptures := activeCaptures s; fs := d |}.

Definition goto (p : pc) (evs : list event) (t : task) : task :=
  {| opts := opts t; at_pc := p; log := log t ++ evs |}.

Section Step.
Variable W : world.
Variable i : nat.

(** The loop and the increment after it: no [await] lies between the
    test that leaves the loop and [this.activeCaptures++]. *)
Definition enter (s : service) (t : task) : service * task :=
  if maxConcurrent s <=? activeCaptures s then (s, goto Throttled [] t)
  else (set_active (activeCaptures s + 1) s,
        goto (Awaiting CreateBrowserContext) [Acquire] t).

(** [catch] builds the failure, [finally] gives the slot back. *)
Definition fail (m : string) (s : service) (t : task) : service * task :=
  (set_active (activeCaptures s - 1) s,
   goto (Done (Failure m)) [Release] t).

(** File name, [writeFileSync], and on to [page.close()]. *)
Definition save (finalBuffer : bytes) (evs : list event)
    (s : service) (t : task) : service * task :=
  let o := destructure (opts t) in
  let timestamp := dashes (iso_at_save W i) in
  let hash := random_hex W i in
  let filename := "screenshot-" +:+ timestamp +:+ "-" +:+ hash +:+ "."
                    +:+ extension (outputFormat o) in
  let filepath := Path.join (screenshotPath s) filename in
  match write_fails W i with
  | Some e => fail (message e) s (goto (at_pc t) evs t)
  | None =>
      match Fs.writeFileSync filepath finalBuffer (ms_at_save W i) (fs s) with
      | (_, Throws e) => fail (message e) s (goto (at_pc t) evs t)
      | (d, Returns _) =>
          (set_fs d s,
           goto (Closing PageClose
                   {| s_filename := filename; s_filepath := filepath;
                      s_size := Z.of_nat (length finalBuffer) |})
                (evs ++ [Written filepath]) t)
      end
  end.

(** After the viewport is set: the theme, then the token. *)
Definition after_theme (t : task) : pc :=
  if Js.truthy (haToken (destructure (opts t)))
  then Awaiting SetExtraHTTPHeaders else Awaiting Goto.

Definition after_viewport (t : task) : pc :=
  if Js.strict_eq (theme (destructure (opts t))) (JStr "dark")
  then Awaiting EmulateMedia else after_theme t.

(** One turn of a call of [captureScreenshot(options)]: the call starts,
    or the promise it awaits has settled, and it runs to its next [await]
    or to its [return]. *)
Definition captureScreenshot (s : service) (t : task) : service * task :=
  match at_pc t with
  | NotCalled =>
      if negb (browser s)
      then (s, goto (Done (Failure "Browser not initialized")) [] t)
      else enter s t
  | Throttled => enter s t
  | Awaiting op =>
      match rejects W i op with
      | Some m => fail m s t
      | None =>
          match op with
          | CreateBrowserContext => (s, goto (Awaiting NewPage) [ContextOpened] t)
          | NewPage => (s, goto (Awaiting SetViewportSize) [PageOpened] t)
          | SetViewportSize => (s, goto (after_viewport t) [ViewportSet] t)
          | EmulateMedia => (s, goto (after_theme t) [MediaEmulated] t)
          | SetExtraHTTPHeaders => (s, goto (Awaiting Goto) [HeadersSet] t)
          | Goto => (s, goto (Awaiting WaitForTimeout) [Navigated] t)
          | WaitForTimeout => (s, goto (Awaiting Screenshot) [Settled] t)
          | Screenshot =>
              let screenshotBuffer := raster W i in
              let fmt := outputFormat (destructure (opts t)) in
              if is_bmp fmt || Js.strict_eq fmt (JStr "jpeg")
              then (s, goto (Converting screenshotBuffer) [Captured] t)
              else save screenshotBuffer [Captured] s t
          | PageClose | ContextClose => (s, t)   (* awaited in [Closing] only *)
          end
      end
  | Converting screenshotBuffer =>
      let fmt := outputFormat (destructure (opts t)) in
      let converted :=
        if is_bmp fmt then Sharp.convertToBMP3 (sharp W) screenshotBuffer 1
        else Sharp.encode_jpeg (sharp W) (imageQuality s) screenshotBuffer in
      match converted with
      | Throws e => fail (message e) s t
      | Returns finalBuffer => save finalBuffer [Converted] s t
      end
  | Closing op sv =>
      match rejects W i op with
      | Some m => fail m s t
      | None =>
          match op with
          | PageClose => (s, goto (Closing ContextClose sv) [PageClosed] t)
          | _ =>
              let o := destructure (opts t) in
              (set_active (activeCaptures s - 1) s,
               goto (Done (Success
                       {| filename := s_filename sv;
                          filepath := s_filepath sv;
                          size := s_size sv;
                          res_width := width o;
                          res_height := height o;
                          format := outputFormat o;
                          timestamp := iso_at_return W i |}))
                    [ContextClosed; Release] t)
          end
      end
  | Done _ => (s, t)
  end.
End Step.

(** All calls of [captureScreenshot] on one service. *)
Record system := { svc : service; tasks : list task }.

(** The event loop runs call [i] up to its next [await]. *)
Definition step (W : world) (s : system) (i : nat) : system :=
  match tasks s !! i with
  | None => s
  | Some t =>
      let '(sv, t') := captureScreenshot W i (svc s) t in
      {| svc := sv; tasks := <[i := t']> (tasks s) |}
  end.

(** A schedule names the call to run at each turn. *)
Definition run (W : world) (sched : list nat) (s : system) : system :=
  fold_left (step W) sched s.

Definition call (o : options) : task :=
  {| opts := o; at_pc := NotCalled; log := [] |}.

(** The calls that hold a slot: past the increment, before the decrement. *)
Definition in_flight (t : task) : bool :=
  match at_pc t with
  | Awaiting _ | Converting _ | Closing _ _ => true
  | NotCalled | Throttled | Done _ => false
  end.

Definition renders (s : system) : Z :=
  Z.of_nat (length (filter (λ t, in_flight t = true) (tasks s))).

Definition set_browser (b : bool) (s : service) : service :=
  {| browser := b; screenshotPath := screenshotPath s;
     timeout := timeout s; imageQuality := imageQuality s;
     maxConcurrent := maxConcurrent s;
     activeCaptures := activeCaptures s; fs := fs s |}.

(** [close()]; [rejected] is what [this.browser.close()] rejects with, if
    it does: the assignment after the [await] is then not reached. *)
Definition close (rejected : option thrown) (s : service)
    : service * completion unit :=
  if browser s then
    match rejected with
    | Some e => (s, Throws e)
    | None => (set_browser false s, Returns tt)
    end
  else (s, Returns tt).

End Capture.

(** ** The retention sweep: [cleanupOldScreenshots] *)

Module Retention.

Record file := { name : string; path : string; modified : Z }.

(** [.map(f => ...)] with [statSync]: the first failure ends the map. *)
Fixpoint stat_files (screenshotPath : string) (names : list string)
    (fs : Fs.t) : completion (list file) :=
  match names with
  | [] => Returns []
  | f :: rest =>
      let filepath := Path.join screenshotPath f in
      match Fs.statSync filepath fs with
      | Throws e => Throws e
      | Returns stats =>
          match stat_files screenshotPath rest fs with
          | Throws e => Throws e
          | Returns l =>
              Returns ({| name := f; path := filepath;
                          modified := Fs.mtime stats |} :: l)
          end
      end
  end.

(** [.sort((a, b) => b.modified - a.modified)]: newest first; the sort
    of the runtime is stable, so files of equal age keep their order. *)
Fixpoint insert_newest_first (x : file) (l : list file) : list file :=
  match l with
  | [] => [x]
  | y :: l' =>
      if modified x <? modified y then y :: insert_newest_first x l'
      else x :: y :: l'
  end.

Fixpoint sort_newest_first (l : list file) : list file :=
  match l with
  | [] => []
  | x :: l' => insert_newest_first x (sort_newest_first l')
  end.

(** The condition of the loop for the file at index [i]. *)
Definition expired (now maxAgeMs maxCount i : Z) (f : file) : bool :=
  (maxCount <=? i) || (maxAgeMs <? now - modified f).

(** The [for] loop from index [i] on; a failing [unlinkSync] is logged
    and skipped. *)
Fixpoint sweep (now maxAgeMs maxCount : Z) (i : Z) (files : list file)
    (fs : Fs.t) (deleted : Z) : Fs.t * Z :=
  match files with
  | [] => (fs, deleted)
  | f :: rest =>
      if expired now maxAgeMs maxCount i f then
        match Fs.unlinkSync (path f) fs with
        | (fs', Returns _) =>
            sweep now maxAgeMs maxCount (i + 1) rest fs' (deleted + 1)
        | (fs', Throws _) =>
            sweep now maxAgeMs maxCount (i + 1) rest fs' deleted
        end
      else sweep now maxAgeMs maxCount (i + 1) rest fs deleted
  end.

Definition is_screenshot (f : string) : bool := String.prefix "screenshot-" f.

(** [cleanupOldScreenshots(maxAgeHours, maxCount)] when the clock reads
    [now] milliseconds: the file system afterwards and the number
    returned. *)
Definition cleanupOldScreenshots (screenshotPath : string) (now : Z)
    (maxAgeHours maxCount : Z) (fs : Fs.t) : Fs.t * Z :=
  let names := filter (λ f, is_screenshot f = true)
                 (Fs.readdirSync screenshotPath fs) in
  match stat_files screenshotPath names fs with
  | Throws _ => (fs, 0)
  | Returns files =>
      let maxAgeMs := maxAgeHours * 60 * 60 * 1000 in
      sweep now maxAgeMs maxCount 0 (sort_newest_first files) fs 0
  end.

End Retention.

(** ** The listing of the store: [getScreenshots] *)

Module Listing.

(** One element of the array [getScreenshots] returns; the times are in
    milliseconds. *)
Record shot := {
  filename : string;
  filepath : string;
  size : Z;
  created : Z;
  modified : Z;
}.

(** [.sort((a, b) => b.modified - a.modified)], stable as in the sweep. *)
Fixpoint insert_newest_first (x : shot) (l : list shot) : list shot :=
  match l with
  | [] => [x]
  | y :: l' =>
      if modified x <? modified y then y :: insert_newest_first x l'
      else x :: y :: l'
  end.

Fixpoint sort_newest_first (l : list shot) : list shot :=
  match l with
  | [] => []
  | x :: l' => insert_newest_first x (sort_newest_first l')
  end.

(** [.slice(0, end)]: a negative [end] counts from the end of the array. *)
Definition slice {A} (end_ : Z) (l : list A) : list A :=
  let len := Z.of_nat (length l) in
  let final := if end_ <? 0 then Z.max (len + end_) 0 else Z.min end_ len in
  take (Z.to_nat final) l.

Section Stats.
(** What [statSync] reports and the model of the disk does not keep: the
    birth time of the entry at a path and the size of a directory. *)
Variable birthtime : string → Z.
Variable directory_size : string → Z.

Definition size_of (p : string) (n : Fs.node) : Z :=
  match Fs.kind n with
  | Fs.RegularFile c => Z.of_nat (length c)
  | Fs.Directory => directory_size p
  end.

(** [.map(f => ...)] with [statSync]: the first failure ends the map. *)
Fixpoint stat_shots (screenshotPath : string) (names : list string)
    (fs : Fs.t) : completion (list shot) :=
  match names with
  | [] => Returns []
  | f :: rest =>
      let p := Path.join screenshotPath f in
      match Fs.statSync p fs with
      | Throws e => Throws e
      | Returns stats =>
          match stat_shots screenshotPath rest fs with
          | Throws e => Throws e
          | Returns l =>
              Returns ({| filename := f; filepath := p;
                          size := size_of p stats;
                          created := birthtime p;
                          modified := Fs.mtime stats |} :: l)
          end
      end
  end.

(** Where the disk keeps the directory that [dir] names.  The disk holds
    normalised paths and the system resolves the path it is given: the
    entries [readdirSync(dir)] reports are those at [path.join(dir, name)],
    and the directory itself is found the same way, whatever slashes or
    dots [dir] is written with. *)
Definition resolved (dir : string) : string := Path.join dir ".".

(** [getScreenshots(limit = 20)]: [None] is a call without argument.  A
    root that does not exist gives the empty list at once; every
    exception ([readdirSync] on a root that is a file, a failing
    [statSync]) is logged and gives the empty list as well. *)
Definition getScreenshots (screenshotPath : string) (fs : Fs.t)
    (limit : option Z) : list shot :=
  let limit := default 20 limit in
  match Fs.lookup (resolved screenshotPath) fs with
  | None => []
  | Some {| Fs.kind := Fs.RegularFile _ |} => []
  | Some {| Fs.kind := Fs.Directory |} =>
      let names := filter (λ f, Retention.is_screenshot f = true)
                     (Fs.readdirSync screenshotPath fs) in
      match stat_shots screenshotPath names fs with
      | Throws _ => []
      | Returns files => slice limit (sort_newest_first files)
      end
  end.
End Stats.

End Listing.

(** ** The profile store: class [ProfileManager]

    [this.profiles] is a plain object used as a map, so [this.profiles[id]]
    also finds what every object inherits from [Object.prototype]: its
    methods, [__proto__], and whatever has been added to it. *)

Module Profiles.

Record state := {
  (** own properties of [this.profiles] *)
  profiles : gmap string jsobj;
  (** properties added to [Object.prototype] *)
  object_prototype : jsobj;
  (** properties added to the methods of [Object.prototype], by method *)
  builtins : gmap string jsobj;
  (** what [profiles.json] holds, if it has been written *)
  profiles_json : option (gmap string jsobj);
  (** the error [writeFileSync] meets, if any *)
  disk_error : option thrown;
}.

(** An effectful method: the state afterwards and how the call ended. *)
Definition M (A : Type) : Type := state → state * completion A.

Definition ret {A} (a : A) : M A := λ st, (st, Returns a).
Definition throw {A} (e : thrown) : M A := λ st, (st, Throws e).
Definition bind {A B} (m : M A) (k : A → M B) : M B :=
  λ st, match m st with
        | (st', Returns a) => k a st'
        | (st', Throws e) => (st', Throws e)
        end.
Definition current : M state := λ st, (st, Returns st).
Definition modify (f : state → state) : M unit := λ st, (f st, Returns tt).

Notation "x <- m ;; k" := (bind m (λ x, k))
  (at level 100, m at next level, right associativity).
Notation "m ;; k" := (bind m (λ _, k))
  (at level 100, right associativity).

(** The methods every object inherits from [Object.prototype]. *)
Definition inherited_methods : list string :=
  ["constructor"; "__defineGetter__"; "__defineSetter__"; "hasOwnProperty";
   "__lookupGetter__"; "__lookupSetter__"; "isPrototypeOf";
   "propertyIsEnumerable"; "toString"; "valueOf"; "toLocaleString"].

(** What [this.profiles[id]] evaluates to. *)
Inductive target :=
| OwnProfile (id : string)
| InheritedMethod (name : string)
| ObjectPrototype
| Primitive (v : jsval).

Definition lookup (st : state) (id : string) : target :=
  match profiles st !! id with
  | Some _ => OwnProfile id
  | None =>
      if bool_decide (id ∈ inherited_methods) then InheritedMethod id
      else if String.eqb id "__proto__" then ObjectPrototype
      else Primitive (default JUndefined (object_prototype st !! id))
  end.

Definition target_truthy (t : target) : bool :=
  match t with
  | Primitive v => Js.truthy v
  | _ => true
  end.

(** [o[k]] and [k in o] for a plain object [o]; the keys the code uses
    are none of the inherited methods. *)
Definition get (st : state) (o : jsobj) (k : string) : jsval :=
  match o !! k with
  | Some v => v
  | None => default JUndefined (object_prototype st !! k)
  end.

Definition has (st : state) (o : jsobj) (k : string) : bool :=
  bool_decide (is_Some (o !! k))
  || bool_decide (is_Some (object_prototype st !! k)).

(** [t[k]]; the key is none of [name], [length], [prototype]. *)
Definition target_get (st : state) (t : target) (k : string) : jsval :=
  match t with
  | OwnProfile id => get st (default ∅ (profiles st !! id)) k
  | InheritedMethod f => get st (default ∅ (builtins st !! f)) k
  | ObjectPrototype | Primitive _ =>
      default JUndefined (object_prototype st !! k)
  end.

Definition with_profiles (f : gmap string jsobj → gmap string jsobj)
    (st : state) : state :=
  {| profiles := f (profiles st); object_prototype := object_prototype st;
     builtins := builtins st; profiles_json := profiles_json st;
     disk_error := disk_error st |}.

Definition with_object_prototype (f : jsobj → jsobj) (st : state) : state :=
  {| profiles := profiles st; object_prototype := f (object_prototype st);
     builtins := builtins st; profiles_json := profiles_json st;
     disk_error := disk_error st |}.

Definition with_builtins (f : gmap string jsobj → gmap string jsobj)
    (st : state) : state :=
  {| profiles := profiles st; object_prototype := object_prototype st;
     builtins := f (builtins st); profiles_json := profiles_json st;
     disk_error := disk_error st |}.

Definition with_profiles_json (j : option (gmap string jsobj))
    (st : state) : state :=
  {| profiles := profiles st; object_prototype := object_prototype st;
     builtins := builtins st; profiles_json := j;
     disk_error := disk_error st |}.

(** [t[k] = v] in strict mode (a class body is strict): a primitive
    takes no property, and [name] and [length] of a function are
    read-only. *)
Definition target_set (t : target) (k : string) (v : jsval) : M unit :=
  match t with
  | OwnProfile id => modify (with_profiles (alter (insert k v) id))
  | InheritedMethod f =>
      if bool_decide (k ∈ ["name"; "length"])
      then throw (TypeError ("Cannot assign to read only property " +:+ k))
      else modify (with_builtins
                     (λ b, <[f := <[k := v]> (default ∅ (b !! f))]> b))
  | ObjectPrototype => modify (with_object_prototype (insert k v))
  | Primitive _ => throw (TypeError ("Cannot create property " +:+ k))
  end.

(** What [JSON.stringify] keeps of an object: [undefined] properties are
    left out and NaN is written as [null]. *)
Definition to_json (o : jsobj) : jsobj :=
  (λ v, match v with JNaN => JNull | _ => v end)
    <$> filter (λ kv, kv.2 ≠ JUndefined) o.

(** [saveProfiles()]: the whole store is written again; a failure is
    logged and thrown again. *)
Definition saveProfiles : M unit :=
  λ st,
    match disk_error st with
    | Some e => (st, Throws e)
    | None => (with_profiles_json (Some (to_json <$> profiles st)) st,
               Returns tt)
    end.

(** The object literal of [createProfile]. *)
Definition new_profile (st : state) (id now : string) (config : jsobj) : jsobj :=
  let cfg k := get st config k in
  list_to_map
    [("id", JStr id);
     ("name", Js.or (cfg "name")
                (JStr ("Profile " +:+ String.substring 0 4 id)));
     ("url", Js.or (cfg "url")
               (JStr "http://homeassistant.local:8123/lovelace/default"));
     ("width", Js.or (cfg "width") (JNum 800));
     ("height", Js.or (cfg "height") (JNum 480));
     ("theme", Js.or (cfg "theme") (JStr "light"));
     ("refreshInterval", Js.or (cfg "refreshInterval") (JNum 0));
     ("outputFormat", Js.or (cfg "outputFormat") (JStr "png"));
     ("enabled", JBool (negb (Js.strict_eq (cfg "enabled") (JBool false))));
     ("description", Js.or (cfg "description") (JStr ""));
     ("created", JStr now);
     ("lastRun", JNull);
     ("lastSuccess", JNull);
     ("failureCount", JNum 0)].

(** [createProfile(config)]; [id] is [crypto.randomBytes(8).toString('hex')]
    and [now] is [new Date().toISOString()]. *)
Definition createProfile (id now : string) (config : jsobj) : M jsobj :=
  st <- current ;;
  let profile := new_profile st id now config in
  modify (with_profiles (insert id profile)) ;;
  saveProfiles ;;
  ret profile.

Definition allowedFields : list string :=
  ["name"; "url"; "width"; "height"; "theme";
   "refreshInterval"; "outputFormat"; "enabled"; "description"].

(** The [for ... of allowedFields] loop. *)
Fixpoint copy_fields (profile : target) (updates : jsobj)
    (fields : list string) : M unit :=
  match fields with
  | [] => ret tt
  | field :: rest =>
      st <- current ;;
      (if has st updates field
       then target_set profile field (get st updates field)
       else ret tt) ;;
      copy_fields profile updates rest
  end.

(** [updateProfile(id, updates)]; [now] is [new Date().toISOString()]. *)
Definition updateProfile (now : string) (id : string) (updates : jsobj)
    : M target :=
  st <- current ;;
  let profile := lookup st id in
  if negb (target_truthy profile)
  then throw (Error ("Profile not found: " +:+ id))
  else
    (* Only allow updating specific fields *)
    copy_fields profile updates allowedFields ;;
    target_set profile "modified" (JStr now) ;;
    saveProfiles ;;
    ret profile.

(** [getProfile(id)]: [None] is [null]. *)
Definition getProfile (st : state) (id : string) : option target :=
  let t := lookup st id in
  if target_truthy t then Some t else None.

(** [recordCapture(id, success)]; [now1] and [now2] are the two readings
    of [new Date().toISOString()]. *)
Definition recordCapture (now1 now2 : string) (id : string) (success : bool)
    : M unit :=
  st <- current ;;
  let profile := lookup st id in
  if negb (target_truthy profile) then ret tt
  else
    target_set profile "lastRun" (JStr now1) ;;
    (if success then
       target_set profile "lastSuccess" (JStr now2) ;;
       target_set profile "failureCount" (JNum 0)
     else
       st' <- current ;;
       target_set profile "failureCount"
         (Js.add (Js.or (target_get st' profile "failureCount") (JNum 0))
                 (JNum 1))) ;;
    saveProfiles.

Section Scheduler.
(** [StringToNumber] and the parsing of date strings by [new Date(s)]
    belong to the runtime ([None] is NaN). *)
Variable StringToNumber : string → option Z.
Variable Date_parse : string → option Z.

(** [new Date(v).getTime()]. *)
Definition getTime (v : jsval) : option Z :=
  match v with
  | JStr s => Date_parse s
  | _ =>
      match Js.to_number_prim v with
      | Some n => if Z.abs n <=? 8640000000000000 then Some n else None
      | None => None
      end
  end.

(** [lastRun] in milliseconds: the epoch for a profile that has not run. *)
Definition lastRun_ms (st : state) (profile : jsobj) : option Z :=
  if Js.truthy (get st profile "lastRun")
  then getTime (get st profile "lastRun") else Some 0.

(** The body of the loop: is [profile] pushed to [toCapture]? *)
Definition due (st : state) (now : Z) (profile : jsobj) : bool :=
  if negb (Js.truthy (get st profile "enabled"))
     || Js.le_num StringToNumber (get st profile "refreshInterval") 0
  then false
  else
    let intervalMs :=
      (λ r, r * 1000) <$>
        Js.to_number StringToNumber (get st profile "refreshInterval") in
    let lastRun := lastRun_ms st profile in
    let nextRun :=
      match lastRun, intervalMs with
      | Some l, Some m => Some (l + m)
      | _, _ => None
      end in
    match nextRun with
    | Some next => next <=? now
    | None => false
    end.

(** [getProfilesToCapture()] when the clock reads [now] milliseconds;
    the order of the result is the one of [Object.values]. *)
Definition getProfilesToCapture (st : state) (now : Z) : list jsobj :=
  filter (λ p, due st now p = true) ((map_to_list (profiles st)).*2).
End Scheduler.

(** The messages [validateProfile] pushes to [errors], in the order of
    the checks:
    URL is required and must be a string;
    Name is required and must be a string;
    Width must be a number between 100 and 4000;
    Height must be a number between 100 and 4000;
    Theme must be either light or dark;
    Refresh interval must be a non-negative number;
    Output format must be one of: png, jpeg, bmp3, bmp. *)
Inductive violation :=
| BadUrl | BadName | BadWidth | BadHeight | BadTheme
| BadRefreshInterval | BadOutputFormat.

Global Instance violation_eq_dec : EqDecision violation.
Proof. solve_decision. Defined.

(** [typeof v !== 'number' || v < lo || v > hi]; the comparisons are
    reached by numbers only. *)
Definition not_number_within (v : jsval) (lo hi : Z) : bool :=
  negb (String.eqb (Js.typeof v) "number")
  || match v with JNum n => (n <? lo) || (hi <? n) | _ => false end.

(** [validateProfile(config)]: the list [errors]. *)
Definition validateProfile (st : state) (config : jsobj) : list violation :=
  let cfg k := get st config k in
  (if negb (Js.truthy (cfg "url"))
      || negb (String.eqb (Js.typeof (cfg "url")) "string")
   then [BadUrl] else [])
  ++ (if negb (Js.truthy (cfg "name"))
         || negb (String.eqb (Js.typeof (cfg "name")) "string")
      then [BadName] else [])
  ++ (if Js.truthy (cfg "width")
         && not_number_within (cfg "width") 100 4000
      then [BadWidth] else [])
  ++ (if Js.truthy (cfg "height")
         && not_number_within (cfg "height") 100 4000
      then [BadHeight] else [])
  ++ (if Js.truthy (cfg "theme")
         && negb (Js.includes ["light"; "dark"] (cfg "theme"))
      then [BadTheme] else [])
  ++ (if Js.truthy (cfg "refreshInterval")
         && (negb (String.eqb (Js.typeof (cfg "refreshInterval")) "number")
             || match cfg "refreshInterval" with
                | JNum n => n <? 0 | _ => false end)
      then [BadRefreshInterval] else [])
  ++ (if Js.truthy (cfg "outputFormat")
         && negb (Js.includes ["png"; "jpeg"; "bmp3"; "bmp"]
                    (cfg "outputFormat"))
      then [BadOutputFormat] else []).

Definition valid (st : state) (config : jsobj) : bool :=
  bool_decide (validateProfile st config = []).

(** [deleteProfile(id)]; [delete] removes an own property and does
    nothing for a name that is only inherited. *)
Definition deleteProfile (id : string) : M bool :=
  st <- current ;;
  if negb (target_truthy (lookup st id)) then ret false
  else
    modify (with_profiles (delete id)) ;;
    saveProfiles ;;
    ret true.

(** [getAllProfiles(enabledOnly = false)], in the order of
    [Object.values]. *)
Definition getAllProfiles (st : state) (enabledOnly : bool) : list jsobj :=
  let all := (map_to_list (profiles st)).*2 in
  if enabledOnly
  then filter (λ p, Js.truthy (get st p "enabled") = true) all
  else all.

(** What the constructor finds at [profilesPath]: no file, a file that
    cannot be read or parsed, or a JSON document that maps identifiers to
    profiles. *)
Inductive stored :=
| Missing
| Unreadable (e : thrown)
| Document (j : gmap string jsobj).

(** [loadProfiles()]: it never throws; a file that is missing is created
    empty, and when that fails, or when the file cannot be read, the store
    starts empty all the same. *)
Definition loadProfiles (file : stored) : M unit :=
  λ st,
    match file with
    | Document j => (with_profiles (λ _, j) st, Returns tt)
    | Missing =>
        match saveProfiles (with_profiles (λ _, ∅) st) with
        | (st', Returns _) => (st', Returns tt)
        | (st', Throws _) => (with_profiles (λ _, ∅) st', Returns tt)
        end
    | Unreadable _ => (with_profiles (λ _, ∅) st, Returns tt)
    end.

(** [new ProfileManager(dataPath)] in a process of its own, where nothing
    has been added to the prototypes: the fields are set and
    [loadProfiles()] runs, and the constructor completes as that call
    does.  A file that cannot be parsed counts as not written. *)
Definition construct (file : stored) (disk_error : option thrown)
    : state * completion unit :=
  loadProfiles file
    {| profiles := ∅; object_prototype := ∅; builtins := ∅;
       profiles_json := match file with Document j => Some j | _ => None end;
       disk_error := disk_error |}.

(** The manager the constructor leaves. *)
Definition new_manager (file : stored) (disk_error : option thrown) : state :=
  (construct file disk_error).1.

End Profiles.

(** ** The two profile handlers of the server *)

Module Server.

Inductive body :=
| JsonObject (t : Profiles.target)       (* [res.json(profile)] *)
| JsonErrors (errors : list Profiles.violation)
| JsonError (error : string).

Record response := { status : Z; json : body }.

(** [handleCreateProfile]: validation, then the store. *)
Definition handleCreateProfile (id now : string) (reqBody : jsobj)
    (st : Profiles.state) : Profiles.state * response :=
  if negb (Profiles.valid st reqBody) then
    (st, {| status := 400;
            json := JsonErrors (Profiles.validateProfile st reqBody) |})
  else
    match Profiles.createProfile id now reqBody st with
    | (st', Returns _) =>
        (st', {| status := 201; json := JsonObject (Profiles.OwnProfile id) |})
    | (st', Throws e) =>
        (st', {| status := 500; json := JsonError (message e) |})
    end.

(** [handleUpdateProfile]: the profile must exist; the body goes to
    [updateProfile] as it came. *)
Definition handleUpdateProfile (now : string) (id : string)
    (reqBody : jsobj) (st : Profiles.state) : Profiles.state * response :=
  match Profiles.getProfile st id with
  | None => (st, {| status := 404; json := JsonError "Profile not found" |})
  | Some _ =>
      match Profiles.updateProfile now id reqBody st with
      | (st', Returns updated) =>
          (st', {| status := 200; json := JsonObject updated |})
      | (st', Throws e) =>
          (st', {| status := 500; json := JsonError (message e) |})
      end
  end.

(** What the other handlers send: a JSON body with its status, or a
    buffer with its content type. *)
Inductive payload :=
| ErrorMessage (error : string)                  (* [{ error }] *)
| SuccessMessage (message : string)              (* [{ success: true, message }] *)
| ProfileObject (t : Profiles.target)
| ProfileList (total : Z) (profiles : list jsobj)
| CaptureResult (r : Capture.result).

Inductive sent :=
| SendJson (status : Z) (body : payload)
| SendBuffer (contentType : string) (buffer : bytes).

(** [handleGetProfile]. *)
Definition handleGetProfile (id : string) (st : Profiles.state) : sent :=
  match Profiles.getProfile st id with
  | None => SendJson 404 (ErrorMessage "Profile not found")
  | Some profile => SendJson 200 (ProfileObject profile)
  end.

(** [handleDeleteProfile]. *)
Definition handleDeleteProfile (id : string) (st : Profiles.state)
    : Profiles.state * sent :=
  match Profiles.deleteProfile id st with
  | (st', Returns true) =>
      (st', SendJson 200 (SuccessMessage "Profile deleted"))
  | (st', Returns false) =>
      (st', SendJson 404 (ErrorMessage "Profile not found"))
  | (st', Throws e) => (st', SendJson 500 (ErrorMessage (message e)))
  end.

(** [handleListProfiles]; [enabled] is [req.query.enabled]. *)
Definition handleListProfiles (enabled : option string)
    (st : Profiles.state) : sent :=
  let enabledOnly := bool_decide (enabled = Some "true") in
  let profiles := Profiles.getAllProfiles st enabledOnly in
  SendJson 200 (ProfileList (Z.of_nat (length profiles)) profiles).

(** [handleCaptureProfile] up to its [await]: the answer, or the options
    of the capture it waits for.  [haToken] is [this.haToken]. *)
Definition handleCaptureProfile_request (haToken : jsval) (id : string)
    (st : Profiles.state) : sent + Capture.options :=
  match Profiles.getProfile st id with
  | None => inl (SendJson 404 (ErrorMessage "Profile not found"))
  | Some profile =>
      inr {| Capture.url := Profiles.target_get st profile "url";
             Capture.width := Profiles.target_get st profile "width";
             Capture.height := Profiles.target_get st profile "height";
             Capture.theme := Profiles.target_get st profile "theme";
             Capture.haToken := haToken;
             Capture.outputFormat :=
               Profiles.target_get st profile "outputFormat" |}
  end.

(** [handleCaptureProfile] from its [await] on; [result] is what
    [captureScreenshot] resolved to. *)
Definition handleCaptureProfile_response (now1 now2 : string) (id : string)
    (result : Capture.result) (st : Profiles.state)
    : Profiles.state * sent :=
  let success :=
    match result with Capture.Success _ => true | Capture.Failure _ => false end in
  match Profiles.recordCapture now1 now2 id success st with
  | (st', Returns _) =>
      (st', if success then SendJson 200 (CaptureResult result)
            else SendJson 400 (CaptureResult result))
  | (st', Throws e) => (st', SendJson 500 (ErrorMessage (message e)))
  end.

(** [handleDeleteScreenshot]. *)
Definition handleDeleteScreenshot (screenshotPath : string) (fs : Fs.t)
    (filename : string) : Fs.t * sent :=
  let '(fs', deleted, _) :=
    Store.deleteScreenshot screenshotPath fs filename in
  (fs', if deleted then SendJson 200 (SuccessMessage "Screenshot deleted")
        else SendJson 404 (ErrorMessage "Screenshot not found")).

Section Files.
(** [path.extname] and [toLowerCase] belong to the runtime. *)
Variable extname : string → string.
Variable toLowerCase : string → string.
Variable birthtime : string → Z.
Variable directory_size : string → Z.

(** [handleGetScreenshot]: a buffer is truthy even when it is empty. *)
Definition handleGetScreenshot (screenshotPath : string) (fs : Fs.t)
    (filename : string) : sent :=
  match (Store.getScreenshot screenshotPath fs filename).1 with
  | Throws e => SendJson 500 (ErrorMessage (message e))
  | Returns None => SendJson 404 (ErrorMessage "Screenshot not found")
  | Returns (Some buffer) =>
      let ext := toLowerCase (extname filename) in
      let contentType :=
        if String.eqb ext ".bmp" then "image/bmp" else "image/png" in
      SendBuffer contentType buffer
  end.

(** [handleGetLatestScreenshot]. *)
Definition handleGetLatestScreenshot (screenshotPath : string) (fs : Fs.t)
    : sent :=
  match Listing.getScreenshots birthtime directory_size screenshotPath fs
          (Some 1) with
  | [] => SendJson 404 (ErrorMessage "No screenshots available")
  | first :: _ =>
      match (Store.getScreenshot screenshotPath fs
               (Listing.filename first)).1 with
      | Throws e => SendJson 500 (ErrorMessage (message e))
      | Returns None => SendJson 404 (ErrorMessage "Screenshot not found")
      | Returns (Some buffer) => SendBuffer "image/png" buffer
      end
  end.
End Files.

End Server.

(** ** The vocabulary of the properties *)

Section CaptureVocabulary.
Import Capture.

(** What one turn of one call does to the counter. *)
Definition counter_effect (W : world) (i : nat) (s : service) (t : task) : Prop :=
  let '(s', t') := captureScreenshot W i s t in
  maxConcurrent s' = maxConcurrent s
  ∧ activeCaptures s' = activeCaptures s
      + (if in_flight t' then 1 else 0) - (if in_flight t then 1 else 0)
  ∧ (in_flight t = false → in_flight t' = true →
     activeCaptures s < maxConcurrent s).

(** The invariant: the counter is the number of calls between the
    increment and the decrement, and it is within the bound. *)
Definition throttle_inv (s : system) : Prop :=
  activeCaptures (svc s) = renders s
  ∧ renders s ≤ maxConcurrent (svc s).

(** A call that holds its slot: it took it first, and has neither given it
    back nor closed its context. *)
Definition held (l : list event) : Prop :=
  (∃ body, l = Acquire :: body) ∧ (Release ∉ l) ∧ (ContextClosed ∉ l).

(** What the log of a call looks like at each point of the function. *)
Definition log_inv (t : task) : Prop :=
  match at_pc t with
  | NotCalled | Throttled => log t = []
  | Awaiting _ | Converting _ | Closing PageClose _ => held (log t)
  | Closing _ _ => ∃ l0, log t = l0 ++ [PageClosed] ∧ held l0
  | Done (Failure _) => log t = [] ∨ ∃ l0, log t = l0 ++ [Release] ∧ held l0
  | Done (Success _) =>
      ∃ l0, log t = l0 ++ [PageClosed; ContextClosed; Release] ∧ held l0
  end.

(** A call that, by its log, has incremented the counter and not yet
    decremented it. *)
Definition holds_slot (t : task) : bool :=
  bool_decide (Acquire ∈ log t ∧ Release ∉ log t).

(** The number of such calls. *)
Definition slots_held (s : system) : Z :=
  Z.of_nat (length (filter (λ t, holds_slot t = true) (tasks s))).

(** What follows the first occurrence of [e]. *)
Fixpoint after_first (e : event) (l : list event) : list event :=
  match l with
  | [] => []
  | x :: l' => if decide (x = e) then l' else after_first e l'
  end.

(** [b] occurs after the first [a]. *)
Definition happens_before (a b : event) (l : list event) : bool :=
  bool_decide (b ∈ after_first a l).

(** The name and the path [captureScreenshot] gives the file of call 0. *)
Definition name_of (W : world) (fmt : jsval) : string :=
  "screenshot-" +:+ dashes (iso_at_save W 0%nat) +:+ "-"
    +:+ random_hex W 0%nat +:+ "." +:+ extension fmt.

End CaptureVocabulary.

Section ProfilesVocabulary.
Import Profiles.

(** The profile [recordCapture] leaves in place of [p]. *)
Definition recorded (st : state) (now1 now2 : string) (success : bool)
    (p : jsobj) : jsobj :=
  let p1 := <["lastRun" := JStr now1]> p in
  if success then
    <["failureCount" := JNum 0]> (<["lastSuccess" := JStr now2]> p1)
  else
    <["failureCount" :=
        Js.add (Js.or (get st p1 "failureCount") (JNum 0)) (JNum 1)]> p1.

(** The profile the loop over [allowedFields] leaves in place of [p]. *)
Fixpoint copied (st : state) (updates : jsobj) (fields : list string)
    (p : jsobj) : jsobj :=
  match fields with
  | [] => p
  | field :: rest =>
      copied st updates rest
        (if has st updates field then <[field := get st updates field]> p
         else p)
  end.

End ProfilesVocabulary.

Section RetentionVocabulary.
Import Retention.

(** [p] is an entry of the storage directory whose name begins with
    [screenshot-]. *)
Definition candidate (root p : string) : bool :=
  Fs.is_child root p && is_screenshot (Fs.basename p).

(** The entries the sweep looks at, in directory order. *)
Definition candidates (root : string) (fs : Fs.t) : Fs.t :=
  filter (λ e, candidate root e.1 = true) fs.

(** The object the [map] of the sweep builds for an entry. *)
Definition info (e : string * Fs.node) : file :=
  {| name := Fs.basename e.1; path := e.1; modified := Fs.mtime e.2 |}.

(** A node [unlinkSync] removes. *)
Definition is_regular (o : option Fs.node) : bool :=
  match o with
  | Some {| Fs.kind := Fs.RegularFile _ |} => true
  | _ => false
  end.

(** Every path names one node. *)
Definition well_formed (fs : Fs.t) : Prop := NoDup fs.*1.

(** The order the sort establishes. *)
Definition newer_first (a b : file) : Prop := modified b ≤ modified a.

(** The paths the loop unlinks, from index [i] on: expired, and a
    regular file on disk. *)
Fixpoint victims (now maxAgeMs maxCount : Z) (i : Z) (files : list file)
    (fs : Fs.t) : list string :=
  match files with
  | [] => []
  | f :: rest =>
      if expired now maxAgeMs maxCount i f
         && is_regular (Fs.lookup (path f) fs)
      then path f :: victims now maxAgeMs maxCount (i + 1) rest fs
      else victims now maxAgeMs maxCount (i + 1) rest fs
  end.

(** The file system without the paths [ps]. *)
Definition without (ps : list string) (fs : Fs.t) : Fs.t :=
  filter (λ e, e.1 ∉ ps) fs.

(** The files a sweep runs over. *)
Definition listed (root : string) (fs : Fs.t) : list file :=
  sort_newest_first (info <$> candidates root fs).

End RetentionVocabulary.

Section PathVocabulary.

(** A string that holds no slash. *)
Fixpoint no_slash (s : string) : bool :=
  match s with
  | "" => true
  | String c s' => negb (Ascii.eqb c Path.slash) && no_slash s'
  end.

(** A segment that names an entry: it holds no slash and is none of the
    empty string, [.] and [..]. *)
Definition plain (s : string) : bool :=
  no_slash s && negb (String.eqb s "") && negb (String.eqb s ".")
  && negb (String.eqb s "..").

(** An absolute path of one or more plain segments, such as
    [/data/screenshots]. *)
Definition is_rooted (root : string) : bool :=
  match Path.split root with
  | "" :: seg :: segs => forallb plain (seg :: segs)
  | _ => false
  end.

(** One of the segments of [f] is [..]. *)
Definition climbs (f : string) : bool := bool_decide (".." ∈ Path.split f).

(** A segment the normalisation keeps: neither empty nor a dot. *)
Definition kept (s : string) : Prop := s ≠ "" ∧ s ≠ ".".

Global Instance kept_dec s : Decision (kept s).
Proof. unfold kept. apply _. Defined.

End PathVocabulary.

Section ListingVocabulary.
Variable birthtime : string → Z.
Variable directory_size : string → Z.

(** The object the [map] of [getScreenshots] builds for an entry. *)
Definition shot_of (e : string * Fs.node) : Listing.shot :=
  {| Listing.filename := Fs.basename e.1;
     Listing.filepath := e.1;
     Listing.size := Listing.size_of directory_size e.1 e.2;
     Listing.created := birthtime e.1;
     Listing.modified := Fs.mtime e.2 |}.

(** The order of the listing. *)
Definition newer_shot_first (a b : Listing.shot) : Prop :=
  Listing.modified b ≤ Listing.modified a.

(** How many elements [slice(0, limit)] keeps of [n]. *)
Definition kept_by_slice (limit : Z) (n : nat) : nat :=
  Z.to_nat (if limit <? 0 then Z.max (Z.of_nat n + limit) 0
            else Z.min limit (Z.of_nat n)).

(** A node [readdirSync] lists the entries of. *)
Definition is_directory (o : option Fs.node) : bool :=
  match o with
  | Some {| Fs.kind := Fs.Directory |} => true
  | _ => false
  end.

End ListingVocabulary.

Section DiskVocabulary.
Import Capture.

(** The name [captureScreenshot] gives the file of call [i]. *)
Definition file_name (W : world) (i : nat) (fmt : jsval) : string :=
  "screenshot-" +:+ dashes (iso_at_save W i) +:+ "-" +:+ random_hex W i
    +:+ "." +:+ extension fmt.

(** The name and the path a call holds once it has written its file. *)
Definition written (t : task) : option (string * string) :=
  match at_pc t with
  | Closing _ sv => Some (s_filename sv, s_filepath sv)
  | Done (Success r) => Some (filename r, filepath r)
  | _ => None
  end.

(** The file a call has written lies on the disk [d] under the root. *)
Definition saved_inv (W : world) (root : string) (d : Fs.t) (i : nat)
    (t : task) : Prop :=
  ∀ name path, written t = Some (name, path) →
    name = file_name W i (outputFormat (destructure (opts t)))
    ∧ path = Path.join root name
    ∧ is_regular (Fs.lookup path d) = true.

(** No event of [evs] is a write. *)
Definition no_write (evs : list event) : bool :=
  forallb (λ e, match e with Written _ => false | _ => true end) evs.

(** The calls [calls] of which those named in [sched] stand at [p] and
    the others have not started; none has done anything. *)
Definition stalled (p : pc) (sched : list nat) (calls : list options)
    : list task :=
  imap (λ i o, {| opts := o;
                  at_pc := if bool_decide (i ∈ sched) then p else NotCalled;
                  log := [] |}) calls.

(** The invariant of a run: every call that has written its file has it
    on disk under the name the call made up. *)
Definition disk_inv (W : world) (root : string) (calls : list options)
    (s : system) : Prop :=
  screenshotPath (svc s) = root
  ∧ opts <$> tasks s = calls
  ∧ ∀ i t, tasks s !! i = Some t → saved_inv W root (fs (svc s)) i t.

End DiskVocabulary.

Section PersistenceVocabulary.
Import Profiles.

(** An identifier under which a plain object inherits nothing. *)
Definition ordinary (st : state) (id : string) : bool :=
  bool_decide (id ∉ inherited_methods)
  && negb (String.eqb id "__proto__")
  && bool_decide (object_prototype st !! id = None).

(** What lies at [profilesPath] when [saveProfiles] was the last to write
    there, if anyone was. *)
Definition profiles_file (st : state) : stored :=
  match profiles_json st with
  | Some j => Document j
  | None => Missing
  end.

(** The manager a new process builds over the disk [st] leaves behind. *)
Definition restart (st : state) : state :=
  new_manager (profiles_file st) (disk_error st).

(** The fields [validateProfile] checks, as a profile holds them. *)
Definition in_range (p : jsobj) : Prop :=
  (∃ u, p !! "url" = Some (JStr u) ∧ u ≠ "")
  ∧ (∃ n, p !! "name" = Some (JStr n) ∧ n ≠ "")
  ∧ (∃ w, p !! "width" = Some (JNum w) ∧ 100 ≤ w ≤ 4000)
  ∧ (∃ h, p !! "height" = Some (JNum h) ∧ 100 ≤ h ≤ 4000)
  ∧ (∃ t, p !! "theme" = Some (JStr t) ∧ t ∈ ["light"; "dark"])
  ∧ (∃ k, p !! "refreshInterval" = Some (JNum k) ∧ 0 ≤ k)
  ∧ (∃ f, p !! "outputFormat" = Some (JStr f)
        ∧ f ∈ ["png"; "jpeg"; "bmp3"; "bmp"])
  ∧ (∃ b, p !! "enabled" = Some (JBool b)).

(** The store after a sequence of [recordCapture] calls on one profile,
    each with its two clock readings and its outcome. *)
Fixpoint recordCaptures (id : string) (runs : list (string * string * bool))
    (st : state) : state :=
  match runs with
  | [] => st
  | (now1, now2, success) :: rest =>
      recordCaptures id rest (recordCapture now1 now2 id success st).1
  end.

(** The failures since the last success of [runs], counted on from [k]. *)
Fixpoint streak (k : Z) (runs : list (string * string * bool)) : Z :=
  match runs with
  | [] => k
  | (_, _, true) :: rest => streak 0 rest
  | (_, _, false) :: rest => streak (k + 1) rest
  end.

End PersistenceVocabulary.

(** ** Scenarios the properties are tried on *)

(** The storage root the server configures, a stored capture, and a file
    in a directory next to the root whose name begins like the root's. *)
Definition storage_root : string := "/data/screenshots".
Definition secret : bytes := ["s"; "e"; "c"; "r"; "e"; "t"]%byte.
Definition outside_path : string := "/data/screenshots-old/secret.png".
Definition disk : Fs.t :=
  [("/data/screenshots", {| Fs.kind := Fs.Directory; Fs.mtime := 0 |});
   ("/data/screenshots/screenshot-a.png",
    {| Fs.kind := Fs.RegularFile []; Fs.mtime := 10 |});
   (outside_path, {| Fs.kind := Fs.RegularFile secret; Fs.mtime := 20 |})].

(** A codec that takes every byte for one grey sample. *)
Definition sample_codec : Sharp.codec :=
  {| Sharp.decode_greyscale := λ b, Returns ((λ x, Z.of_N (Byte.to_N x)) <$> b);
     Sharp.encode_png_palette := λ _ _ img,
       (λ v, default "000"%byte (Byte.of_N (Z.to_N v))) <$> img;
     Sharp.encode_png := λ img,
       (λ v, default "000"%byte (Byte.of_N (Z.to_N v))) <$> img;
     Sharp.encode_jpeg := λ _ b, Returns b |}.

(** An environment in which nothing fails. *)
Definition calm : Capture.world :=
  {| Capture.rejects := λ _ _, None;
     Capture.raster := λ _, ["P"; "N"; "G"]%byte;
     Capture.sharp := sample_codec;
     Capture.iso_at_save := λ _, "2025-11-23T23:11:14.224Z";
     Capture.iso_at_return := λ _, "2025-11-23T23:11:14.301Z";
     Capture.random_hex := λ _, "0fdd4984";
     Capture.ms_at_save := λ _, 1763939474224;
     Capture.write_fails := λ _, None |}.

(** An environment in which every navigation times out. *)
Definition unreachable : Capture.world :=
  {| Capture.rejects := λ _ op,
       match op with
       | Capture.Goto => Some "Timeout 30000ms exceeded"
       | _ => None
       end;
     Capture.raster := Capture.raster calm;
     Capture.sharp := sample_codec;
     Capture.iso_at_save := Capture.iso_at_save calm;
     Capture.iso_at_return := Capture.iso_at_return calm;
     Capture.random_hex := Capture.random_hex calm;
     Capture.ms_at_save := Capture.ms_at_save calm;
     Capture.write_fails := λ _, None |}.

(** The service as the server builds it, once the browser is up. *)
Definition ready : Capture.service :=
  Capture.initialize
    (Capture.new_service (Some storage_root) None None None disk).

(** A format that is a path from the directory of the captures to the
    file of the profile store. *)
Definition path_format : jsval := JStr "x/../../profiles.json".

(** A request for the dashboard in the given format. *)
Definition dashboard (fmt : jsval) : Capture.options :=
  {| Capture.url := JStr "http://homeassistant.local:8123/lovelace/default";
     Capture.width := JUndefined; Capture.height := JUndefined;
     Capture.theme := JUndefined; Capture.haToken := JStr "";
     Capture.outputFormat := fmt |}.

(** One call run for as many turns as the longest path through
    [captureScreenshot] has. *)
Definition alone (W : Capture.world) (sv : Capture.service)
    (o : Capture.options) : Capture.system :=
  Capture.run W (replicate 12 0%nat)
    {| Capture.svc := sv; Capture.tasks := [Capture.call o] |}.

(** A profile store that holds nothing and has never been written. *)
Definition empty_store : Profiles.state :=
  {| Profiles.profiles := ∅; Profiles.object_prototype := ∅;
     Profiles.builtins := ∅; Profiles.profiles_json := None;
     Profiles.disk_error := None |}.

Definition kitchen_id : string := "9f86d081884c7d65".

(** What a client posts to create the kitchen dashboard profile. *)
Definition kitchen_config : jsobj :=
  list_to_map
    [("name", JStr "Kitchen"); ("url", JStr "http://h/");
     ("width", JNum 800); ("height", JNum 480);
     ("refreshInterval", JNum 60)].

(** The store after that profile has been created. *)
Definition kitchen_store : Profiles.state :=
  (Profiles.createProfile kitchen_id "2025-11-23T23:00:00.000Z"
     kitchen_config empty_store).1.

(** An update no field of which passes [validateProfile]. *)
Definition bad_update : jsobj :=
  list_to_map
    [("width", JNum 50); ("theme", JStr "blue"); ("outputFormat", JStr "gif")].

(** The same store while the disk refuses writes. *)
Definition disk_full (st : Profiles.state) : Profiles.state :=
  {| Profiles.profiles := Profiles.profiles st;
     Profiles.object_prototype := Profiles.object_prototype st;
     Profiles.builtins := Profiles.builtins st;
     Profiles.profiles_json := Profiles.profiles_json st;
     Profiles.disk_error :=
       Some (FsError "ENOSPC" "/data/profiles.json") |}.

(** The same store once the disk takes writes again. *)
Definition disk_back (st : Profiles.state) : Profiles.state :=
  {| Profiles.profiles := Profiles.profiles st;
     Profiles.object_prototype := Profiles.object_prototype st;
     Profiles.builtins := Profiles.builtins st;
     Profiles.profiles_json := Profiles.profiles_json st;
     Profiles.disk_error := None |}.

(** The kitchen profile created while the disk was full: it lives in
    memory only, and [profiles.json] has not been written. *)
Definition unsaved_store : Profiles.state :=
  disk_back
    (Profiles.createProfile kitchen_id "2025-11-23T23:00:00.000Z"
       kitchen_config (disk_full empty_store)).1.

(** The kitchen profile after a capture that succeeded at 23:00:00. *)
Definition ran_at : string := "2025-11-23T23:00:00.000Z".
Definition ran_at_ms : Z := 1763938800000.
Definition kitchen_ran : Profiles.state :=
  (Profiles.recordCapture ran_at "2025-11-23T23:00:00.001Z" kitchen_id true
     kitchen_store).1.

(** A profile that is to be captured every 2 000 000 000 seconds, a
    value [validateProfile] accepts, and the clock of 23 November 2025. *)
Definition archive_id : string := "60303ae22b998861".
Definition archive_config : jsobj :=
  list_to_map
    [("name", JStr "Archive"); ("url", JStr "http://h/archive");
     ("refreshInterval", JNum 2000000000)].
Definition archive_store : Profiles.state :=
  (Profiles.createProfile archive_id "2025-11-23T23:00:00.000Z"
     archive_config empty_store).1.
Definition clock_2025 : Z := 1763939474224.

(** The runtime's conversions at the strings the scenarios use. *)
Definition parse_known (s : string) : option Z :=
  if String.eqb s ran_at then Some ran_at_ms else None.
Definition no_numeric_strings (s : string) : option Z := None.

(** A raw capture of four samples of the same middle grey. *)
Definition flat_grey : bytes := ["d"; "d"; "d"; "d"]%byte.

(** A storage directory with a capture from a day ago, a recent one, and
    a file the sweep does not look at. *)
Definition day_ms : Z := 24 * 60 * 60 * 1000.
Definition old_shot : string := "/data/screenshots/screenshot-old.png".
Definition shots : Fs.t :=
  [("/data/screenshots", {| Fs.kind := Fs.Directory; Fs.mtime := 0 |});
   ("/data/screenshots/screenshot-new.png",
    {| Fs.kind := Fs.RegularFile []; Fs.mtime := day_ms - 1000 |});
   (old_shot, {| Fs.kind := Fs.RegularFile []; Fs.mtime := 0 |});
   ("/data/screenshots/notes.txt",
    {| Fs.kind := Fs.RegularFile []; Fs.mtime := 0 |})].

(** What [statSync] reports beside the model of the disk, in the
    scenarios: no birth time, and directories of one block. *)
Definition no_birthtime (p : string) : Z := 0.
Definition one_block (p : string) : Z := 4096.

(** The extension of the names the scenarios use. *)
Definition extname_of_shots (f : string) : string := ".png".
Definition lower_case (s : string) : string := s.

(** A service whose bound was configured as 0, and the server's service
    after [close]. *)
Definition starved : Capture.service :=
  Capture.initialize
    (Capture.new_service (Some storage_root) None None (Some 0) disk).
Definition closed : Capture.service := (Capture.close None ready).1.

(** An identifier of the shape [createProfile] draws that names no
    profile. *)
Definition unknown_id : string := "0000000000000000".

(** Two failed runs of the kitchen profile. *)
Definition two_failures : list (string * string * bool) :=
  [("2025-11-23T23:01:00.000Z", "2025-11-23T23:01:00.001Z", false);
   ("2025-11-23T23:02:00.000Z", "2025-11-23T23:02:00.001Z", false)].

(** * Properties *)

(** ** [path.join] on a few paths *)

Example join_plain :
  Path.join "/data/screenshots" "a.png" = "/data/screenshots/a.png".
Proof. reflexivity. Qed.

Example join_climbs :
  Path.join "/data/screenshots" "../../etc/passwd" = "/etc/passwd".
Proof. reflexivity. Qed.

Example join_cleans :
  Path.join "/data/screenshots" "a/./b//c/../" = "/data/screenshots/a/b/".
Proof. reflexivity. Qed.

Example join_relative : Path.join "a" "../../b" = "../b".
Proof. reflexivity. Qed.

Example join_server_root : Path.join "/data" "screenshots" = "/data/screenshots".
Proof. reflexivity. Qed.

(** ** The traversal guard of the capture store *)

Section TraversalGuard.

(** What the guard does give: every path the two functions touch begins
    with the characters of the root. *)
Lemma getScreenshot_touches_prefixed root fs f a p :
  a ∈ (Store.getScreenshot root fs f).2 →
  Fs.touches_content a = Some p →
  String.prefix root p = true.
Proof.
  unfold Store.getScreenshot.
  destruct (String.prefix root (Path.join root f)) eqn:Hpre; simpl.
  - destruct (Fs.existsSync _ _); [destruct (Fs.readFileSync _ _)|]; simpl;
      intros Ha Hp; repeat (apply elem_of_cons in Ha as [->|Ha]);
      try (by apply elem_of_nil in Ha); simpl in Hp; congruence.
  - intros Ha; by apply elem_of_nil in Ha.
Qed.

Lemma deleteScreenshot_touches_prefixed root fs f a p :
  a ∈ (Store.deleteScreenshot root fs f).2 →
  Fs.touches_content a = Some p →
  String.prefix root p = true.
Proof.
  unfold Store.deleteScreenshot.
  destruct (String.prefix root (Path.join root f)) eqn:Hpre; simpl.
  - destruct (Fs.existsSync _ _); [destruct (Fs.unlinkSync _ _) as [? []]|];
      simpl; intros Ha Hp; repeat (apply elem_of_cons in Ha as [->|Ha]);
      try (by apply elem_of_nil in Ha); simpl in Hp; congruence.
  - intros Ha; by apply elem_of_nil in Ha.
Qed.

(** A file name whose joined path does not begin with the characters of
    the root is turned down without touching the disk. *)
Lemma guard_rejects root fs f :
  String.prefix root (Path.join root f) = false →
  Store.getScreenshot root fs f = (Returns None, [])
  ∧ Store.deleteScreenshot root fs f = (fs, false, []).
Proof.
  intros H. unfold Store.getScreenshot, Store.deleteScreenshot.
  by rewrite H.
Qed.

Example guard_rejects_parent :
  Store.getScreenshot storage_root disk "../../etc/passwd" = (Returns None, [])
  ∧ Store.deleteScreenshot storage_root disk "../../etc/passwd"
    = (disk, false, []).
Proof. by apply guard_rejects. Qed.

(** C1.  The guard compares characters, not path segments: the file name
    [../screenshots-old/secret.png] resolves to a path outside the storage
    root that still begins with the root's characters, so [getScreenshot]
    reads that file and [deleteScreenshot] unlinks it. *)
Theorem traversal_guard_misses_sibling_directory :
  Path.join storage_root "../screenshots-old/secret.png" = outside_path
  ∧ Path.within storage_root outside_path = false
  ∧ Store.getScreenshot storage_root disk "../screenshots-old/secret.png"
    = (Returns (Some secret), [Fs.Exists outside_path; Fs.Read outside_path])
  ∧ Store.deleteScreenshot storage_root disk "../screenshots-old/secret.png"
    = (Fs.remove outside_path disk, true,
       [Fs.Exists outside_path; Fs.Unlink outside_path])
  ∧ Fs.lookup outside_path (Fs.remove outside_path disk) = None.
Proof. repeat split; reflexivity. Qed.

End TraversalGuard.

(** ** The capture throttle *)

Section Throttle.
Import Capture.

Lemma count_update {A} (P : A → bool) (l : list A) (i : nat) (x y : A) :
  l !! i = Some x →
  Z.of_nat (length (filter (λ t, P t = true) (<[i := y]> l)))
  = Z.of_nat (length (filter (λ t, P t = true) l))
    + (if P y then 1 else 0) - (if P x then 1 else 0).
Proof.
  revert i. induction l as [|a l IH]; intros [|i] Hi; simplify_eq/=.
  - rewrite !filter_cons. destruct (P x), (P y); simpl;
      repeat case_decide; simplify_eq/=; lia.
  - rewrite !filter_cons. specialize (IH _ Hi).
    destruct (decide (P a = true)); simpl; lia.
Qed.

Lemma enter_effect s t :
  in_flight t = false →
  let '(s', t') := enter s t in
  maxConcurrent s' = maxConcurrent s
  ∧ activeCaptures s' = activeCaptures s + (if in_flight t' then 1 else 0)
  ∧ (in_flight t' = true → activeCaptures s < maxConcurrent s).
Proof.
  intros Ht. unfold enter.
  destruct (maxConcurrent s <=? activeCaptures s) eqn:Hle; simpl.
  - repeat split; [lia | done].
  - apply Z.leb_gt in Hle. repeat split; lia.
Qed.

Lemma fail_effect m s t :
  in_flight t = true →
  let '(s', t') := fail m s t in
  maxConcurrent s' = maxConcurrent s
  ∧ activeCaptures s' = activeCaptures s - 1
  ∧ in_flight t' = false.
Proof. intros Ht. simpl. repeat split. Qed.

Lemma save_effect W i buf evs s t :
  in_flight t = true →
  let '(s', t') := save W i buf evs s t in
  maxConcurrent s' = maxConcurrent s
  ∧ activeCaptures s' = activeCaptures s
      + (if in_flight t' then 1 else 0) - 1.
Proof.
  intros Ht. unfold save.
  destruct (write_fails W i); [simpl; split; [done|lia]|].
  destruct (Fs.writeFileSync _ _ _ _) as [d [[]|e]]; simpl; split; done || lia.
Qed.

Lemma turn_effect W i s t : counter_effect W i s t.
Proof.
  unfold counter_effect, captureScreenshot.
  destruct t as [o p l]; destruct p as [| |op|buf|op sv|r]; simpl.
  - destruct (browser s); simpl.
    + pose proof (enter_effect s {| opts := o; at_pc := NotCalled; log := l |} eq_refl) as H.
      destruct (enter _ _) as [s' t']. destruct H as (?&?&?).
      repeat split; [done | lia | auto].
    + repeat split; [lia | done].
  - pose proof (enter_effect s {| opts := o; at_pc := Throttled; log := l |} eq_refl) as H.
    destruct (enter _ _) as [s' t']. destruct H as (?&?&?).
    repeat split; [done | lia | auto].
  - destruct (rejects W i op); [simpl; repeat split; [lia|done]|].
    destruct op; simpl; try (repeat split; [lia | done]).
    + unfold after_viewport, after_theme; simpl.
      repeat (case_match; simpl); repeat split; lia || done.
    + unfold after_theme; simpl.
      repeat (case_match; simpl); repeat split; lia || done.
    + destruct (_ || _); simpl; [repeat split; lia || done|].
      pose proof (save_effect W i (raster W i) [Captured] s
                    {| opts := o; at_pc := Awaiting Screenshot; log := l |} eq_refl) as H.
      destruct (save _ _ _ _ _ _) as [s' t']. destruct H as (?&?).
      repeat split; [done | lia | done].
  - destruct (if is_bmp _ then _ else _) as [b|e]; simpl.
    + pose proof (save_effect W i b [Converted] s
                    {| opts := o; at_pc := Converting buf; log := l |} eq_refl) as H.
      destruct (save _ _ _ _ _ _) as [s' t']. destruct H as (?&?).
      repeat split; [done | lia | done].
    + repeat split; [lia | done].
  - destruct (rejects W i op); [simpl; repeat split; [lia|done]|].
    destruct op; simpl; repeat split; lia || done.
  - repeat split; [lia | done].
Qed.

Lemma step_preserves_inv W s i : throttle_inv s → throttle_inv (step W s i).
Proof.
  intros [Hact Hle]. unfold step.
  destruct (tasks s !! i) as [t|] eqn:Hi; [|done].
  pose proof (turn_effect W i (svc s) t) as H. unfold counter_effect in H.
  destruct (captureScreenshot W i (svc s) t) as [sv t']. destruct H as (Hmax & Hc & Hadm).
  unfold throttle_inv, renders in *; simpl.
  rewrite (count_update in_flight _ _ _ _ Hi). rewrite Hmax, Hc.
  split; [lia|].
  destruct (in_flight t') eqn:Ht', (in_flight t) eqn:Ht;
    first [lia | specialize (Hadm eq_refl eq_refl); lia].
Qed.

Lemma step_keeps_bound W s i :
  maxConcurrent (svc (step W s i)) = maxConcurrent (svc s).
Proof.
  unfold step. destruct (tasks s !! i) as [t|] eqn:Hi; [|done].
  pose proof (turn_effect W i (svc s) t) as H. unfold counter_effect in H.
  destruct (captureScreenshot W i (svc s) t) as [sv t']. by destruct H as (Hmax & _).
Qed.

Lemma run_preserves_inv W sched s : throttle_inv s → throttle_inv (run W sched s).
Proof.
  revert s. induction sched as [|i sched IH]; intros s Hs; [done|].
  simpl. apply IH. by apply step_preserves_inv.
Qed.

Lemma run_keeps_bound W sched s :
  maxConcurrent (svc (run W sched s)) = maxConcurrent (svc s).
Proof.
  revert s. induction sched as [|i sched IH]; intros s; [done|].
  simpl. rewrite IH. apply step_keeps_bound.
Qed.

Lemma no_call_in_flight (calls : list options) :
  filter (λ t, in_flight t = true) (call <$> calls) = [].
Proof.
  induction calls as [|o calls IH]; [done|].
  rewrite fmap_cons, filter_cons_False; [apply IH | by simpl].
Qed.

(** The bound the constructor sets when none is configured. *)
Example default_bound path timeout quality disk :
  maxConcurrent (new_service path timeout quality None disk) = 3.
Proof. reflexivity. Qed.

(** C2.  Whatever calls are made and however the event loop interleaves
    them, the counter [activeCaptures] equals the number of calls between
    the increment and the decrement and never exceeds [maxConcurrent]; and
    a call leaves the wait loop only in a turn that found fewer than
    [maxConcurrent] captures active. *)
Theorem throttle_bound (W : world) (sv : service) (calls : list options)
    (sched : list nat) :
  0 ≤ maxConcurrent sv →
  activeCaptures sv = 0 →
  let s := run W sched {| svc := sv; tasks := call <$> calls |} in
  activeCaptures (svc s) = renders s
  ∧ renders s ≤ maxConcurrent sv
  ∧ ∀ i t t',
      tasks s !! i = Some t → in_flight t = false →
      tasks (step W s i) !! i = Some t' → in_flight t' = true →
      renders s < maxConcurrent sv.
Proof.
  intros Hmax Hzero s.
  assert (throttle_inv s) as [Hact Hle].
  { apply run_preserves_inv. unfold throttle_inv, renders; simpl.
    rewrite no_call_in_flight. simpl. lia. }
  assert (maxConcurrent (svc s) = maxConcurrent sv) as Hb
    by apply run_keeps_bound.
  rewrite Hb in Hle. repeat split; [done..|].
  intros i t t' Hi Ht Hi' Ht'.
  unfold step in Hi'. rewrite Hi in Hi'.
  pose proof (turn_effect W i (svc s) t) as H. unfold counter_effect in H.
  destruct (captureScreenshot W i (svc s) t) as [sv' t'']. destruct H as (_ & _ & Hadm).
  simpl in Hi'. rewrite list_lookup_insert_eq in Hi'
    by (by eapply lookup_lt_Some).
  simplify_eq. specialize (Hadm Ht Ht'). lia.
Qed.

End Throttle.

(** ** Cleanup on the exit paths of [captureScreenshot] *)

Section Cleanup.
Import Capture.

Lemma held_app l evs :
  held l → Release ∉ evs → ContextClosed ∉ evs → held (l ++ evs).
Proof.
  intros ([body ->] & Hr & Hc) ??. split; [by eexists|].
  rewrite !not_elem_of_app. done.
Qed.

Lemma held_snoc l e :
  held l → e ≠ Release → e ≠ ContextClosed → held (l ++ [e]).
Proof.
  intros H ??. apply held_app; [done|..];
    rewrite list_elem_of_singleton; congruence.
Qed.

Lemma held_start : held [Acquire].
Proof.
  split; [by exists []|]. rewrite !list_elem_of_singleton. naive_solver.
Qed.

Lemma enter_log_inv s t :
  log t = [] → log_inv (enter s t).2.
Proof.
  intros Hl. unfold enter. case_match; simpl; unfold log_inv; simpl.
  - by rewrite Hl.
  - rewrite Hl. apply held_start.
Qed.

Lemma fail_log_inv m s t : held (log t) → log_inv (fail m s t).2.
Proof. intros H. unfold log_inv; simpl. right. by eexists. Qed.

Lemma save_log_inv W i buf e s t :
  held (log t) → e ≠ Release → e ≠ ContextClosed →
  log_inv (save W i buf [e] s t).2.
Proof.
  intros H ??. unfold save.
  destruct (write_fails W i).
  - apply fail_log_inv. simpl. by apply held_snoc.
  - destruct (Fs.writeFileSync _ _ _ _) as [d [[]|err]].
    + unfold log_inv; simpl. apply held_app; [done|..];
        rewrite !not_elem_of_cons; repeat split; try done;
        apply not_elem_of_nil.
    + apply fail_log_inv. simpl. by apply held_snoc.
Qed.

Lemma turn_log_inv W i s t : log_inv t → log_inv (captureScreenshot W i s t).2.
Proof.
  unfold captureScreenshot. destruct t as [o p l]. unfold log_inv at 1. simpl.
  destruct p as [| |op|buf|op sv|r]; simpl; intros H.
  - destruct (browser s); simpl; [by apply enter_log_inv|].
    unfold log_inv; simpl. left. by rewrite H.
  - by apply enter_log_inv.
  - destruct (rejects W i op); [by apply fail_log_inv|].
    destruct op; simpl; try done;
      try (unfold log_inv; simpl; by apply held_snoc).
    + unfold after_viewport, after_theme; simpl.
      destruct (Js.strict_eq _ _); [|destruct (Js.truthy _)];
        unfold log_inv; simpl; by apply held_snoc.
    + unfold after_theme; simpl.
      destruct (Js.truthy _); unfold log_inv; simpl; by apply held_snoc.
    + destruct (_ || _).
      * unfold log_inv; simpl. by apply held_snoc.
      * by apply save_log_inv.
  - destruct (if is_bmp _ then _ else _).
    + by apply save_log_inv.
    + by apply fail_log_inv.
  - destruct op; simpl in H;
      try (destruct H as (l0 & -> & Hl0);
           destruct (rejects W i _);
           [ unfold log_inv; simpl; right; eexists; split; [done|];
             by apply held_snoc
           | unfold log_inv; simpl; exists l0;
             by rewrite <- app_assoc ]).
    destruct (rejects W i _); [by apply fail_log_inv|].
    unfold log_inv; simpl. by eexists.
  - done.
Qed.

Lemma step_log_inv W s i :
  Forall log_inv (tasks s) → Forall log_inv (tasks (step W s i)).
Proof.
  intros H. unfold step. destruct (tasks s !! i) as [t|] eqn:Hi; [|done].
  pose proof (turn_log_inv W i (svc s) t) as Ht.
  destruct (captureScreenshot W i (svc s) t) as [sv t']. simpl in *.
  apply Forall_insert; [done|]. apply Ht.
  by eapply Forall_lookup_1.
Qed.

Lemma run_log_inv W sched s :
  Forall log_inv (tasks s) → Forall log_inv (tasks (run W sched s)).
Proof.
  revert s. induction sched as [|i sched IH]; intros s Hs; [done|].
  simpl. apply IH. by apply step_log_inv.
Qed.

Lemma calls_log_inv (calls : list options) : Forall log_inv (call <$> calls).
Proof. apply Forall_fmap, Forall_forall. by intros. Qed.

(** The counter and the calls in flight move together. *)
Lemma step_counter W s i :
  activeCaptures (svc (step W s i)) - renders (step W s i)
  = activeCaptures (svc s) - renders s.
Proof.
  unfold step. destruct (tasks s !! i) as [t|] eqn:Hi; [|done].
  pose proof (turn_effect W i (svc s) t) as H. unfold counter_effect in H.
  destruct (captureScreenshot W i (svc s) t) as [sv t'].
  destruct H as (_ & Hc & _). unfold renders; simpl.
  rewrite (count_update in_flight _ _ _ _ Hi), Hc. lia.
Qed.

Lemma run_counter W sched s :
  activeCaptures (svc (run W sched s)) - renders (run W sched s)
  = activeCaptures (svc s) - renders s.
Proof.
  revert s. induction sched as [|i sched IH]; intros s; [done|].
  simpl. rewrite IH. apply step_counter.
Qed.

(** By its log a call holds a slot exactly while it is between the
    increment and the decrement. *)
Lemma log_inv_holds t : log_inv t → holds_slot t = in_flight t.
Proof.
  unfold log_inv, holds_slot, in_flight.
  assert (∀ l, held l → Acquire ∈ l ∧ Release ∉ l) as Hheld.
  { intros l ([body ->] & Hr & _). split; [apply list_elem_of_here|done]. }
  destruct (at_pc t) as [| |op|buf|op sv|[ok|m]].
  - intros ->. apply bool_decide_eq_false. intros [H _]. by apply elem_of_nil in H.
  - intros ->. apply bool_decide_eq_false. intros [H _]. by apply elem_of_nil in H.
  - intros H. by apply bool_decide_eq_true, Hheld.
  - intros H. by apply bool_decide_eq_true, Hheld.
  - destruct op; try (intros H; by apply bool_decide_eq_true, Hheld);
      intros (l0 & -> & [Ha Hr]%Hheld); apply bool_decide_eq_true;
      (split; [apply elem_of_app; by left|]);
      rewrite not_elem_of_app, list_elem_of_singleton; done.
  - intros (l0 & -> & _). apply bool_decide_eq_false. intros [_ H]. apply H.
    apply elem_of_app. right.
    repeat first [apply list_elem_of_here | apply list_elem_of_further].
  - intros [->|(l0 & -> & _)]; apply bool_decide_eq_false.
    + intros [H _]. by apply elem_of_nil in H.
    + intros [_ H]. apply H. apply elem_of_app. right. apply list_elem_of_here.
Qed.

Lemma slots_held_renders s :
  Forall log_inv (tasks s) → slots_held s = renders s.
Proof.
  unfold slots_held, renders. intros H. do 2 f_equal.
  induction H as [|t l Ht Hl IH]; [done|].
  rewrite !filter_cons, IH, (log_inv_holds _ Ht).
  by destruct (decide (in_flight t = true)).
Qed.

(** The turn in which a call stops holding its slot is its last, and the
    decrement is the last thing it logs. *)
Lemma save_exit W i buf evs s t :
  in_flight (save W i buf evs s t).2 = false →
  ∃ r evs', at_pc (save W i buf evs s t).2 = Done r
    ∧ log (save W i buf evs s t).2 = log t ++ evs' ++ [Release].
Proof.
  unfold save. destruct (write_fails W i).
  - intros _. do 2 eexists. split; [done|]. simpl. by rewrite app_assoc.
  - destruct (Fs.writeFileSync _ _ _ _) as [d [[]|e]]; [done|].
    intros _. do 2 eexists. split; [done|]. simpl. by rewrite app_assoc.
Qed.

Lemma turn_exit W i s t :
  in_flight t = true →
  in_flight (captureScreenshot W i s t).2 = false →
  ∃ r evs, at_pc (captureScreenshot W i s t).2 = Done r
    ∧ log (captureScreenshot W i s t).2 = log t ++ evs ++ [Release].
Proof.
  assert (∀ m, ∃ r evs, at_pc (fail m s t).2 = Done r
            ∧ log (fail m s t).2 = log t ++ evs ++ [Release]) as Hfail.
  { intros m. by exists (Failure m), []. }
  unfold captureScreenshot. destruct t as [o p l].
  destruct p as [| |op|buf|op sv|r]; simpl; try done; intros _.
  - destruct (rejects W i op); [intros _; apply Hfail|].
    destruct op; simpl; try done.
    + unfold after_viewport, after_theme; simpl.
      by repeat (case_match; simpl).
    + unfold after_theme; simpl. by repeat (case_match; simpl).
    + destruct (_ || _); [done|]. apply save_exit.
  - destruct (if is_bmp _ then _ else _); [apply save_exit|intros _; apply Hfail].
  - destruct (rejects W i op); [intros _; apply Hfail|].
    destruct op; simpl; try done; intros _;
      by eexists _, [ContextClosed].
Qed.

(** C3 (as amended).  Whatever the environment does and however the calls
    interleave, a call that took a slot and has returned gave the slot back
    exactly once, as the last thing it did: its log ends with the one
    decrement, it is not among the calls that hold a slot, the counter
    [activeCaptures] is what it was at the start plus the number of calls
    that have incremented it and not yet decremented it, and the turn in
    which a call that holds a slot returns lowers the counter by one.
    When the call returned success it had closed the page and then the
    context immediately before that, so that teardown comes first and the
    release second. *)
Theorem release_on_every_exit (W : world) (sv : service)
    (calls : list options) (sched : list nat) (i : nat) (t : task)
    (r : result) :
  let s := run W sched {| svc := sv; tasks := call <$> calls |} in
  tasks s !! i = Some t →
  at_pc t = Done r →
  Acquire ∈ log t →
  (∃ body, log t = Acquire :: body ++ [Release] ∧ Release ∉ body)
  ∧ (∀ ok, r = Success ok →
       (∃ body, log t = body ++ [PageClosed; ContextClosed; Release])
       ∧ happens_before ContextClosed Release (log t) = true
       ∧ happens_before Release ContextClosed (log t) = false)
  ∧ holds_slot t = false
  ∧ activeCaptures (svc s) = activeCaptures sv + slots_held s
  ∧ (∀ j u u',
       tasks s !! j = Some u → in_flight u = true →
       tasks (step W s j) !! j = Some u' → in_flight u' = false →
       activeCaptures (svc (step W s j)) = activeCaptures (svc s) - 1
       ∧ ∃ r' evs, at_pc u' = Done r' ∧ log u' = log u ++ evs ++ [Release]).
Proof.
  intros s Hi Hpc Hacq.
  assert (Forall log_inv (tasks s)) as Hall.
  { apply run_log_inv. simpl. apply calls_log_inv. }
  assert (log_inv t) as Hinv by (by eapply Forall_lookup_1).
  assert (holds_slot t = false) as Hfree.
  { rewrite (log_inv_holds _ Hinv). unfold in_flight. by rewrite Hpc. }
  assert (activeCaptures (svc s) = activeCaptures sv + slots_held s) as Hcount.
  { rewrite (slots_held_renders _ Hall).
    pose proof (run_counter W sched {| svc := sv; tasks := call <$> calls |})
      as Hrun.
    fold s in Hrun. unfold renders at 2 in Hrun. simpl in Hrun.
    rewrite no_call_in_flight in Hrun. simpl in Hrun. lia. }
  assert (∀ j u u',
       tasks s !! j = Some u → in_flight u = true →
       tasks (step W s j) !! j = Some u' → in_flight u' = false →
       activeCaptures (svc (step W s j)) = activeCaptures (svc s) - 1
       ∧ ∃ r' evs, at_pc u' = Done r' ∧ log u' = log u ++ evs ++ [Release])
    as Hturn.
  { intros j u u' Hj Hu Hj' Hu'. unfold step in *. rewrite Hj in *.
    pose proof (turn_effect W j (svc s) u) as He. unfold counter_effect in He.
    pose proof (turn_exit W j (svc s) u Hu) as Hx.
    destruct (captureScreenshot W j (svc s) u) as [sv' u''].
    simpl in Hj', Hx |- *.
    rewrite list_lookup_insert_eq in Hj' by (by eapply lookup_lt_Some).
    simplify_eq. destruct He as (_ & Hc & _). rewrite Hu, Hu' in Hc.
    split; [lia|by apply Hx]. }
  unfold log_inv in Hinv. rewrite Hpc in Hinv.
  assert (∀ l0 tl, held l0 → Release ∉ tl →
            ∃ body, l0 ++ tl ++ [Release] = Acquire :: body ++ [Release]
                    ∧ Release ∉ body) as Hshape.
  { intros l0 tl ([body ->] & Hr & _) Htl. exists (body ++ tl).
    split; [by rewrite <- app_assoc|].
    apply not_elem_of_cons in Hr as [_ Hr].
    rewrite not_elem_of_app. done. }
  assert (∀ l0, held l0 →
            after_first ContextClosed (l0 ++ [PageClosed; ContextClosed; Release])
              = [Release]
            ∧ after_first Release (l0 ++ [PageClosed; ContextClosed; Release])
              = []) as Hafter.
  { intros l0 (_ & Hr & Hc).
    induction l0 as [|x l0 IH]; simpl.
    - repeat case_decide; done.
    - apply not_elem_of_cons in Hr as [? ?].
      apply not_elem_of_cons in Hc as [? ?].
      repeat case_decide; try done. by apply IH. }
  split; [|split; [|done]].
  - destruct r as [ok|m].
    + destruct Hinv as (l0 & Hl & Hheld). rewrite Hl.
      destruct (Hshape l0 [PageClosed; ContextClosed] Hheld) as (body & He & Hb).
      { rewrite !not_elem_of_cons. repeat split; try done. apply not_elem_of_nil. }
      exists body. split; [|done]. rewrite <- He. done.
    + destruct Hinv as [Hnil|(l0 & Hl & Hheld)].
      { rewrite Hnil in Hacq. by apply elem_of_nil in Hacq. }
      rewrite Hl.
      destruct (Hshape l0 [] Hheld) as (body & He & Hb); [apply not_elem_of_nil|].
      exists body. split; [|done]. rewrite <- He. done.
  - intros ok ->. destruct Hinv as (l0 & Hl & Hheld).
    split; [by eexists|].
    unfold happens_before. rewrite Hl.
    destruct (Hafter l0 Hheld) as [-> ->].
    split; [by apply bool_decide_eq_true, list_elem_of_singleton
           |apply bool_decide_eq_false, not_elem_of_nil].
Qed.

(** Beside C3: a call that fails never closes the context it may have
    opened. *)
Lemma failure_leaves_context_open (W : world) (sv : service)
    (calls : list options) (sched : list nat) (i : nat) (t : task)
    (m : string) :
  tasks (run W sched {| svc := sv; tasks := call <$> calls |}) !! i = Some t →
  at_pc t = Done (Failure m) →
  ContextClosed ∉ log t.
Proof.
  intros Hi Hpc.
  assert (log_inv t) as Hinv.
  { eapply Forall_lookup_1; [|exact Hi].
    apply run_log_inv. simpl. apply calls_log_inv. }
  unfold log_inv in Hinv. rewrite Hpc in Hinv.
  destruct Hinv as [->|(l0 & -> & _ & _ & Hc)]; [apply not_elem_of_nil|].
  rewrite not_elem_of_app, list_elem_of_singleton. done.
Qed.

End Cleanup.

Section CaptureRuns.
Import Capture.

(** Five calls against the default bound of three: three are rendering,
    the other two wait. *)
Example five_calls_three_slots :
  let s := run calm [0; 1; 2; 3; 4; 3; 0; 4]%nat
             {| svc := ready; tasks := call <$> replicate 5 (dashboard JUndefined) |} in
  activeCaptures (svc s) = 3
  ∧ at_pc <$> tasks s
    = [Awaiting NewPage; Awaiting CreateBrowserContext;
       Awaiting CreateBrowserContext; Throttled; Throttled].
Proof. split; reflexivity. Qed.

Lemma throttle_bound_witness :
  let calls := replicate 5 (dashboard JUndefined) in
  let sched := [0; 1; 2; 3; 4; 3; 0; 4]%nat in
  let s := run calm sched {| svc := ready; tasks := call <$> calls |} in
  0 ≤ maxConcurrent ready
  ∧ activeCaptures ready = 0
  ∧ activeCaptures (svc s) = renders s
  ∧ renders s ≤ maxConcurrent ready
  ∧ ∀ i t t',
      tasks s !! i = Some t → in_flight t = false →
      tasks (step calm s i) !! i = Some t' → in_flight t' = true →
      renders s < maxConcurrent ready.
Proof.
  intros calls sched s.
  assert (0 ≤ maxConcurrent ready) as H0 by (vm_compute; discriminate).
  assert (activeCaptures ready = 0) as H1 by reflexivity.
  split; [exact H0|]. split; [exact H1|].
  exact (throttle_bound calm ready calls sched H0 H1).
Defined.

(** C3 (as stated) fails on the successful path: the context is closed
    first and the slot is given back afterwards. *)
Lemma teardown_precedes_release :
  ∃ t ok,
    tasks (alone calm ready (dashboard (JStr "png"))) = [t]
    ∧ at_pc t = Done (Success ok)
    ∧ log t = [Acquire; ContextOpened; PageOpened; ViewportSet; Navigated;
               Settled; Captured;
               Written "/data/screenshots/screenshot-2025-11-23T23-11-14-224Z-0fdd4984.png";
               PageClosed; ContextClosed; Release]
    ∧ happens_before Release ContextClosed (log t) = false.
Proof. do 2 eexists. repeat split; reflexivity. Qed.

(** The failing path of the same call: the slot is given back, the
    context that was opened is never closed. *)
Example navigation_timeout_run :
  ∃ t,
    tasks (alone unreachable ready (dashboard (JStr "png"))) = [t]
    ∧ at_pc t = Done (Failure "Timeout 30000ms exceeded")
    ∧ log t = [Acquire; ContextOpened; PageOpened; ViewportSet; Release]
    ∧ activeCaptures (svc (alone unreachable ready (dashboard (JStr "png")))) = 0.
Proof. eexists. repeat split; reflexivity. Qed.

Lemma release_on_every_exit_witness :
  let s := run calm (replicate 12 0%nat)
             {| svc := ready; tasks := call <$> [dashboard (JStr "png")] |} in
  ∃ t ok,
    tasks s !! 0%nat = Some t
    ∧ at_pc t = Done (Success ok)
    ∧ Acquire ∈ log t
    ∧ (∃ body, log t = Acquire :: body ++ [Release] ∧ Release ∉ body)
    ∧ (∀ ok', Success ok = Success ok' →
         (∃ body, log t = body ++ [PageClosed; ContextClosed; Release])
         ∧ happens_before ContextClosed Release (log t) = true
         ∧ happens_before Release ContextClosed (log t) = false)
    ∧ holds_slot t = false
    ∧ activeCaptures (svc s) = activeCaptures ready + slots_held s
    ∧ (∀ j u u',
         tasks s !! j = Some u → in_flight u = true →
         tasks (step calm s j) !! j = Some u' → in_flight u' = false →
         activeCaptures (svc (step calm s j)) = activeCaptures (svc s) - 1
         ∧ ∃ r' evs, at_pc u' = Done r' ∧ log u' = log u ++ evs ++ [Release]).
Proof.
  intros s. do 2 eexists.
  split; [reflexivity|]. split; [reflexivity|].
  split; [apply list_elem_of_here|].
  eapply (release_on_every_exit calm ready [dashboard (JStr "png")]
            (replicate 12 0%nat) 0%nat);
    [reflexivity | reflexivity | apply list_elem_of_here].
Defined.

End CaptureRuns.

(** ** Output formats the pipeline does not know *)

Section UnknownFormat.
Import Capture.

Lemma lookup_after_append p n fs :
  Fs.lookup p fs = None → Fs.lookup p (fs ++ [(p, n)]) = Some n.
Proof.
  induction fs as [|[q m] fs IH]; simpl.
  - by rewrite String.eqb_refl.
  - destruct (String.eqb q p); [done|apply IH].
Qed.

Lemma step_one W sv t sv' t' :
  captureScreenshot W 0 sv t = (sv', t') →
  step W {| svc := sv; tasks := [t] |} 0 = {| svc := sv'; tasks := [t'] |}.
Proof. intros H. unfold step. simpl. by rewrite H. Qed.

(** Beside C4: a request whose output format is none of [bmp3], [bmp],
    [jpeg] - [png] or any other value - is never turned down for its
    format and gets no conversion: when the browser is up, a slot is free,
    no step fails and the path is new, the call captures the page and
    returns success with the requested format echoed, and the raw raster
    lies on disk under a name that ends in the requested format. *)
Theorem unconverted_formats_stored_raw (W : world) (sv : service)
    (o : options) :
  let fmt := outputFormat (destructure o) in
  let path := Path.join (screenshotPath sv) (name_of W fmt) in
  browser sv = true →
  activeCaptures sv < maxConcurrent sv →
  (∀ op, rejects W 0%nat op = None) →
  write_fails W 0%nat = None →
  Fs.lookup path (fs sv) = None →
  is_bmp fmt = false →
  Js.strict_eq fmt (JStr "jpeg") = false →
  ∃ t,
    tasks (alone W sv o) = [t]
    ∧ at_pc t = Done (Success
        {| filename := name_of W fmt; filepath := path;
           size := Z.of_nat (length (raster W 0%nat));
           res_width := width (destructure o);
           res_height := height (destructure o);
           format := fmt;
           timestamp := iso_at_return W 0%nat |})
    ∧ (Converted ∉ log t)
    ∧ Captured ∈ log t
    ∧ Fs.lookup path (fs (svc (alone W sv o)))
      = Some {| Fs.kind := Fs.RegularFile (raster W 0%nat);
                Fs.mtime := ms_at_save W 0%nat |}.
Proof.
  intros fmt path Hb Hfree Hok Hw Hnew Hbmp Hjpeg.
  unfold path, name_of, fmt in *. clear path fmt.
  apply Z.leb_gt in Hfree.
  unfold alone, run. cbn [replicate fold_left].
  destruct (Js.strict_eq (theme (destructure o)) (JStr "dark")) eqn:Hdark;
    destruct (Js.truthy (haToken (destructure o))) eqn:Htok;
    repeat (erewrite step_one by
      (unfold captureScreenshot, enter, after_viewport, after_theme, save, Fs.writeFileSync;
       cbn [call goto at_pc opts negb screenshotPath fs set_active set_fs
            browser maxConcurrent activeCaptures];
       rewrite ?Hb, ?Hfree, ?Hok, ?Hdark, ?Htok, ?Hbmp, ?Hjpeg, ?Hw, ?Hnew;
       cbn [negb orb]; reflexivity)).
  all: cbn [tasks svc fs set_fs set_active].
  all: eexists; split; [reflexivity|]; cbn [goto at_pc log call opts app].
  all: split; [reflexivity|].
  all: split;
    [repeat (apply not_elem_of_cons; split; [discriminate|]);
     apply not_elem_of_nil|].
  all: split;
    [repeat first [apply list_elem_of_here | apply list_elem_of_further]|].
  all: by apply lookup_after_append.
Qed.

(** Beside C4: a request for the format [gif] goes through the whole
    capture, succeeds, and leaves a file on disk. *)
Lemma unknown_format_is_captured :
  ∃ t,
    tasks (alone calm ready (dashboard (JStr "gif"))) = [t]
    ∧ at_pc t = Done (Success
        {| filename := "screenshot-2025-11-23T23-11-14-224Z-0fdd4984.gif";
           filepath := "/data/screenshots/screenshot-2025-11-23T23-11-14-224Z-0fdd4984.gif";
           size := 3; res_width := JNum 800; res_height := JNum 480;
           format := JStr "gif"; timestamp := "2025-11-23T23:11:14.301Z" |})
    ∧ Navigated ∈ log t
    ∧ Fs.lookup "/data/screenshots/screenshot-2025-11-23T23-11-14-224Z-0fdd4984.gif"
        (fs (svc (alone calm ready (dashboard (JStr "gif")))))
      = Some {| Fs.kind := Fs.RegularFile (raster calm 0%nat);
                Fs.mtime := 1763939474224 |}.
Proof.
  eexists. split; [reflexivity|]. split; [reflexivity|].
  split; [|reflexivity].
  vm_compute. repeat first [apply list_elem_of_here | apply list_elem_of_further].
Qed.

Lemma unconverted_formats_stored_raw_witness :
  let o := dashboard (JStr "gif") in
  let fmt := outputFormat (destructure o) in
  let path := Path.join (screenshotPath ready) (name_of calm fmt) in
  browser ready = true
  ∧ activeCaptures ready < maxConcurrent ready
  ∧ (∀ op, rejects calm 0%nat op = None)
  ∧ write_fails calm 0%nat = None
  ∧ Fs.lookup path (fs ready) = None
  ∧ is_bmp fmt = false
  ∧ Js.strict_eq fmt (JStr "jpeg") = false
  ∧ ∃ t,
      tasks (alone calm ready o) = [t]
      ∧ at_pc t = Done (Success
          {| filename := name_of calm fmt; filepath := path;
             size := Z.of_nat (length (raster calm 0%nat));
             res_width := width (destructure o);
             res_height := height (destructure o);
             format := fmt;
             timestamp := iso_at_return calm 0%nat |})
      ∧ (Converted ∉ log t)
      ∧ Captured ∈ log t
      ∧ Fs.lookup path (fs (svc (alone calm ready o)))
        = Some {| Fs.kind := Fs.RegularFile (raster calm 0%nat);
                  Fs.mtime := ms_at_save calm 0%nat |}.
Proof.
  intros o fmt path.
  assert (browser ready = true) as H1 by reflexivity.
  assert (activeCaptures ready < maxConcurrent ready) as H2 by reflexivity.
  assert (∀ op, rejects calm 0%nat op = None) as H3 by reflexivity.
  assert (write_fails calm 0%nat = None) as H4 by reflexivity.
  assert (Fs.lookup path (fs ready) = None) as H5 by reflexivity.
  assert (is_bmp fmt = false) as H6 by reflexivity.
  assert (Js.strict_eq fmt (JStr "jpeg") = false) as H7 by reflexivity.
  repeat (split; [assumption|]).
  exact (unconverted_formats_stored_raw calm ready o H1 H2 H3 H4 H5 H6 H7).
Defined.

(** C4.  The format of a request is never checked by the capture,
    although [validateProfile] knows the four formats and turns the others
    down.  A request for [gif] is captured and answered with success, the
    raw raster stored under a name ending in [.gif]; and since the format
    goes into the file name as it is, a format that is a path takes the
    write out of the storage root: the raster is written over
    [/data/profiles.json]. *)
Theorem format_is_never_checked :
  let stray := alone calm ready (dashboard path_format) in
  Profiles.valid empty_store (<["outputFormat" := JStr "gif"]> kitchen_config)
  = false
  ∧ Profiles.valid empty_store (<["outputFormat" := path_format]> kitchen_config)
    = false
  ∧ (∃ t ok,
       tasks (alone calm ready (dashboard (JStr "gif"))) = [t]
       ∧ at_pc t = Done (Success ok)
       ∧ format ok = JStr "gif"
       ∧ filename ok = "screenshot-2025-11-23T23-11-14-224Z-0fdd4984.gif"
       ∧ Fs.lookup (filepath ok)
           (fs (svc (alone calm ready (dashboard (JStr "gif")))))
         = Some {| Fs.kind := Fs.RegularFile (raster calm 0%nat);
                   Fs.mtime := ms_at_save calm 0%nat |})
  ∧ (∃ t ok,
       tasks stray = [t]
       ∧ at_pc t = Done (Success ok)
       ∧ format ok = path_format
       ∧ filepath ok = "/data/profiles.json"
       ∧ Path.within storage_root (filepath ok) = false
       ∧ Fs.lookup "/data/profiles.json" (fs ready) = None
       ∧ Fs.lookup "/data/profiles.json" (fs (svc stray))
         = Some {| Fs.kind := Fs.RegularFile (raster calm 0%nat);
                   Fs.mtime := ms_at_save calm 0%nat |}).
Proof.
  intros stray. split; [by vm_compute|]. split; [by vm_compute|].
  split; do 2 eexists; repeat split; reflexivity.
Qed.

End UnknownFormat.

(** ** The profile store: run history *)

Section RunHistory.
Import Profiles.

Lemma alter_own {A} (f : A → A) (m : gmap string A) id x :
  m !! id = Some x → alter f id m = <[id := f x]> m.
Proof.
  intros H. apply map_eq. intros j. rewrite lookup_alter, lookup_insert.
  case_decide; [subst; by rewrite H|done].
Qed.

Lemma recordCapture_own st id p now1 now2 success :
  profiles st !! id = Some p →
  recordCapture now1 now2 id success st
  = saveProfiles
      (with_profiles (insert id (recorded st now1 now2 success p)) st).
Proof.
  intros Hp. unfold recordCapture, bind, current, lookup. rewrite Hp.
  cbn [target_truthy negb target_set modify].
  unfold recorded. destruct success; cbn [target_set modify bind].
  - f_equal. unfold with_profiles; simpl. f_equal.
    by rewrite (alter_own _ _ _ _ Hp), !alter_insert_eq.
  - unfold current, target_get. cbn [profiles with_profiles].
    rewrite (alter_own _ _ _ _ Hp), lookup_insert_eq. cbn [default modify].
    f_equal. unfold with_profiles; simpl. f_equal.
    by rewrite !(alter_own _ _ _ _ Hp), alter_insert_eq.
Qed.

Lemma saveProfiles_profiles st : profiles (saveProfiles st).1 = profiles st.
Proof. unfold saveProfiles. by destruct (disk_error st). Qed.

Lemma saveProfiles_written st :
  disk_error st = None →
  saveProfiles st
  = (with_profiles_json (Some (to_json <$> profiles st)) st, Returns tt).
Proof. intros H. unfold saveProfiles. by rewrite H. Qed.

Lemma recordCapture_profiles st id p now1 now2 success :
  profiles st !! id = Some p →
  profiles (recordCapture now1 now2 id success st).1
  = <[id := recorded st now1 now2 success p]> (profiles st).
Proof.
  intros Hp. rewrite (recordCapture_own _ _ _ _ _ _ Hp).
  by rewrite saveProfiles_profiles.
Qed.

Lemma recordCapture_prototype st id p now1 now2 success :
  profiles st !! id = Some p →
  object_prototype (recordCapture now1 now2 id success st).1
  = object_prototype st.
Proof.
  intros Hp. rewrite (recordCapture_own _ _ _ _ _ _ Hp).
  unfold saveProfiles. by destruct (disk_error _).
Qed.

Lemma recorded_lastRun st now1 now2 success p :
  recorded st now1 now2 success p !! "lastRun" = Some (JStr now1).
Proof. unfold recorded. destruct success; by simplify_map_eq. Qed.

Lemma recorded_success st now1 now2 p :
  recorded st now1 now2 true p !! "failureCount" = Some (JNum 0)
  ∧ recorded st now1 now2 true p !! "lastSuccess" = Some (JStr now2).
Proof. unfold recorded. split; by simplify_map_eq. Qed.

Lemma recorded_failure st now1 now2 p n :
  get st p "failureCount" = JNum n →
  recorded st now1 now2 false p !! "failureCount" = Some (JNum (n + 1))
  ∧ recorded st now1 now2 false p !! "lastSuccess" = p !! "lastSuccess".
Proof.
  intros Hn. unfold recorded. split; [|by simplify_map_eq].
  rewrite lookup_insert_eq. f_equal.
  assert (get st (<["lastRun" := JStr now1]> p) "failureCount" = JNum n) as ->.
  { unfold get in *. by rewrite lookup_insert_ne. }
  unfold Js.or, Js.truthy. destruct (n =? 0) eqn:H0; simpl; [|done].
  apply Z.eqb_eq in H0. by subst.
Qed.

(** A count that is missing is taken for zero. *)
Lemma recorded_first_failure st now1 now2 p :
  Js.truthy (get st p "failureCount") = false →
  recorded st now1 now2 false p !! "failureCount" = Some (JNum 1).
Proof.
  intros Hn. unfold recorded. rewrite lookup_insert_eq. f_equal.
  assert (get st (<["lastRun" := JStr now1]> p) "failureCount"
          = get st p "failureCount") as ->.
  { unfold get. by rewrite lookup_insert_ne. }
  unfold Js.or. by rewrite Hn.
Qed.

(** C5.  For a profile of the store, every [recordCapture] sets [lastRun];
    a success sets [failureCount] to 0 and [lastSuccess] to the time read in
    that call; a failure adds 1 to a numeric [failureCount] and leaves
    [lastSuccess] alone; the store is written to disk unless the disk
    fails.  Three failures and then a success leave [failureCount] at 0 and
    [lastSuccess] and [lastRun] at the times of the last call. *)
Theorem recordCapture_history (st : state) (id : string) (p : jsobj) :
  profiles st !! id = Some p →
  (∀ now1 now2 success,
     let r := recordCapture now1 now2 id success st in
     ∃ p', profiles r.1 !! id = Some p'
       ∧ p' !! "lastRun" = Some (JStr now1)
       ∧ (success = true →
          p' !! "failureCount" = Some (JNum 0)
          ∧ p' !! "lastSuccess" = Some (JStr now2))
       ∧ (success = false →
          (∀ n, get st p "failureCount" = JNum n →
                p' !! "failureCount" = Some (JNum (n + 1)))
          ∧ p' !! "lastSuccess" = p !! "lastSuccess")
       ∧ (disk_error st = None →
          r.2 = Returns tt
          ∧ profiles_json r.1 = Some (to_json <$> profiles r.1)))
  ∧ (∀ a1 b1 a2 b2 a3 b3 a4 b4,
       let st1 := (recordCapture a1 b1 id false st).1 in
       let st2 := (recordCapture a2 b2 id false st1).1 in
       let st3 := (recordCapture a3 b3 id false st2).1 in
       let st4 := (recordCapture a4 b4 id true st3).1 in
       ∃ p4, profiles st4 !! id = Some p4
         ∧ p4 !! "failureCount" = Some (JNum 0)
         ∧ p4 !! "lastSuccess" = Some (JStr b4)
         ∧ p4 !! "lastRun" = Some (JStr a4)).
Proof.
  intros Hp. split.
  - intros now1 now2 success r. subst r.
    exists (recorded st now1 now2 success p).
    rewrite (recordCapture_profiles _ _ _ _ _ _ Hp), lookup_insert_eq.
    split; [done|]. split; [apply recorded_lastRun|].
    split; [intros ->; apply recorded_success|].
    split.
    + intros ->. split; [intros n Hn; by apply recorded_failure|].
      unfold recorded. by simplify_map_eq.
    + intros Hd. rewrite (recordCapture_own _ _ _ _ _ _ Hp).
      rewrite saveProfiles_written by done. done.
  - intros a1 b1 a2 b2 a3 b3 a4 b4 st1 st2 st3 st4.
    assert (∃ p1, profiles st1 !! id = Some p1) as [p1 H1].
    { eexists. unfold st1.
      rewrite (recordCapture_profiles _ _ _ _ _ _ Hp). apply lookup_insert_eq. }
    assert (∃ p2, profiles st2 !! id = Some p2) as [p2 H2].
    { eexists. unfold st2.
      rewrite (recordCapture_profiles _ _ _ _ _ _ H1). apply lookup_insert_eq. }
    assert (∃ p3, profiles st3 !! id = Some p3) as [p3 H3].
    { eexists. unfold st3.
      rewrite (recordCapture_profiles _ _ _ _ _ _ H2). apply lookup_insert_eq. }
    exists (recorded st3 a4 b4 true p3). unfold st4.
    rewrite (recordCapture_profiles _ _ _ _ _ _ H3), lookup_insert_eq.
    split; [done|]. split; [apply recorded_success|].
    split; [apply recorded_success|apply recorded_lastRun].
Qed.

End RunHistory.

(** ** The profile store: identifiers that name no profile *)

Section UnknownIdentifier.
Import Profiles.

(** An identifier for which [this.profiles[id]] is falsy: nothing happens. *)
Lemma recordCapture_absent st id now1 now2 success :
  target_truthy (lookup st id) = false →
  recordCapture now1 now2 id success st = (st, Returns tt).
Proof.
  intros H. unfold recordCapture, bind, current. by rewrite H.
Qed.

Lemma lookup_absent st id :
  profiles st !! id = None →
  id ∉ inherited_methods →
  id ≠ "__proto__" →
  object_prototype st !! id = None →
  target_truthy (lookup st id) = false.
Proof.
  intros Hp Hm Hproto Ho. unfold lookup. rewrite Hp.
  rewrite bool_decide_eq_false_2 by done.
  apply String.eqb_neq in Hproto. rewrite Hproto, Ho. done.
Qed.

Example recordCapture_unknown_hex_id :
  recordCapture "t1" "t2" "0000000000000000" false kitchen_store
  = (kitchen_store, Returns tt).
Proof. apply recordCapture_absent. reflexivity. Qed.

(** C10.  [constructor] and [__proto__] name no profile, yet
    [this.profiles[id]] finds what every object inherits under these names,
    so [recordCapture] goes past its guard: it writes the run history onto
    the built-in object, rewrites [profiles.json], and throws when the disk
    fails; after [__proto__] every plain object reads a [failureCount]. *)
Theorem recordCapture_inherited_names :
  profiles unsaved_store !! "constructor" = None
  ∧ profiles unsaved_store !! "__proto__" = None
  ∧ profiles_json unsaved_store = None
  ∧ (let r := recordCapture "t1" "t2" "constructor" false unsaved_store in
     r.2 = Returns tt
     ∧ r.1 ≠ unsaved_store
     ∧ builtins r.1 !! "constructor"
       = Some (<["failureCount" := JNum 1]> (<["lastRun" := JStr "t1"]> ∅))
     ∧ profiles_json r.1 = Some (to_json <$> profiles unsaved_store))
  ∧ (let r := recordCapture "t1" "t2" "constructor" false
                (disk_full unsaved_store) in
     r.2 = Throws (FsError "ENOSPC" "/data/profiles.json"))
  ∧ (let r := recordCapture "t1" "t2" "__proto__" false unsaved_store in
     r.2 = Returns tt
     ∧ object_prototype r.1
       = <["failureCount" := JNum 1]> (<["lastRun" := JStr "t1"]> ∅)
     ∧ get r.1 ∅ "failureCount" = JNum 1).
Proof.
  split; [reflexivity|]. split; [reflexivity|]. split; [reflexivity|].
  split; [|split].
  - cbn zeta. split; [reflexivity|]. split.
    + intros H. apply (f_equal profiles_json) in H. discriminate H.
    + split; reflexivity.
  - reflexivity.
  - cbn zeta. split; [reflexivity|]. split; reflexivity.
Qed.

End UnknownIdentifier.

(** ** The profile store: updates *)

Section Updates.
Import Profiles.

Lemma with_profiles_id st p id :
  profiles st !! id = Some p → with_profiles (insert id p) st = st.
Proof.
  intros H. destruct st; unfold with_profiles; simpl in *.
  by rewrite insert_id.
Qed.

Lemma copied_ext st1 st2 updates fields p :
  object_prototype st1 = object_prototype st2 →
  copied st1 updates fields p = copied st2 updates fields p.
Proof.
  intros H. revert p. induction fields as [|f fields IH]; intros p; [done|].
  cbn [copied]. unfold has, get. rewrite H. apply IH.
Qed.

Lemma copy_fields_own st id p updates fields :
  profiles st !! id = Some p →
  copy_fields (OwnProfile id) updates fields st
  = (with_profiles (insert id (copied st updates fields p)) st, Returns tt).
Proof.
  revert st p. induction fields as [|f fields IH]; intros st p Hp.
  - simpl. unfold ret. by rewrite with_profiles_id.
  - cbn [copy_fields copied]. unfold bind at 1, current.
    unfold bind at 1.
    destruct (has st updates f) eqn:Hf.
    + cbn [target_set modify].
      rewrite (IH _ (<[f := get st updates f]> p)).
      * rewrite (copied_ext _ st) by done.
        unfold with_profiles; simpl.
        rewrite (alter_own _ _ _ _ Hp), insert_insert_eq. done.
      * cbn [profiles with_profiles].
        by rewrite (alter_own _ _ _ _ Hp), lookup_insert_eq.
    + unfold ret. by rewrite (IH _ p).
Qed.

Lemma copied_lookup st updates fields p k :
  copied st updates fields p !! k
  = if bool_decide (k ∈ fields) && has st updates k
    then Some (get st updates k) else p !! k.
Proof.
  revert p. induction fields as [|f fields IH]; intros p; [done|].
  cbn [copied]. rewrite IH.
  destruct (decide (k = f)) as [->|Hne].
  - rewrite (bool_decide_eq_true_2 (f ∈ f :: fields)) by apply list_elem_of_here.
    destruct (has st updates f) eqn:Hf.
    + rewrite andb_true_r. cbn [andb]. rewrite lookup_insert_eq.
      by case_bool_decide.
    + rewrite !andb_false_r. done.
  - assert (bool_decide (k ∈ f :: fields) = bool_decide (k ∈ fields)) as ->.
    { apply bool_decide_ext. rewrite elem_of_cons.
      split; [by intros [?|?] | by right]. }
    destruct (bool_decide (k ∈ fields) && has st updates k); [done|].
    destruct (has st updates f); [by rewrite lookup_insert_ne|done].
Qed.

Lemma updateProfile_own st id p now updates :
  profiles st !! id = Some p →
  updateProfile now id updates st
  = match saveProfiles
            (with_profiles
               (insert id (<["modified" := JStr now]>
                             (copied st updates allowedFields p))) st) with
    | (st', Returns _) => (st', Returns (OwnProfile id))
    | (st', Throws e) => (st', Throws e)
    end.
Proof.
  intros Hp. unfold updateProfile, bind at 1, current, lookup. rewrite Hp.
  cbn [target_truthy negb]. unfold bind at 1.
  rewrite (copy_fields_own _ _ _ _ _ Hp).
  unfold bind at 1. cbn [target_set modify].
  unfold bind, ret.
  assert (with_profiles (alter <["modified" := JStr now]> id)
            (with_profiles (insert id (copied st updates allowedFields p)) st)
          = with_profiles
              (insert id (<["modified" := JStr now]>
                            (copied st updates allowedFields p))) st) as ->.
  { unfold with_profiles.
    cbn [profiles object_prototype builtins profiles_json disk_error].
    by rewrite alter_insert_eq. }
  by destruct (saveProfiles _) as [? [[]|?]].
Qed.

(** C9.  For a profile of the store and any update object, [updateProfile]
    stores every allow-listed field of the update as it came, leaves every
    other property but [modified] alone, and checks nothing: an update with
    [width] 50, [theme] blue and [outputFormat] gif, which [validateProfile]
    turns down on all three counts, is stored and answered with status
    200, because [handleUpdateProfile] passes the body straight to
    [updateProfile]. *)
Theorem updateProfile_stores_verbatim (st : state) (id : string) (p : jsobj)
    (now : string) (updates : jsobj) :
  profiles st !! id = Some p →
  (∃ p', profiles (updateProfile now id updates st).1 !! id = Some p'
     ∧ (∀ f v, f ∈ allowedFields → updates !! f = Some v → p' !! f = Some v)
     ∧ (∀ f, f ∉ allowedFields → f ≠ "modified" → p' !! f = p !! f)
     ∧ p' !! "modified" = Some (JStr now)
     ∧ (disk_error st = None →
        (updateProfile now id updates st).2 = Returns (OwnProfile id)))
  ∧ (BadWidth ∈ validateProfile st bad_update
     ∧ BadTheme ∈ validateProfile st bad_update
     ∧ BadOutputFormat ∈ validateProfile st bad_update
     ∧ valid st bad_update = false)
  ∧ (disk_error st = None →
     let r := Server.handleUpdateProfile now id bad_update st in
     Server.status r.2 = 200
     ∧ ∃ p', profiles r.1 !! id = Some p'
         ∧ p' !! "width" = Some (JNum 50)
         ∧ p' !! "theme" = Some (JStr "blue")
         ∧ p' !! "outputFormat" = Some (JStr "gif")).
Proof.
  intros Hp.
  assert (∀ upd, profiles (updateProfile now id upd st).1
                 = <[id := <["modified" := JStr now]>
                             (copied st upd allowedFields p)]> (profiles st))
    as Hprof.
  { intros upd. rewrite (updateProfile_own _ _ _ _ _ Hp).
    pose proof (saveProfiles_profiles
      (with_profiles (insert id (<["modified" := JStr now]>
                                   (copied st upd allowedFields p))) st)) as H.
    destruct (saveProfiles _) as [? [[]|?]]; exact H. }
  assert (∀ upd f v, f ∈ allowedFields → upd !! f = Some v →
            (<["modified" := JStr now]> (copied st upd allowedFields p)) !! f
            = Some v) as Hcopy.
  { intros upd f v Hf Hv.
    assert (f ≠ "modified") as Hne.
    { intros ->. unfold allowedFields in Hf.
      repeat (apply elem_of_cons in Hf as [Hf|Hf]; [discriminate|]).
      by apply elem_of_nil in Hf. }
    rewrite lookup_insert_ne by done. rewrite copied_lookup.
    rewrite bool_decide_eq_true_2 by done.
    unfold has, get. rewrite Hv. simpl. done. }
  assert (∀ upd, disk_error st = None →
            (updateProfile now id upd st).2 = Returns (OwnProfile id)) as Hret.
  { intros upd Hd. rewrite (updateProfile_own _ _ _ _ _ Hp).
    by rewrite saveProfiles_written. }
  split; [|split].
  - eexists. rewrite Hprof, lookup_insert_eq. split; [done|].
    split; [apply Hcopy|]. split; [|split; [by rewrite lookup_insert_eq|apply Hret]].
    intros f Hf Hne. rewrite lookup_insert_ne by done.
    rewrite copied_lookup. by rewrite bool_decide_eq_false_2.
  - assert (∀ k v, bad_update !! k = Some v → get st bad_update k = v) as Hget.
    { intros k v Hk. unfold get. by rewrite Hk. }
    assert (validateProfile st bad_update
            = (if negb (Js.truthy (get st bad_update "url"))
                  || negb (String.eqb (Js.typeof (get st bad_update "url")) "string")
               then [BadUrl] else [])
              ++ (if negb (Js.truthy (get st bad_update "name"))
                     || negb (String.eqb (Js.typeof (get st bad_update "name")) "string")
                  then [BadName] else [])
              ++ [BadWidth]
              ++ (if Js.truthy (get st bad_update "height")
                     && not_number_within (get st bad_update "height") 100 4000
                  then [BadHeight] else [])
              ++ [BadTheme]
              ++ (if Js.truthy (get st bad_update "refreshInterval")
                     && (negb (String.eqb (Js.typeof (get st bad_update "refreshInterval")) "number")
                         || match get st bad_update "refreshInterval" with
                            | JNum n => n <? 0 | _ => false end)
                  then [BadRefreshInterval] else [])
              ++ [BadOutputFormat]) as Hv.
    { unfold validateProfile.
      rewrite (Hget "width" (JNum 50)), (Hget "theme" (JStr "blue")),
        (Hget "outputFormat" (JStr "gif")) by reflexivity.
      reflexivity. }
    split; [|split; [|split]].
    + rewrite Hv, !elem_of_app. do 2 right. left. apply list_elem_of_here.
    + rewrite Hv, !elem_of_app. do 4 right. left. apply list_elem_of_here.
    + rewrite Hv, !elem_of_app. do 6 right. apply list_elem_of_here.
    + unfold valid. apply bool_decide_eq_false. rewrite Hv.
      intros H. apply (f_equal length) in H. rewrite !length_app in H.
      simpl in H. lia.
  - intros Hd r. subst r. unfold Server.handleUpdateProfile, getProfile, lookup.
    rewrite Hp. cbn [target_truthy].
    pose proof (Hret bad_update Hd) as H2. pose proof (Hprof bad_update) as H1.
    destruct (updateProfile now id bad_update st) as [st' c].
    cbn [fst snd] in *. subst c. cbn [fst snd Server.status].
    split; [done|].
    eexists. rewrite H1, lookup_insert_eq. split; [done|].
    split; [|split]; apply Hcopy; try reflexivity; unfold allowedFields;
      repeat first [apply list_elem_of_here | apply list_elem_of_further].
Qed.

End Updates.

(** ** The scheduler predicate *)

Section SchedulerPredicate.
Import Profiles.
Variable StringToNumber : string → option Z.
Variable Date_parse : string → option Z.

Lemma due_spec st now profile :
  due StringToNumber Date_parse st now profile = true
  ↔ Js.truthy (get st profile "enabled") = true
    ∧ ∃ interval last,
        Js.to_number StringToNumber (get st profile "refreshInterval")
          = Some interval
        ∧ 0 < interval
        ∧ lastRun_ms Date_parse st profile = Some last
        ∧ last + interval * 1000 ≤ now.
Proof.
  unfold due, lastRun_ms, Js.le_num.
  destruct (Js.truthy (get st profile "enabled")); simpl;
    [|split; [done|by intros [? _]]].
  destruct (Js.to_number StringToNumber (get st profile "refreshInterval"))
    as [r|]; simpl.
  - destruct (r <=? 0) eqn:Hr.
    + apply Z.leb_le in Hr. split; [done|].
      intros (_ & r' & l & ? & ? & _). simplify_eq. lia.
    + apply Z.leb_gt in Hr.
      destruct (if Js.truthy (get st profile "lastRun") then _ else _) as [l|].
      * rewrite Z.leb_le. split.
        -- intros H. split; [done|]. exists r, l. repeat split; done || lia.
        -- intros (_ & r' & l' & ? & ? & ? & ?). simplify_eq. lia.
      * split; [done|]. intros (_ & r' & l' & ? & ? & ? & _). done.
  - split; [|intros (_ & r' & l' & ? & _); done].
    by destruct (if Js.truthy (get st profile "lastRun") then _ else _).
Qed.

(** C6 (as amended).  [getProfilesToCapture] selects exactly the profiles
    of the store that are enabled, whose [refreshInterval] is above zero,
    and for which the clock has reached [lastRun] plus the interval
    (seconds turned into milliseconds), a profile that has not run
    counting from the epoch.  With an interval of 60 a profile that ran 90
    seconds ago is selected and one that ran 30 seconds ago is not; one
    that has never run is selected exactly when the clock, in milliseconds
    since the epoch, has reached the interval. *)
Theorem getProfilesToCapture_selects_due (st : state) (now : Z) :
  (∀ profile,
     profile ∈ getProfilesToCapture StringToNumber Date_parse st now
     ↔ (∃ id, profiles st !! id = Some profile)
       ∧ Js.truthy (get st profile "enabled") = true
       ∧ ∃ interval last,
           Js.to_number StringToNumber (get st profile "refreshInterval")
             = Some interval
           ∧ 0 < interval
           ∧ lastRun_ms Date_parse st profile = Some last
           ∧ last + interval * 1000 ≤ now)
  ∧ (∀ id profile ran last,
       profiles st !! id = Some profile →
       get st profile "enabled" = JBool true →
       get st profile "refreshInterval" = JNum 60 →
       get st profile "lastRun" = JStr ran →
       ran ≠ "" →
       Date_parse ran = Some last →
       (now = last + 90 * 1000 →
        profile ∈ getProfilesToCapture StringToNumber Date_parse st now)
       ∧ (now = last + 30 * 1000 →
          profile ∉ getProfilesToCapture StringToNumber Date_parse st now))
  ∧ (∀ id profile interval,
       profiles st !! id = Some profile →
       get st profile "enabled" = JBool true →
       get st profile "refreshInterval" = JNum interval →
       get st profile "lastRun" = JNull →
       (profile ∈ getProfilesToCapture StringToNumber Date_parse st now
        ↔ 0 < interval ∧ interval * 1000 ≤ now)).
Proof.
  assert (∀ profile,
     profile ∈ getProfilesToCapture StringToNumber Date_parse st now
     ↔ (∃ id, profiles st !! id = Some profile)
       ∧ due StringToNumber Date_parse st now profile = true) as Hmem.
  { intros profile. unfold getProfilesToCapture.
    rewrite list_elem_of_filter, list_elem_of_fmap. split.
    - intros [Hd ([id p] & -> & Hin)]. split; [|done].
      exists id. by apply elem_of_map_to_list.
    - intros [[id Hid] Hd]. split; [done|].
      exists (id, profile). split; [done|]. by apply elem_of_map_to_list. }
  split; [|split].
  - intros profile. rewrite Hmem, due_spec. done.
  - intros id profile ran last Hid Hen Hint Hrun Hne Hparse.
    assert (lastRun_ms Date_parse st profile = Some last) as Hl.
    { unfold lastRun_ms. rewrite Hrun. simpl.
      apply String.eqb_neq in Hne. by rewrite Hne. }
    split.
    + intros ->. apply Hmem. split; [by exists id|]. apply due_spec.
      rewrite Hen, Hint. split; [done|]. exists 60, last.
      repeat split; done || lia.
    + intros -> Hin. apply Hmem in Hin as [_ Hd]. apply due_spec in Hd.
      destruct Hd as (_ & r & l & Hr & _ & Hl' & Hle).
      rewrite Hint in Hr. simpl in Hr. simplify_eq. lia.
  - intros id profile interval Hid Hen Hint Hrun.
    assert (lastRun_ms Date_parse st profile = Some 0) as Hl.
    { unfold lastRun_ms. by rewrite Hrun. }
    rewrite Hmem, due_spec, Hen, Hint, Hl. split.
    + intros (_ & _ & r & l & Hr & Hpos & Hl' & Hle).
      simpl in Hr. simplify_eq. lia.
    + intros [Hpos Hnow]. split; [by exists id|]. split; [done|].
      exists interval, 0. repeat split; done || lia.
Qed.

End SchedulerPredicate.

(** The kitchen profile as created, and after its first recorded run. *)
Lemma createProfile_profiles st id now config :
  Profiles.profiles (Profiles.createProfile id now config st).1
  = <[id := Profiles.new_profile st id now config]> (Profiles.profiles st).
Proof.
  unfold Profiles.createProfile, Profiles.bind, Profiles.current,
    Profiles.modify, Profiles.ret.
  pose proof (saveProfiles_profiles
                (Profiles.with_profiles
                   (insert id (Profiles.new_profile st id now config)) st)) as H.
  destruct (Profiles.saveProfiles _) as [st' [[]|e]]; exact H.
Qed.

Lemma kitchen_store_profile :
  Profiles.profiles kitchen_store !! kitchen_id
  = Some (Profiles.new_profile empty_store kitchen_id
            "2025-11-23T23:00:00.000Z" kitchen_config).
Proof.
  unfold kitchen_store. rewrite createProfile_profiles. apply lookup_insert_eq.
Qed.

Lemma kitchen_ran_profile :
  Profiles.profiles kitchen_ran !! kitchen_id
  = Some (recorded kitchen_store ran_at "2025-11-23T23:00:00.001Z" true
            (Profiles.new_profile empty_store kitchen_id
               "2025-11-23T23:00:00.000Z" kitchen_config)).
Proof.
  unfold kitchen_ran.
  rewrite (recordCapture_profiles _ _ _ _ _ _ kitchen_store_profile).
  apply lookup_insert_eq.
Qed.

Lemma archive_store_profile :
  Profiles.profiles archive_store !! archive_id
  = Some (Profiles.new_profile empty_store archive_id
            "2025-11-23T23:00:00.000Z" archive_config).
Proof.
  unfold archive_store. rewrite createProfile_profiles. apply lookup_insert_eq.
Qed.

(** C6 (as stated) fails: a profile that has never run is not always due.
    The kitchen profile, enabled and with an interval of 60 seconds, is
    left out while the clock reads less than 60 000 ms; and a profile
    whose interval of 2 000 000 000 seconds [validateProfile] accepts is
    left out at the clock of 23 November 2025. *)
Lemma never_run_profile_is_not_always_due :
  ∃ kitchen archive,
    Profiles.profiles kitchen_store !! kitchen_id = Some kitchen
    ∧ Profiles.get kitchen_store kitchen "enabled" = JBool true
    ∧ Profiles.get kitchen_store kitchen "refreshInterval" = JNum 60
    ∧ Profiles.get kitchen_store kitchen "lastRun" = JNull
    ∧ (kitchen ∉ Profiles.getProfilesToCapture no_numeric_strings parse_known
                   kitchen_store 59999)
    ∧ Profiles.valid empty_store archive_config = true
    ∧ Profiles.profiles archive_store !! archive_id = Some archive
    ∧ Profiles.get archive_store archive "enabled" = JBool true
    ∧ Profiles.get archive_store archive "refreshInterval" = JNum 2000000000
    ∧ Profiles.get archive_store archive "lastRun" = JNull
    ∧ archive ∉ Profiles.getProfilesToCapture no_numeric_strings parse_known
                  archive_store clock_2025.
Proof.
  do 2 eexists.
  split; [exact kitchen_store_profile|].
  split; [by vm_compute|]. split; [by vm_compute|]. split; [by vm_compute|].
  split.
  { unfold Profiles.getProfilesToCapture. rewrite list_elem_of_filter.
    intros [Hd _]. vm_compute in Hd. discriminate. }
  split; [by vm_compute|].
  split; [exact archive_store_profile|].
  split; [by vm_compute|]. split; [by vm_compute|]. split; [by vm_compute|].
  unfold Profiles.getProfilesToCapture. rewrite list_elem_of_filter.
  intros [Hd _]. vm_compute in Hd. discriminate.
Qed.

Lemma getProfilesToCapture_selects_due_witness :
  ∃ profile,
    Profiles.profiles kitchen_ran !! kitchen_id = Some profile
    ∧ profile ∈ Profiles.getProfilesToCapture no_numeric_strings parse_known
                  kitchen_ran (ran_at_ms + 90 * 1000)
    ∧ profile ∉ Profiles.getProfilesToCapture no_numeric_strings parse_known
                  kitchen_ran (ran_at_ms + 30 * 1000).
Proof.
  eexists. split; [exact kitchen_ran_profile|].
  set (profile := recorded _ _ _ _ _).
  assert (Profiles.get kitchen_ran profile "enabled" = JBool true) as Hen
    by (vm_compute; reflexivity).
  assert (Profiles.get kitchen_ran profile "refreshInterval" = JNum 60) as Hint
    by (vm_compute; reflexivity).
  assert (Profiles.get kitchen_ran profile "lastRun" = JStr ran_at) as Hrun
    by (vm_compute; reflexivity).
  assert (ran_at ≠ "") as Hne by discriminate.
  assert (parse_known ran_at = Some ran_at_ms) as Hparse by reflexivity.
  split.
  - destruct (getProfilesToCapture_selects_due no_numeric_strings parse_known
                kitchen_ran (ran_at_ms + 90 * 1000)) as (_ & H & _).
    by apply (H kitchen_id profile ran_at ran_at_ms
                kitchen_ran_profile Hen Hint Hrun Hne Hparse).
  - destruct (getProfilesToCapture_selects_due no_numeric_strings parse_known
                kitchen_ran (ran_at_ms + 30 * 1000)) as (_ & H & _).
    by apply (H kitchen_id profile ran_at ran_at_ms
                kitchen_ran_profile Hen Hint Hrun Hne Hparse).
Defined.

Lemma recordCapture_history_witness :
  ∃ p,
    Profiles.profiles kitchen_store !! kitchen_id = Some p
    ∧ let st1 := (Profiles.recordCapture "a1" "b1" kitchen_id false kitchen_store).1 in
      let st2 := (Profiles.recordCapture "a2" "b2" kitchen_id false st1).1 in
      let st3 := (Profiles.recordCapture "a3" "b3" kitchen_id false st2).1 in
      let st4 := (Profiles.recordCapture "a4" "b4" kitchen_id true st3).1 in
      ∃ p4, Profiles.profiles st4 !! kitchen_id = Some p4
        ∧ p4 !! "failureCount" = Some (JNum 0)
        ∧ p4 !! "lastSuccess" = Some (JStr "b4")
        ∧ p4 !! "lastRun" = Some (JStr "a4").
Proof.
  eexists. split; [exact kitchen_store_profile|].
  destruct (recordCapture_history kitchen_store kitchen_id _
              kitchen_store_profile) as [_ H].
  exact (H "a1" "b1" "a2" "b2" "a3" "b3" "a4" "b4").
Defined.

Lemma updateProfile_stores_verbatim_witness :
  ∃ p,
    Profiles.profiles kitchen_store !! kitchen_id = Some p
    ∧ Profiles.disk_error kitchen_store = None
    ∧ let r := Server.handleUpdateProfile "2025-11-24T08:00:00.000Z"
                 kitchen_id bad_update kitchen_store in
      Server.status r.2 = 200
      ∧ ∃ p', Profiles.profiles r.1 !! kitchen_id = Some p'
          ∧ p' !! "width" = Some (JNum 50)
          ∧ p' !! "theme" = Some (JStr "blue")
          ∧ p' !! "outputFormat" = Some (JStr "gif").
Proof.
  eexists. split; [exact kitchen_store_profile|].
  assert (Profiles.disk_error kitchen_store = None) as Hd by reflexivity.
  split; [exact Hd|].
  destruct (updateProfile_stores_verbatim kitchen_store kitchen_id _
              "2025-11-24T08:00:00.000Z" bad_update kitchen_store_profile)
    as (_ & _ & H).
  exact (H Hd).
Defined.

(** ** The format converter *)

Section Converter.
Import Sharp.

Lemma threshold_two_levels level img :
  Forall (λ v, v = 0 ∨ v = 255) (threshold level img).
Proof.
  unfold threshold. apply Forall_fmap, Forall_forall. intros v _. simpl.
  destruct (level <=? v); auto.
Qed.

Lemma threshold_dark level n v :
  v < level → threshold level (replicate n v) = replicate n 0.
Proof.
  intros H. unfold threshold. rewrite fmap_replicate.
  apply Z.leb_gt in H. by rewrite H.
Qed.

(** C8.  At bit depth 1 the image is made grey and then cut at 128 before
    anything else happens to it: the encoder that was asked to dither
    receives samples that are all 0 or 255, and a flat grey of level 100
    reaches it as flat black, with no grey left to diffuse.  At bit depth 2
    the grey image goes to the encoder as it is, with four colours. *)
Theorem one_bit_is_cut_before_dithering (C : codec) (png : bytes)
    (grey : list Z) :
  decode_greyscale C png = Returns grey →
  convertToBMP3 C png 1
    = Returns (encode_png_palette C 2 1 (threshold 128 grey))
  ∧ Forall (λ v, v = 0 ∨ v = 255) (threshold 128 grey)
  ∧ (∀ n, grey = replicate n 100 →
       convertToBMP3 C png 1
       = Returns (encode_png_palette C 2 1 (replicate n 0)))
  ∧ convertToBMP3 C png 2 = Returns (encode_png_palette C 4 1 grey).
Proof.
  intros H. unfold convertToBMP3. rewrite H. simpl.
  split; [done|]. split; [apply threshold_two_levels|]. split; [|done].
  intros n ->. by rewrite threshold_dark.
Qed.

Lemma one_bit_is_cut_before_dithering_witness :
  decode_greyscale sample_codec flat_grey = Returns (replicate 4 100)
  ∧ convertToBMP3 sample_codec flat_grey 1
    = Returns (encode_png_palette sample_codec 2 1 (replicate 4 0)).
Proof.
  assert (decode_greyscale sample_codec flat_grey = Returns (replicate 4 100))
    as H by reflexivity.
  split; [exact H|].
  destruct (one_bit_is_cut_before_dithering sample_codec flat_grey _ H)
    as (_ & _ & Hflat & _).
  exact (Hflat 4%nat eq_refl).
Defined.

(** [captureScreenshot] asks for bit depth 1 whenever the format is [bmp3]
    or [bmp]: the stored file of a flat grey capture is flat black. *)
Example bmp3_capture_of_flat_grey :
  let W := {| Capture.rejects := Capture.rejects calm;
              Capture.raster := λ _, flat_grey;
              Capture.sharp := sample_codec;
              Capture.iso_at_save := Capture.iso_at_save calm;
              Capture.iso_at_return := Capture.iso_at_return calm;
              Capture.random_hex := Capture.random_hex calm;
              Capture.ms_at_save := Capture.ms_at_save calm;
              Capture.write_fails := Capture.write_fails calm |} in
  Fs.lookup "/data/screenshots/screenshot-2025-11-23T23-11-14-224Z-0fdd4984.bmp"
    (Capture.fs (Capture.svc (alone W ready (dashboard (JStr "bmp3")))))
  = Some {| Fs.kind := Fs.RegularFile ["000"; "000"; "000"; "000"]%byte;
            Fs.mtime := 1763939474224 |}.
Proof. reflexivity. Qed.

End Converter.

(** ** The retention sweep *)

Section RetentionSweep.
Import Retention.

Lemma lookup_elem fs p n :
  well_formed fs → (p, n) ∈ fs → Fs.lookup p fs = Some n.
Proof.
  unfold well_formed. induction fs as [|[q m] fs IH]; intros Hnd Hin.
  - by apply elem_of_nil in Hin.
  - rewrite fmap_cons in Hnd. apply NoDup_cons in Hnd as [Hq Hnd].
    apply elem_of_cons in Hin as [Heq|Hin]; simpl.
    + simplify_eq. by rewrite String.eqb_refl.
    + destruct (String.eqb q p) eqn:Hqp; [|by apply IH].
      apply String.eqb_eq in Hqp as ->. exfalso. apply Hq.
      apply list_elem_of_fmap. by exists (p, n).
Qed.

Lemma lookup_remove_ne p q fs :
  q ≠ p → Fs.lookup q (Fs.remove p fs) = Fs.lookup q fs.
Proof.
  intros Hne. unfold Fs.remove. induction fs as [|[r m] fs IH]; [done|].
  rewrite filter_cons. cbn [fst]. simpl.
  destruct (String.eqb r q) eqn:Hrq.
  - apply String.eqb_eq in Hrq as ->. rewrite decide_True by done.
    simpl. by rewrite String.eqb_refl.
  - destruct (decide (r ≠ p)); [simpl; by rewrite Hrq|done].
Qed.

Lemma unlinkSync_regular p fs :
  is_regular (Fs.lookup p fs) = true →
  Fs.unlinkSync p fs = (Fs.remove p fs, Returns tt).
Proof.
  unfold Fs.unlinkSync, is_regular.
  by destruct (Fs.lookup p fs) as [[[] ?]|].
Qed.

Lemma unlinkSync_fails p fs :
  is_regular (Fs.lookup p fs) = false →
  ∃ e, Fs.unlinkSync p fs = (fs, Throws e).
Proof.
  unfold Fs.unlinkSync, is_regular.
  destruct (Fs.lookup p fs) as [[[] ?]|]; [done|by eexists..].
Qed.

Lemma is_child_join root p :
  Fs.is_child root p = true → Path.join root (Fs.basename p) = p.
Proof.
  unfold Fs.is_child. rewrite !andb_true_iff. intros (_ & H).
  by apply String.eqb_eq.
Qed.

Lemma screenshot_names root fs :
  filter (λ f, is_screenshot f = true) (Fs.readdirSync root fs)
  = (λ e, Fs.basename e.1) <$> candidates root fs.
Proof.
  unfold Fs.readdirSync, candidates, candidate.
  induction fs as [|[p n] fs IH]; [done|].
  rewrite filter_cons. cbn [omap list_omap fst].
  destruct (Fs.is_child root p); cbn [andb].
  - rewrite filter_cons.
    destruct (decide (is_screenshot (Fs.basename p) = true));
      [rewrite fmap_cons; by f_equal | done].
  - rewrite decide_False by done. done.
Qed.

Lemma stat_files_listed root fs es :
  well_formed fs →
  (∀ e, e ∈ es → e ∈ fs ∧ Fs.is_child root e.1 = true) →
  stat_files root ((λ e, Fs.basename e.1) <$> es) fs = Returns (info <$> es).
Proof.
  intros Hwf. induction es as [|[p n] es IH]; intros Hes; [done|].
  rewrite !fmap_cons. cbn [stat_files fst].
  destruct (Hes (p, n)) as [Hin Hchild]; [apply list_elem_of_here|].
  cbn [fst] in Hchild. rewrite (is_child_join _ _ Hchild). unfold Fs.statSync.
  rewrite (lookup_elem _ _ _ Hwf Hin).
  rewrite IH; [done|]. intros e He. apply Hes. by apply list_elem_of_further.
Qed.

(** With distinct paths no [statSync] fails, and the sweep runs over the
    candidates, newest first. *)
Lemma cleanup_unfold root now maxAgeHours maxCount fs :
  well_formed fs →
  cleanupOldScreenshots root now maxAgeHours maxCount fs
  = sweep now (maxAgeHours * 60 * 60 * 1000) maxCount 0
      (sort_newest_first (info <$> candidates root fs)) fs 0.
Proof.
  intros Hwf. unfold cleanupOldScreenshots.
  rewrite screenshot_names, (stat_files_listed _ _ _ Hwf); [done|].
  intros e He. unfold candidates in He.
  apply list_elem_of_filter in He as [Hc He]. split; [done|].
  unfold candidate in Hc. by apply andb_true_iff in Hc as [? _].
Qed.

(** *** The sort *)

Lemma insert_perm x l : insert_newest_first x l ≡ₚ x :: l.
Proof.
  induction l as [|y l IH]; simpl; [done|].
  destruct (modified x <? modified y); [|done].
  rewrite IH. apply Permutation_swap.
Qed.

Lemma sort_perm l : sort_newest_first l ≡ₚ l.
Proof.
  induction l as [|x l IH]; simpl; [done|].
  by rewrite insert_perm, IH.
Qed.

Lemma insert_head x l :
  Forall (λ z, modified z ≤ modified x) l → insert_newest_first x l = x :: l.
Proof.
  destruct l as [|y l]; simpl; [done|]. intros H.
  apply Forall_cons in H as [Hy _].
  apply Z.ltb_ge in Hy. by rewrite Hy.
Qed.

Lemma insert_sorted x l :
  StronglySorted newer_first l →
  StronglySorted newer_first (insert_newest_first x l).
Proof.
  induction l as [|y l IH]; simpl; intros Hs.
  - by repeat constructor.
  - apply StronglySorted_inv in Hs as [Hl Hy].
    destruct (modified x <? modified y) eqn:Hxy.
    + apply Z.ltb_lt in Hxy. constructor; [by apply IH|].
      rewrite insert_perm. constructor; [unfold newer_first; lia|done].
    + apply Z.ltb_ge in Hxy. constructor; [by constructor|].
      constructor; [done|].
      eapply Forall_impl; [exact Hy|]. unfold newer_first. intros; lia.
Qed.

Lemma sort_sorted l : StronglySorted newer_first (sort_newest_first l).
Proof.
  induction l as [|x l IH]; simpl; [constructor|by apply insert_sorted].
Qed.

(** The sort is stable, so dropping files before or after it is the same. *)
Lemma filter_insert (P : file → Prop) `{∀ f, Decision (P f)} x l :
  StronglySorted newer_first l →
  filter P (insert_newest_first x l)
  = if decide (P x) then insert_newest_first x (filter P l) else filter P l.
Proof.
  induction l as [|y l IH]; intros Hs.
  - simpl. rewrite filter_cons, filter_nil. by destruct (decide (P x)).
  - apply StronglySorted_inv in Hs as [Hl Hy]. simpl.
    destruct (modified x <? modified y) eqn:Hxy.
    + rewrite !filter_cons, (IH Hl).
      destruct (decide (P y)), (decide (P x)); simpl; try done.
      by rewrite Hxy.
    + rewrite filter_cons. destruct (decide (P x)); [|done].
      rewrite insert_head; [done|].
      apply Z.ltb_ge in Hxy.
      apply Forall_forall. intros z Hz.
      apply list_elem_of_filter in Hz as [_ Hz].
      apply elem_of_cons in Hz as [->|Hz]; [done|].
      rewrite Forall_forall in Hy. specialize (Hy z Hz).
      unfold newer_first in Hy. lia.
Qed.

Lemma filter_sort (P : file → Prop) `{∀ f, Decision (P f)} l :
  filter P (sort_newest_first l) = sort_newest_first (filter P l).
Proof.
  induction l as [|x l IH]; [done|].
  simpl. rewrite filter_insert by apply sort_sorted.
  rewrite filter_cons. destruct (decide (P x)); simpl; by rewrite IH.
Qed.

Lemma filter_lookup_index {A} (P : A → Prop) `{∀ x, Decision (P x)}
    (l : list A) (j : nat) (x : A) :
  filter P l !! j = Some x → ∃ i, (j ≤ i)%nat ∧ l !! i = Some x.
Proof.
  revert j. induction l as [|y l IH]; intros j; [done|].
  rewrite filter_cons. destruct (decide (P y)).
  - destruct j as [|j]; simpl.
    + intros [= ->]. exists 0%nat. split; [lia|done].
    + intros Hj. destruct (IH _ Hj) as (i & Hi & Hl).
      exists (S i). split; [lia|done].
  - intros Hj. destruct (IH _ Hj) as (i & Hi & Hl).
    exists (S i). split; [lia|done].
Qed.

(** *** The files one sweep unlinks *)

Lemma without_nil fs : without [] fs = fs.
Proof.
  unfold without. induction fs as [|e fs IH]; [done|].
  rewrite filter_cons, decide_True by apply not_elem_of_nil. by rewrite IH.
Qed.

Lemma without_remove p ps fs :
  without ps (Fs.remove p fs) = without (p :: ps) fs.
Proof.
  unfold without, Fs.remove. induction fs as [|[q n] fs IH]; [done|].
  rewrite !filter_cons. cbn [fst].
  destruct (decide (q ≠ p)) as [Hne|Heq].
  - rewrite filter_cons. cbn [fst].
    destruct (decide (q ∉ ps)) as [Hq|Hq].
    + rewrite decide_True by (by apply not_elem_of_cons). by rewrite IH.
    + rewrite decide_False; [done|].
      rewrite not_elem_of_cons. intros [_ ?]. done.
  - rewrite decide_False; [done|].
    apply dec_stable in Heq as ->. rewrite not_elem_of_cons. by intros [? _].
Qed.

Lemma lookup_without q ps fs :
  q ∉ ps → Fs.lookup q (without ps fs) = Fs.lookup q fs.
Proof.
  intros Hq. unfold without. induction fs as [|[r m] fs IH]; [done|].
  rewrite filter_cons. cbn [fst]. simpl.
  destruct (String.eqb r q) eqn:Hrq.
  - apply String.eqb_eq in Hrq as ->. rewrite decide_True by done.
    simpl. by rewrite String.eqb_refl.
  - destruct (decide (r ∉ ps)); [simpl; by rewrite Hrq|done].
Qed.

Lemma victims_ext now age count i files fs1 fs2 :
  (∀ f, f ∈ files → Fs.lookup (path f) fs1 = Fs.lookup (path f) fs2) →
  victims now age count i files fs1 = victims now age count i files fs2.
Proof.
  revert i. induction files as [|f rest IH]; intros i Hl; [done|].
  simpl. rewrite (Hl f) by apply list_elem_of_here.
  rewrite (IH (i + 1)); [done|].
  intros g Hg. apply Hl. by apply list_elem_of_further.
Qed.

Lemma sweep_spec now age count files :
  ∀ i fs deleted,
    NoDup (path <$> files) →
    sweep now age count i files fs deleted
    = (without (victims now age count i files fs) fs,
       deleted + Z.of_nat (length (victims now age count i files fs))).
Proof.
  induction files as [|f rest IH]; intros i fs deleted Hnd.
  - simpl. rewrite without_nil. f_equal. lia.
  - rewrite fmap_cons in Hnd. apply NoDup_cons in Hnd as [Hf Hnd].
    cbn [sweep victims].
    destruct (expired now age count i f); cbn [andb]; [|by apply IH].
    destruct (is_regular (Fs.lookup (path f) fs)) eqn:Hreg.
    + rewrite (unlinkSync_regular _ _ Hreg), (IH _ _ _ Hnd).
      assert (victims now age count (i + 1) rest (Fs.remove (path f) fs)
              = victims now age count (i + 1) rest fs) as ->.
      { apply victims_ext. intros g Hg. apply lookup_remove_ne.
        intros Heq. apply Hf. rewrite <- Heq. by apply list_elem_of_fmap_2. }
      rewrite without_remove. f_equal. simpl length. lia.
    + destruct (unlinkSync_fails _ _ Hreg) as [e ->]. by apply IH.
Qed.

Lemma victim_of now age count files fs :
  ∀ i k f,
    files !! k = Some f →
    expired now age count (i + Z.of_nat k) f = true →
    is_regular (Fs.lookup (path f) fs) = true →
    path f ∈ victims now age count i files fs.
Proof.
  induction files as [|g rest IH]; intros i k f Hk Hexp Hreg; [done|].
  destruct k as [|k]; simpl in *.
  - simplify_eq. rewrite Z.add_0_r in Hexp. rewrite Hexp, Hreg. simpl.
    apply list_elem_of_here.
  - assert (path f ∈ victims now age count (i + 1) rest fs) as Hin.
    { apply (IH _ k); [done| |done].
      replace (i + 1 + Z.of_nat k) with (i + Z.pos (Pos.of_succ_nat k)) by lia.
      done. }
    destruct (_ && _); [by apply list_elem_of_further|done].
Qed.

Lemma victims_none now age count files fs :
  ∀ i,
    (∀ k f, files !! k = Some f →
            expired now age count (i + Z.of_nat k) f
            && is_regular (Fs.lookup (path f) fs) = false) →
    victims now age count i files fs = [].
Proof.
  induction files as [|g rest IH]; intros i H; [done|].
  simpl. pose proof (H 0%nat g eq_refl) as Hg. rewrite Z.add_0_r in Hg.
  rewrite Hg. apply IH. intros k f Hk.
  replace (i + 1 + Z.of_nat k) with (i + Z.of_nat (S k)) by lia.
  by apply H.
Qed.

(** *** Two sweeps in a row *)

Lemma NoDup_fst_filter (P : string * Fs.node → Prop)
    `{∀ e, Decision (P e)} (fs : Fs.t) :
  NoDup fs.*1 → NoDup (filter P fs).*1.
Proof.
  induction fs as [|[q n] fs IH]; [done|].
  rewrite fmap_cons, NoDup_cons. intros [Hq Hnd].
  rewrite filter_cons. destruct (decide _) as [Hc|Hc]; [|by apply IH].
  rewrite fmap_cons, NoDup_cons. split; [|by apply IH].
  intros Hin. apply Hq. apply list_elem_of_fmap in Hin as (e & -> & He).
  apply list_elem_of_filter in He as [_ He]. by apply list_elem_of_fmap_2.
Qed.

Lemma well_formed_without ps fs : well_formed fs → well_formed (without ps fs).
Proof. apply NoDup_fst_filter. Qed.

Lemma candidates_without root ps fs :
  candidates root (without ps fs) = without ps (candidates root fs).
Proof.
  unfold candidates, without. induction fs as [|x fs IH]; [done|].
  rewrite !filter_cons.
  destruct (decide (x.1 ∉ ps)) as [H1|H1],
    (decide (candidate root x.1 = true)) as [H2|H2];
    rewrite ?filter_cons, ?decide_True, ?decide_False by done;
    by rewrite IH.
Qed.

Lemma info_without ps es :
  info <$> without ps es = filter (λ f, path f ∉ ps) (info <$> es).
Proof.
  unfold without. induction es as [|x es IH]; [done|].
  rewrite fmap_cons, !filter_cons. cbn [info path].
  destruct (decide (x.1 ∉ ps)) as [H1|H1]; [rewrite fmap_cons|]; by rewrite IH.
Qed.

Lemma listed_without root ps fs :
  listed root (without ps fs) = filter (λ f, path f ∉ ps) (listed root fs).
Proof.
  unfold listed. by rewrite candidates_without, info_without, filter_sort.
Qed.

Lemma listed_elem root fs f :
  f ∈ listed root fs ↔ ∃ e, e ∈ fs ∧ candidate root e.1 = true ∧ f = info e.
Proof.
  unfold listed, candidates. rewrite sort_perm, list_elem_of_fmap.
  split.
  - intros (e & -> & He). apply list_elem_of_filter in He as [? ?]. eauto.
  - intros (e & He & Hc & ->). exists e. split; [done|].
    by apply list_elem_of_filter.
Qed.

Lemma listed_NoDup root fs : well_formed fs → NoDup (path <$> listed root fs).
Proof.
  unfold well_formed, listed. intros Hwf. rewrite sort_perm.
  rewrite <- list_fmap_compose.
  by apply (NoDup_fst_filter (λ e, candidate root e.1 = true)).
Qed.

Lemma first_sweep root now maxAgeHours maxCount fs :
  well_formed fs →
  let doomed := victims now (maxAgeHours * 60 * 60 * 1000) maxCount 0
                  (listed root fs) fs in
  cleanupOldScreenshots root now maxAgeHours maxCount fs
  = (without doomed fs, Z.of_nat (length doomed)).
Proof.
  intros Hwf doomed. rewrite cleanup_unfold by done.
  fold (listed root fs). rewrite sweep_spec by (by apply listed_NoDup).
  done.
Qed.

(** A sweep over what an earlier sweep left unlinks nothing, provided no
    file that is left has passed the age limit in between. *)
Lemma second_sweep root now1 now2 maxAgeHours maxCount fs :
  well_formed fs →
  let after := (cleanupOldScreenshots root now1 maxAgeHours maxCount fs).1 in
  (∀ p n, (p, n) ∈ after → candidate root p = true →
          is_regular (Some n) = true →
          now2 - Fs.mtime n ≤ maxAgeHours * 60 * 60 * 1000) →
  cleanupOldScreenshots root now2 maxAgeHours maxCount after = (after, 0).
Proof.
  intros Hwf. rewrite (first_sweep _ _ _ _ _ Hwf). cbn [fst].
  set (age := maxAgeHours * 60 * 60 * 1000).
  set (doomed := victims now1 age maxCount 0 (listed root fs) fs).
  intros Hfresh.
  rewrite first_sweep by (by apply well_formed_without).
  fold age. rewrite listed_without.
  rewrite victims_none; [by rewrite without_nil|].
  intros k f Hk.
  destruct (is_regular (Fs.lookup (path f) (without doomed fs))) eqn:Hreg;
    [|by rewrite andb_false_r].
  rewrite andb_true_r.
  pose proof (list_elem_of_lookup_2 _ _ _ Hk) as Hin.
  apply list_elem_of_filter in Hin as [Hkeep Hin].
  destruct (filter_lookup_index _ _ _ _ Hk) as (i & Hki & Hi).
  rewrite lookup_without in Hreg by done.
  apply listed_elem in Hin as ([p n] & He & Hcand & ->).
  unfold info in Hkeep, Hreg; cbn [path fst snd] in Hkeep, Hreg, Hcand.
  rewrite (lookup_elem _ _ _ Hwf He) in Hreg.
  assert (expired now1 age maxCount (0 + Z.of_nat i) (info (p, n)) = false)
    as Hold.
  { destruct (expired now1 age maxCount (0 + Z.of_nat i) (info (p, n)))
      eqn:Hexp; [|done].
    exfalso. apply Hkeep. apply (victim_of _ _ _ _ _ 0 i (info (p, n))); try done.
    unfold info; cbn [path fst]. by rewrite (lookup_elem _ _ _ Hwf He). }
  unfold expired, info in *. cbn [modified path fst snd] in *.
  apply orb_false_iff in Hold as [Hcount Hage].
  apply orb_false_iff. split.
  - apply Z.leb_gt in Hcount. apply Z.leb_gt. lia.
  - apply Z.ltb_ge. apply (Hfresh p n); [|done..].
    unfold without. apply list_elem_of_filter. by split.
Qed.

(** Immediately after a sweep no file that is left has passed the limit. *)
Lemma survivors_fresh root now maxAgeHours maxCount fs p n :
  well_formed fs →
  (p, n) ∈ (cleanupOldScreenshots root now maxAgeHours maxCount fs).1 →
  candidate root p = true →
  is_regular (Some n) = true →
  now - Fs.mtime n ≤ maxAgeHours * 60 * 60 * 1000.
Proof.
  intros Hwf. rewrite (first_sweep _ _ _ _ _ Hwf). cbn [fst].
  set (age := maxAgeHours * 60 * 60 * 1000).
  intros Hin Hcand Hreg. unfold without in Hin.
  apply list_elem_of_filter in Hin as [Hkeep He]. cbn [fst] in Hkeep.
  assert (info (p, n) ∈ listed root fs) as Hl.
  { apply listed_elem. by exists (p, n). }
  apply list_elem_of_lookup_1 in Hl as [i Hi].
  destruct (expired now age maxCount (0 + Z.of_nat i) (info (p, n))) eqn:Hexp.
  - exfalso. apply Hkeep.
    apply (victim_of _ _ _ _ _ 0 i (info (p, n))); try done.
    unfold info; cbn [path fst]. by rewrite (lookup_elem _ _ _ Hwf He).
  - unfold expired in Hexp. apply orb_false_iff in Hexp as [_ Hage].
    apply Z.ltb_ge in Hage. done.
Qed.

(** With both limits at zero every file is expired wherever it stands. *)
Lemma emptied_no_regular root now fs p n :
  well_formed fs →
  (p, n) ∈ (cleanupOldScreenshots root now 0 0 fs).1 →
  candidate root p = true →
  is_regular (Some n) = false.
Proof.
  intros Hwf. rewrite (first_sweep _ _ _ _ _ Hwf). cbn [fst].
  intros Hin Hcand. unfold without in Hin.
  apply list_elem_of_filter in Hin as [Hkeep He]. cbn [fst] in Hkeep.
  destruct (is_regular (Some n)) eqn:Hreg; [|done].
  exfalso. apply Hkeep.
  assert (info (p, n) ∈ listed root fs) as Hl.
  { apply listed_elem. by exists (p, n). }
  apply list_elem_of_lookup_1 in Hl as [i Hi].
  apply (victim_of _ _ _ _ _ 0 i (info (p, n))); try done.
  - unfold expired. apply orb_true_iff. left. apply Z.leb_le. lia.
  - unfold info; cbn [path fst]. by rewrite (lookup_elem _ _ _ Hwf He).
Qed.

Lemma victims_all now age count files fs :
  ∀ i,
    (∀ k f, files !! k = Some f →
            expired now age count (i + Z.of_nat k) f = true) →
    victims now age count i files fs
    = path <$> filter (λ f, is_regular (Fs.lookup (path f) fs) = true) files.
Proof.
  induction files as [|g rest IH]; intros i H; [done|].
  simpl. pose proof (H 0%nat g eq_refl) as Hg. rewrite Z.add_0_r in Hg.
  rewrite Hg, filter_cons. cbn [andb].
  assert (victims now age count (i + 1) rest fs
          = path <$> filter (λ f, is_regular (Fs.lookup (path f) fs) = true) rest)
    as ->.
  { apply IH. intros k f Hk.
    replace (i + 1 + Z.of_nat k) with (i + Z.of_nat (S k)) by lia.
    by apply H. }
  destruct (is_regular (Fs.lookup (path g) fs)) eqn:Hreg.
  - by rewrite decide_True.
  - by rewrite decide_False.
Qed.

Lemma regular_count fs es :
  well_formed fs →
  (∀ e, e ∈ es → e ∈ fs) →
  length (filter (λ f, is_regular (Fs.lookup (path f) fs) = true) (info <$> es))
  = length (filter (λ e, is_regular (Some e.2) = true) es).
Proof.
  intros Hwf. induction es as [|[p n] es IH]; intros Hes; [done|].
  rewrite fmap_cons, !filter_cons.
  pose proof (lookup_elem _ _ _ Hwf (Hes _ (list_elem_of_here _ _))) as Hl.
  assert (∀ e, e ∈ es → e ∈ fs) as Hes'
    by (intros e He; apply Hes; by apply list_elem_of_further).
  destruct (decide (is_regular (Fs.lookup (path (info (p, n))) fs) = true))
    as [H1|H1];
    destruct (decide (is_regular (Some (p, n).2) = true)) as [H2|H2];
    unfold info in H1; cbn [path fst snd] in H1, H2; rewrite Hl in H1;
    try done; simpl; by rewrite IH.
Qed.

Lemma emptied_count root now fs :
  well_formed fs →
  (cleanupOldScreenshots root now 0 0 fs).2
  = Z.of_nat (length (filter (λ e, is_regular (Some e.2) = true)
                        (candidates root fs))).
Proof.
  intros Hwf. rewrite (first_sweep _ _ _ _ _ Hwf). cbn [snd]. f_equal.
  rewrite victims_all.
  - rewrite length_fmap. unfold listed.
    rewrite (Permutation_length
               (filter_Permutation _ _ _ (sort_perm (info <$> candidates root fs)))).
    apply regular_count; [done|].
    intros e He. unfold candidates in He.
    by apply list_elem_of_filter in He as [_ ?].
  - intros k f _. unfold expired. apply orb_true_iff. left.
    apply Z.leb_le. lia.
Qed.

(** C7 (as stated) fails: the same sweep, run again a minute later with no
    write in between, deletes the file that has meanwhile passed 24 hours. *)
Lemma later_sweep_deletes_more :
  cleanupOldScreenshots storage_root day_ms 24 50 shots = (shots, 0)
  ∧ cleanupOldScreenshots storage_root (day_ms + 60000) 24 50 shots
    = (Fs.remove old_shot shots, 1).
Proof. split; reflexivity. Qed.

(** C7 (as amended).  On a file system whose paths are distinct: a sweep
    with the parameters of an earlier one and no write in between deletes
    nothing and returns 0 whenever no regular file the earlier sweep left
    has passed the age limit by then, which holds at the instant of the
    earlier sweep; and a sweep with both limits 0 leaves no regular
    screenshot file, returns how many there were, and is followed by a
    sweep with the same limits that deletes nothing at whatever time. *)
Theorem retention_sweep_idempotent (root : string) (fs : Fs.t)
    (now1 now2 maxAgeHours maxCount : Z) :
  well_formed fs →
  let after := (cleanupOldScreenshots root now1 maxAgeHours maxCount fs).1 in
  let emptied := cleanupOldScreenshots root now1 0 0 fs in
  ((∀ p n, (p, n) ∈ after → candidate root p = true →
           is_regular (Some n) = true →
           now2 - Fs.mtime n ≤ maxAgeHours * 60 * 60 * 1000) →
   cleanupOldScreenshots root now2 maxAgeHours maxCount after = (after, 0))
  ∧ cleanupOldScreenshots root now1 maxAgeHours maxCount after = (after, 0)
  ∧ (∀ p n, (p, n) ∈ emptied.1 → candidate root p = true →
            is_regular (Some n) = false)
  ∧ emptied.2
    = Z.of_nat (length (filter (λ e, is_regular (Some e.2) = true)
                          (candidates root fs)))
  ∧ cleanupOldScreenshots root now2 0 0 emptied.1 = (emptied.1, 0).
Proof.
  intros Hwf after emptied.
  split; [by apply second_sweep|].
  split.
  { apply second_sweep; [done|]. intros p n. by apply survivors_fresh. }
  split; [intros p n; by apply emptied_no_regular|].
  split; [by apply emptied_count|].
  apply second_sweep; [done|]. intros p n Hin Hcand Hreg.
  by rewrite (emptied_no_regular _ _ _ _ _ Hwf Hin Hcand) in Hreg.
Qed.

Lemma shots_well_formed : well_formed shots.
Proof. unfold well_formed. by apply (bool_decide_unpack _). Qed.

Lemma retention_sweep_idempotent_witness :
  well_formed shots
  ∧ cleanupOldScreenshots storage_root (day_ms + 60000) 24 1
      (cleanupOldScreenshots storage_root (day_ms + 60000) 24 1 shots).1
    = ((cleanupOldScreenshots storage_root (day_ms + 60000) 24 1 shots).1, 0)
  ∧ (cleanupOldScreenshots storage_root (day_ms + 60000) 0 0 shots).2 = 2.
Proof.
  split; [exact shots_well_formed|].
  destruct (retention_sweep_idempotent storage_root shots (day_ms + 60000)
              (day_ms + 60000) 24 1 shots_well_formed)
    as (_ & Hagain & _ & Hcount & _).
  split; [exact Hagain|]. rewrite Hcount. reflexivity.
Defined.

End RetentionSweep.

(** * Further properties of the store, the pipeline and the profiles *)

Section Paths.

Lemma str_app_cons c (a b : string) : String c a +:+ b = String c (a +:+ b).
Proof. reflexivity. Qed.

Lemma str_app_nil_l (s : string) : "" +:+ s = s.
Proof. reflexivity. Qed.

Lemma str_app_nil_r (s : string) : s +:+ "" = s.
Proof. induction s as [|c s IH]; [done|by rewrite str_app_cons, IH]. Qed.

Lemma str_app_assoc (a b c : string) : (a +:+ b) +:+ c = a +:+ (b +:+ c).
Proof. induction a as [|x a IH]; [done|by rewrite !str_app_cons, IH]. Qed.

Lemma split_go_nonempty cur s : Path.split_go cur s ≠ [].
Proof.
  revert cur. induction s as [|c s IH]; intros cur; simpl; [done|].
  destruct (Ascii.eqb c Path.slash); [done|apply IH].
Qed.

Lemma str_concat_cons sep x l :
  l ≠ [] → String.concat sep (x :: l) = x +:+ sep +:+ String.concat sep l.
Proof. by destruct l. Qed.

(** Gluing the segments with slashes gives the path back. *)
Lemma concat_split_go cur s :
  String.concat "/" (Path.split_go cur s) = cur +:+ s.
Proof.
  revert cur. induction s as [|c s IH]; intros cur; simpl.
  - by rewrite str_app_nil_r.
  - destruct (Ascii.eqb c Path.slash) eqn:Hc.
    + apply Ascii.eqb_eq in Hc as ->.
      rewrite str_concat_cons by apply split_go_nonempty.
      by rewrite IH.
    + rewrite IH, str_app_assoc. done.
Qed.

Lemma no_slash_app a b : no_slash (a +:+ b) = no_slash a && no_slash b.
Proof.
  induction a as [|c a IH]; [done|]. rewrite str_app_cons. simpl.
  by rewrite IH, andb_assoc.
Qed.

Lemma split_go_no_slash cur s :
  no_slash cur = true → Forall (λ x, no_slash x = true) (Path.split_go cur s).
Proof.
  revert cur. induction s as [|c s IH]; intros cur Hcur; simpl.
  - by constructor.
  - destruct (Ascii.eqb c Path.slash) eqn:Hc.
    + constructor; [done|]. by apply IH.
    + apply IH. rewrite no_slash_app, Hcur. simpl. by rewrite Hc.
Qed.

Lemma split_go_app cur a b :
  Path.split_go cur (a +:+ String Path.slash b)
  = Path.split_go cur a ++ Path.split_go "" b.
Proof.
  revert cur. induction a as [|c a IH]; intros cur.
  - rewrite str_app_nil_l. simpl. done.
  - rewrite str_app_cons. simpl.
    destruct (Ascii.eqb c Path.slash); [by rewrite IH|apply IH].
Qed.

(** A clean root and its segments. *)
Lemma rooted_segments root :
  is_rooted root = true →
  ∃ seg segs, Path.split root = "" :: seg :: segs
    ∧ Forall (λ s, plain s = true) (seg :: segs)
    ∧ root = "/" +:+ String.concat "/" (seg :: segs).
Proof.
  unfold is_rooted. intros H.
  destruct (Path.split root) as [|e l] eqn:Hs; [done|].
  destruct e; [|done]. destruct l as [|seg segs]; [done|].
  exists seg, segs. split; [done|]. split.
  - apply Forall_forall. intros x Hx.
    rewrite forallb_forall in H. apply H. by apply list_elem_of_In.
  - pose proof (concat_split_go "" root) as Hc. fold (Path.split root) in Hc.
    rewrite Hs, str_app_nil_l in Hc. rewrite <- Hc. reflexivity.
Qed.

Lemma plain_push b res seg :
  plain seg = true → Path.push_segment b res seg = seg :: res.
Proof.
  unfold plain, Path.push_segment. rewrite !andb_true_iff, !negb_true_iff.
  intros (((_ & -> ) & ->) & ->). done.
Qed.

Lemma fold_plain b segs acc :
  Forall (λ s, plain s = true) segs →
  fold_left (Path.push_segment b) segs acc = rev segs ++ acc.
Proof.
  revert acc. induction segs as [|s segs IH]; intros acc Hs; [done|].
  apply Forall_cons in Hs as [Hs Hsegs]. simpl.
  rewrite plain_push by done. rewrite IH by done.
  by rewrite <- app_assoc.
Qed.


Lemma fold_no_climb b segs acc :
  ".." ∉ segs →
  fold_left (Path.push_segment b) segs acc = rev (filter kept segs) ++ acc.
Proof.
  revert acc. induction segs as [|s segs IH]; intros acc Hs; [done|].
  apply not_elem_of_cons in Hs as [Hne Hs]. simpl.
  rewrite IH by done. rewrite filter_cons.
  unfold Path.push_segment.
  destruct (String.eqb s "") eqn:H1; simpl.
  { apply String.eqb_eq in H1 as ->. rewrite decide_False; [done|].
    unfold kept. by intros [? ?]. }
  destruct (String.eqb s ".") eqn:H2; simpl.
  { apply String.eqb_eq in H2 as ->. rewrite decide_False; [done|].
    unfold kept. by intros [? ?]. }
  assert (String.eqb s ".." = false) as ->.
  { apply String.eqb_neq. congruence. }
  apply String.eqb_neq in H1, H2.
  rewrite decide_True by done. simpl. by rewrite <- app_assoc.
Qed.

Lemma str_prefix_app a b : String.prefix a (a +:+ b) = true.
Proof.
  induction a as [|c a IH]; [by destruct b|].
  rewrite str_app_cons. simpl.
  destruct (ascii_dec c c); [done|done].
Qed.

Lemma str_concat_app sep (l1 l2 : list string) :
  l1 ≠ [] → l2 ≠ [] →
  String.concat sep (l1 ++ l2)
  = String.concat sep l1 +:+ sep +:+ String.concat sep l2.
Proof.
  intros H1 H2. induction l1 as [|x l1 IH]; [done|].
  destruct l1 as [|y l1].
  - simpl. by destruct l2.
  - change ((x :: y :: l1) ++ l2) with (x :: (y :: l1) ++ l2).
    rewrite !str_concat_cons by done. rewrite IH by done.
    by rewrite !str_app_assoc.
Qed.

Lemma concat_plain_nonempty seg segs :
  plain seg = true → String.concat "/" (seg :: segs) ≠ "".
Proof.
  unfold plain. rewrite !andb_true_iff, !negb_true_iff.
  intros (((_ & Hne) & _) & _). apply String.eqb_neq in Hne.
  destruct seg; [done|]. by destruct segs.
Qed.

(** Where the normalisation of [root/f] ends up when [f] does not climb. *)
Lemma normalize_below root f :
  is_rooted root = true →
  ".." ∉ Path.split f →
  ∃ more tail,
    Path.normalize (root +:+ "/" +:+ f)
    = root +:+ (if decide (more = []) then "" else "/" +:+ String.concat "/" more)
        +:+ tail
    ∧ more = filter kept (Path.split f)
    ∧ tail = (if Path.ends_with_slash (root +:+ "/" +:+ f) then "/" else "").
Proof.
  intros Hroot Hf.
  destruct (rooted_segments _ Hroot) as (seg & segs & Hsplit & Hplain & Hr).
  exists (filter kept (Path.split f)), (if Path.ends_with_slash (root +:+ "/" +:+ f) then "/" else "").
  split; [|done].
  unfold Path.normalize.
  assert (String.eqb (root +:+ "/" +:+ f) "" = false) as ->.
  { rewrite Hr. done. }
  assert (Path.starts_with_slash (root +:+ "/" +:+ f) = true) as ->.
  { rewrite Hr. done. }
  cbn [negb]. unfold Path.normalizeString.
  assert (Path.split (root +:+ "/" +:+ f) = ("" :: seg :: segs) ++ Path.split f) as ->.
  { unfold Path.split. change ("/" +:+ f) with (String Path.slash f).
    rewrite split_go_app. fold (Path.split root). by rewrite Hsplit. }
  assert (fold_left (Path.push_segment false) ("" :: seg :: segs) []
          = rev (seg :: segs)) as Hfold.
  { change (fold_left (Path.push_segment false) ("" :: seg :: segs) [])
      with (fold_left (Path.push_segment false) (seg :: segs) []).
    rewrite fold_plain by done. by rewrite app_nil_r. }
  rewrite fold_left_app, Hfold.
  rewrite fold_no_climb by done.
  rewrite rev_app_distr, !rev_involutive.
  set (more := filter kept (Path.split f)).
  set (tail := if Path.ends_with_slash _ then "/" else "").
  destruct (decide (more = [])) as [->|Hmore].
  - rewrite app_nil_r.
    assert (String.eqb (String.concat "/" (seg :: segs)) "" = false) as ->.
    { apply String.eqb_neq. apply concat_plain_nonempty.
      by apply Forall_cons in Hplain as [? _]. }
    rewrite Hr. by rewrite !str_app_assoc.
  - rewrite str_concat_app by done.
    assert (String.eqb (String.concat "/" (seg :: segs) +:+ "/"
                          +:+ String.concat "/" more) "" = false) as ->.
    { apply String.eqb_neq. intros H.
      assert (String.concat "/" (seg :: segs) = "") as H0.
      { destruct (String.concat "/" (seg :: segs)); [done|discriminate H]. }
      revert H0. apply concat_plain_nonempty.
      by apply Forall_cons in Hplain as [? _]. }
    rewrite Hr. by rewrite !str_app_assoc.
Qed.

End Paths.

Section JoinedPaths.

Lemma rev_app_app a b acc :
  String.rev_app (a +:+ b) acc = String.rev_app b (String.rev_app a acc).
Proof.
  revert acc. induction a as [|c a IH]; intros acc; [done|].
  rewrite str_app_cons. simpl. apply IH.
Qed.

Lemma starts_rev_app b acc :
  b ≠ "" →
  Path.starts_with_slash (String.rev_app b acc)
  = Path.starts_with_slash (String.rev_app b "").
Proof.
  revert acc. induction b as [|c b IH]; intros acc Hb; [done|].
  simpl. destruct b as [|d b]; [done|].
  rewrite (IH (String c acc)), (IH (String c "")); done.
Qed.

Lemma ends_with_slash_app a b :
  b ≠ "" → Path.ends_with_slash (a +:+ b) = Path.ends_with_slash b.
Proof.
  intros Hb. unfold Path.ends_with_slash, String.rev.
  rewrite rev_app_app. by apply starts_rev_app.
Qed.

Lemma no_slash_rev f acc :
  no_slash f = true → Path.starts_with_slash acc = false →
  Path.starts_with_slash (String.rev_app f acc) = false.
Proof.
  revert acc. induction f as [|c f IH]; intros acc Hf Hacc; [done|].
  simpl in *. apply andb_true_iff in Hf as [Hc Hf].
  apply IH; [done|]. simpl. by apply negb_true_iff.
Qed.

Lemma no_slash_ends f : no_slash f = true → Path.ends_with_slash f = false.
Proof. intros H. by apply no_slash_rev. Qed.

Lemma split_go_plain cur f :
  no_slash f = true → Path.split_go cur f = [cur +:+ f].
Proof.
  revert cur. induction f as [|c f IH]; intros cur Hf; simpl.
  - by rewrite str_app_nil_r.
  - simpl in Hf. apply andb_true_iff in Hf as [Hc Hf].
    apply negb_true_iff in Hc. rewrite Hc, IH by done.
    by rewrite str_app_assoc.
Qed.

Lemma plain_parts f :
  plain f = true →
  no_slash f = true ∧ f ≠ "" ∧ f ≠ "." ∧ f ≠ "..".
Proof.
  unfold plain. rewrite !andb_true_iff, !negb_true_iff, !String.eqb_neq.
  tauto.
Qed.

Lemma normalize_root root :
  is_rooted root = true →
  Path.normalize root = root.
Proof.
  intros Hroot.
  destruct (rooted_segments _ Hroot) as (seg & segs & Hsplit & Hplain & Hr).
  unfold Path.normalize.
  assert (String.eqb root "" = false) as -> by (by rewrite Hr).
  assert (Path.starts_with_slash root = true) as -> by (by rewrite Hr).
  cbn [negb]. unfold Path.normalizeString. rewrite Hsplit.
  change (fold_left (Path.push_segment false) ("" :: seg :: segs) [])
    with (fold_left (Path.push_segment false) (seg :: segs) []).
  rewrite fold_plain by done. rewrite app_nil_r, rev_involutive.
  assert (String.eqb (String.concat "/" (seg :: segs)) "" = false) as ->.
  { apply String.eqb_neq. apply concat_plain_nonempty.
    by apply Forall_cons in Hplain as [? _]. }
  assert (Path.ends_with_slash root = false) as ->.
  { destruct (exists_last (l := seg :: segs)) as (l & s & Hl); [done|].
    assert (plain s = true) as Hs.
    { rewrite Hl in Hplain. apply Forall_app in Hplain as [_ Hs].
      by apply Forall_cons in Hs as [? _]. }
    destruct (plain_parts _ Hs) as (Hns & Hne & _).
    rewrite Hr, Hl. destruct l as [|x l].
    - simpl. rewrite ends_with_slash_app by done. by apply no_slash_ends.
    - rewrite str_concat_app by done. rewrite <- !str_app_assoc.
      simpl String.concat. rewrite ends_with_slash_app by done.
      by apply no_slash_ends. }
  rewrite Hr. by rewrite str_app_nil_r.
Qed.

(** The joined path of a root and a name that does not climb. *)
Lemma join_below root f :
  is_rooted root = true →
  ".." ∉ Path.split f →
  ∃ rest, Path.join root f = root +:+ rest
    ∧ (rest = "" ∨ String.prefix "/" rest = true).
Proof.
  intros Hroot Hf. unfold Path.join.
  assert (String.eqb root "" = false) as ->.
  { destruct (rooted_segments _ Hroot) as (seg & segs & _ & _ & ->). done. }
  destruct (String.eqb f "") eqn:Hfe.
  - exists "". rewrite normalize_root by done. by rewrite str_app_nil_r; auto.
  - destruct (normalize_below _ _ Hroot Hf) as (more & tail & -> & _ & Htail).
    eexists. split; [done|].
    destruct (decide (more = [])).
    + rewrite str_app_nil_l. subst tail.
      destruct (Path.ends_with_slash _); auto.
    + right. rewrite !str_app_cons. simpl.
      by destruct (_ +:+ tail).
Qed.

Lemma str_prefix_cons a s1 b s2 :
  String.prefix (String a s1) (String b s2)
  = if ascii_dec a b then String.prefix s1 s2 else false.
Proof. reflexivity. Qed.

Lemma within_below root rest :
  rest = "" ∨ String.prefix "/" rest = true →
  Path.within root (root +:+ rest) = true.
Proof.
  intros [->|H]; unfold Path.within.
  - by rewrite str_app_nil_r, String.eqb_refl.
  - apply orb_true_iff. right.
    destruct rest as [|c rest]; [done|]. rewrite str_prefix_cons in H.
    destruct (ascii_dec "/" c) as [<-|]; [|done].
    change (String "/" rest) with ("/" +:+ rest).
    rewrite <- str_app_assoc. apply str_prefix_app.
Qed.

Lemma join_plain_name root f :
  is_rooted root = true → plain f = true →
  Path.join root f = root +:+ "/" +:+ f.
Proof.
  intros Hroot Hf. destruct (plain_parts _ Hf) as (Hns & Hne & Hd & Hdd).
  unfold Path.join.
  assert (String.eqb root "" = false) as ->.
  { destruct (rooted_segments _ Hroot) as (seg & segs & _ & _ & ->). done. }
  apply String.eqb_neq in Hne as Hne'. rewrite Hne'.
  assert (Path.split f = [f]) as Hsplit.
  { unfold Path.split. by rewrite split_go_plain. }
  destruct (normalize_below root f Hroot) as (more & tail & -> & Hmore & Htail).
  { rewrite Hsplit, list_elem_of_singleton. congruence. }
  rewrite Hsplit, filter_cons, decide_True in Hmore by done.
  rewrite filter_nil in Hmore. subst more.
  rewrite decide_False by done.
  rewrite <- str_app_assoc, ends_with_slash_app, no_slash_ends in Htail by done.
  subst tail. simpl String.concat. by rewrite str_app_nil_r.
Qed.

End JoinedPaths.

(** ** The capture store on names that do not climb *)

Section StoreNames.

Lemma getScreenshot_trace root fs f a :
  a ∈ (Store.getScreenshot root fs f).2 →
  a = Fs.Exists (Path.join root f) ∨ a = Fs.Read (Path.join root f).
Proof.
  unfold Store.getScreenshot.
  destruct (String.prefix root (Path.join root f)); simpl.
  - destruct (Fs.existsSync _ _); [destruct (Fs.readFileSync _ _)|]; simpl;
      rewrite ?elem_of_cons, ?elem_of_nil; tauto.
  - by rewrite elem_of_nil.
Qed.

Lemma deleteScreenshot_trace root fs f a :
  a ∈ (Store.deleteScreenshot root fs f).2 →
  a = Fs.Exists (Path.join root f) ∨ a = Fs.Unlink (Path.join root f).
Proof.
  unfold Store.deleteScreenshot.
  destruct (String.prefix root (Path.join root f)); simpl.
  - destruct (Fs.existsSync _ _); [destruct (Fs.unlinkSync _ _) as [? []]|];
      simpl; rewrite ?elem_of_cons, ?elem_of_nil; tauto.
  - by rewrite elem_of_nil.
Qed.

Lemma deleteScreenshot_disk root fs f :
  (Store.deleteScreenshot root fs f).1.1 = fs
  ∨ (Store.deleteScreenshot root fs f).1.1 = Fs.remove (Path.join root f) fs.
Proof.
  unfold Store.deleteScreenshot.
  destruct (String.prefix root (Path.join root f)); simpl; [|by left].
  destruct (Fs.existsSync _ _); [|by left].
  unfold Fs.unlinkSync. destruct (Fs.lookup _ _) as [[[] ?]|]; simpl; auto.
Qed.

(** X1.  When the storage root is an absolute path of plain segments and
    no segment of the file name is [..], the joined path is the root or
    lies below it: [getScreenshot] reads and [deleteScreenshot] unlinks
    inside the root only, and no entry outside the root changes. *)
Theorem names_that_do_not_climb_stay_inside (root : string) (fs : Fs.t)
    (f : string) :
  is_rooted root = true →
  climbs f = false →
  Path.within root (Path.join root f) = true
  ∧ (∀ a p, a ∈ (Store.getScreenshot root fs f).2 →
            Fs.touches_content a = Some p → Path.within root p = true)
  ∧ (∀ a p, a ∈ (Store.deleteScreenshot root fs f).2 →
            Fs.touches_content a = Some p → Path.within root p = true)
  ∧ (∀ q, Path.within root q = false →
          Fs.lookup q (Store.deleteScreenshot root fs f).1.1
          = Fs.lookup q fs).
Proof.
  intros Hroot Hclimb. apply bool_decide_eq_false in Hclimb.
  assert (Path.within root (Path.join root f) = true) as Hin.
  { destruct (join_below _ _ Hroot Hclimb) as (rest & -> & Hrest).
    by apply within_below. }
  split; [done|]. split; [|split].
  - intros a p Ha Hp. apply getScreenshot_trace in Ha as [->| ->];
      simpl in Hp; congruence.
  - intros a p Ha Hp. apply deleteScreenshot_trace in Ha as [->| ->];
      simpl in Hp; congruence.
  - intros q Hq. destruct (deleteScreenshot_disk root fs f) as [-> | ->];
      [done|].
    apply lookup_remove_ne. intros ->. congruence.
Qed.

Lemma lookup_remove_eq p fs : Fs.lookup p (Fs.remove p fs) = None.
Proof.
  unfold Fs.remove. induction fs as [|[q n] fs IH]; [done|].
  rewrite filter_cons. cbn [fst].
  destruct (decide (q ≠ p)) as [Hne|Heq]; [|done].
  simpl. apply String.eqb_neq in Hne. by rewrite Hne.
Qed.


Lemma deleteScreenshot_cases root fs f :
  (Store.deleteScreenshot root fs f).1
  = if String.prefix root (Path.join root f)
       && is_regular (Fs.lookup (Path.join root f) fs)
    then (Fs.remove (Path.join root f) fs, true) else (fs, false).
Proof.
  unfold Store.deleteScreenshot.
  destruct (String.prefix root (Path.join root f)); cbn [negb andb]; [|done].
  unfold Fs.existsSync, Fs.unlinkSync, is_regular.
  by destruct (Fs.lookup _ fs) as [[[] ?]|].
Qed.

(** X2.  Whatever the name, [deleteScreenshot] either leaves the disk as
    it is and returns [false], or returns [true] after removing the
    regular file at the joined path and nothing else; after that
    [getScreenshot] of the same name gives [null] and a second
    [deleteScreenshot] gives [false]. *)
Theorem deleteScreenshot_removes_one_file (root : string) (fs : Fs.t)
    (f : string) :
  let p := Path.join root f in
  let r := (Store.deleteScreenshot root fs f).1 in
  r = (fs, false)
  ∨ (r = (Fs.remove p fs, true)
     ∧ is_regular (Fs.lookup p fs) = true
     ∧ Fs.lookup p r.1 = None
     ∧ (∀ q, q ≠ p → Fs.lookup q r.1 = Fs.lookup q fs)
     ∧ (Store.getScreenshot root r.1 f).1 = Returns None
     ∧ (Store.deleteScreenshot root r.1 f).1 = (r.1, false)).
Proof.
  intros p r. subst r. rewrite (deleteScreenshot_cases root fs f). fold p.
  destruct (String.prefix root p) eqn:Hpre; cbn [andb]; [|by left].
  destruct (is_regular (Fs.lookup p fs)) eqn:Hreg; [right|by left].
  cbn [fst snd]. split; [done|]. split; [done|].
  split; [apply lookup_remove_eq|].
  split; [intros q Hq; by apply lookup_remove_ne|].
  rewrite deleteScreenshot_cases. fold p.
  rewrite lookup_remove_eq, andb_false_r. split; [|done].
  unfold Store.getScreenshot. fold p. rewrite Hpre. cbn [negb].
  unfold Fs.existsSync. by rewrite lookup_remove_eq.
Qed.

End StoreNames.

Section FileHandlers.
Variable extname : string → string.
Variable toLowerCase : string → string.

(** X3.  For a plain file name under such a root the joined path is
    [root/name], and the store and its two handlers act on the entry at
    that path.  [getScreenshot] returns the content of a regular file,
    [null] when there is no entry, and throws [EISDIR] on a directory;
    [handleGetScreenshot] sends the content, as [image/bmp] when the
    lower-cased extension of the name is [.bmp] and as [image/png]
    otherwise, and answers 404 and 500 in the two other cases.
    [deleteScreenshot] removes a regular file and returns [true], and
    returns [false] with the disk as it was otherwise;
    [handleDeleteScreenshot] answers 200 and 404 accordingly, and a second
    request to delete the same name is answered 404. *)
Theorem plain_names_address_entries (root : string) (fs : Fs.t)
    (f : string) :
  is_rooted root = true →
  plain f = true →
  let p := root +:+ "/" +:+ f in
  let deleted := Server.handleDeleteScreenshot root fs f in
  Path.join root f = p
  ∧ (Store.getScreenshot root fs f).1
    = match Fs.lookup p fs with
      | Some {| Fs.kind := Fs.RegularFile c |} => Returns (Some c)
      | Some {| Fs.kind := Fs.Directory |} => Throws (FsError "EISDIR" p)
      | None => Returns None
      end
  ∧ Server.handleGetScreenshot extname toLowerCase root fs f
    = match Fs.lookup p fs with
      | Some {| Fs.kind := Fs.RegularFile c |} =>
          Server.SendBuffer
            (if String.eqb (toLowerCase (extname f)) ".bmp"
             then "image/bmp" else "image/png") c
      | Some {| Fs.kind := Fs.Directory |} =>
          Server.SendJson 500
            (Server.ErrorMessage (message (FsError "EISDIR" p)))
      | None =>
          Server.SendJson 404 (Server.ErrorMessage "Screenshot not found")
      end
  ∧ (Store.deleteScreenshot root fs f).1
    = match Fs.lookup p fs with
      | Some {| Fs.kind := Fs.RegularFile _ |} => (Fs.remove p fs, true)
      | _ => (fs, false)
      end
  ∧ deleted
    = match Fs.lookup p fs with
      | Some {| Fs.kind := Fs.RegularFile _ |} =>
          (Fs.remove p fs,
           Server.SendJson 200 (Server.SuccessMessage "Screenshot deleted"))
      | _ => (fs, Server.SendJson 404
                    (Server.ErrorMessage "Screenshot not found"))
      end
  ∧ (Server.handleDeleteScreenshot root deleted.1 f).2
    = Server.SendJson 404 (Server.ErrorMessage "Screenshot not found").
Proof.
  intros Hroot Hf p deleted.
  assert (Path.join root f = p) as Hj by (by apply join_plain_name).
  assert (String.prefix root p = true) as Hpre by apply str_prefix_app.
  assert (∀ d, (Store.deleteScreenshot root d f).1
               = match Fs.lookup p d with
                 | Some {| Fs.kind := Fs.RegularFile _ |} =>
                     (Fs.remove p d, true)
                 | _ => (d, false)
                 end) as Hstore.
  { intros d. unfold Store.deleteScreenshot.
    rewrite Hj, Hpre. cbn [negb]. unfold Fs.existsSync, Fs.unlinkSync.
    by destruct (Fs.lookup p d) as [[[] ?]|]. }
  assert (∀ d, Server.handleDeleteScreenshot root d f
               = match Fs.lookup p d with
                 | Some {| Fs.kind := Fs.RegularFile _ |} =>
                     (Fs.remove p d,
                      Server.SendJson 200
                        (Server.SuccessMessage "Screenshot deleted"))
                 | _ => (d, Server.SendJson 404
                              (Server.ErrorMessage "Screenshot not found"))
                 end) as Hdel.
  { intros d. unfold Server.handleDeleteScreenshot.
    pose proof (Hstore d) as Hd.
    destruct (Store.deleteScreenshot root d f) as [[d' b] tr].
    cbn [fst] in Hd. by destruct (Fs.lookup p d) as [[[] ?]|]; simplify_eq. }
  assert ((Store.getScreenshot root fs f).1
          = match Fs.lookup p fs with
            | Some {| Fs.kind := Fs.RegularFile c |} => Returns (Some c)
            | Some {| Fs.kind := Fs.Directory |} => Throws (FsError "EISDIR" p)
            | None => Returns None
            end) as Hget.
  { unfold Store.getScreenshot.
    rewrite Hj, Hpre. cbn [negb]. unfold Fs.existsSync, Fs.readFileSync.
    by destruct (Fs.lookup p fs) as [[[] ?]|]. }
  split; [done|]. split; [done|]. split; [|split; [|split]].
  - unfold Server.handleGetScreenshot. rewrite Hget.
    by destruct (Fs.lookup p fs) as [[[] ?]|].
  - apply Hstore.
  - apply Hdel.
  - rewrite Hdel. unfold deleted. rewrite Hdel.
    destruct (Fs.lookup p fs) as [[[] ?]|] eqn:Hl; cbn [fst];
      rewrite ?lookup_remove_eq, ?Hl; done.
Qed.

End FileHandlers.

Section ListingProofs.
Import Listing.
Variable birthtime : string → Z.
Variable directory_size : string → Z.

Lemma shot_insert_perm x l : insert_newest_first x l ≡ₚ x :: l.
Proof.
  induction l as [|y l IH]; simpl; [done|].
  destruct (modified x <? modified y); [|done].
  rewrite IH. apply Permutation_swap.
Qed.

Lemma shot_sort_perm l : sort_newest_first l ≡ₚ l.
Proof.
  induction l as [|x l IH]; simpl; [done|].
  by rewrite shot_insert_perm, IH.
Qed.

Lemma shot_insert_sorted x l :
  StronglySorted newer_shot_first l →
  StronglySorted newer_shot_first (insert_newest_first x l).
Proof.
  induction l as [|y l IH]; simpl; intros Hs.
  - by repeat constructor.
  - apply StronglySorted_inv in Hs as [Hl Hy].
    destruct (modified x <? modified y) eqn:Hxy.
    + apply Z.ltb_lt in Hxy. constructor; [by apply IH|].
      rewrite shot_insert_perm. constructor; [unfold newer_shot_first; lia|done].
    + apply Z.ltb_ge in Hxy. constructor; [by constructor|].
      constructor; [done|].
      eapply Forall_impl; [exact Hy|]. unfold newer_shot_first. intros; lia.
Qed.

Lemma shot_sort_sorted l : StronglySorted newer_shot_first (sort_newest_first l).
Proof.
  induction l as [|x l IH]; simpl; [constructor|by apply shot_insert_sorted].
Qed.

Lemma stat_shots_listed root fs es :
  well_formed fs →
  (∀ e, e ∈ es → e ∈ fs ∧ Fs.is_child root e.1 = true) →
  stat_shots birthtime directory_size root ((λ e, Fs.basename e.1) <$> es) fs
  = Returns (shot_of birthtime directory_size <$> es).
Proof.
  intros Hwf. induction es as [|[p n] es IH]; intros Hes; [done|].
  rewrite !fmap_cons. cbn [stat_shots fst].
  destruct (Hes (p, n)) as [Hin Hchild]; [apply list_elem_of_here|].
  cbn [fst] in Hchild. rewrite (is_child_join _ _ Hchild). unfold Fs.statSync.
  rewrite (lookup_elem _ _ _ Hwf Hin).
  rewrite IH; [done|]. intros e He. apply Hes. by apply list_elem_of_further.
Qed.

Lemma slice_take {A} limit (l : list A) :
  slice limit l = take (kept_by_slice limit (length l)) l.
Proof. done. Qed.

Lemma kept_by_slice_le limit n : (kept_by_slice limit n ≤ n)%nat.
Proof. unfold kept_by_slice. destruct (limit <? 0) eqn:H; lia. Qed.

Lemma getScreenshots_unfold root fs limit :
  well_formed fs →
  getScreenshots birthtime directory_size root fs limit
  = if is_directory (Fs.lookup (resolved root) fs)
    then slice (default 20 limit)
           (sort_newest_first
              (shot_of birthtime directory_size <$> candidates root fs))
    else [].
Proof.
  intros Hwf. unfold getScreenshots, is_directory.
  destruct (Fs.lookup (resolved root) fs) as [[[] ?]|]; [done| |done].
  rewrite screenshot_names, (stat_shots_listed _ _ _ Hwf); [done|].
  intros e He. unfold candidates in He.
  apply list_elem_of_filter in He as [Hc He]. split; [done|].
  unfold candidate in Hc. by apply andb_true_iff in Hc as [? _].
Qed.

(** A root that is an absolute path of plain segments is the path the
    disk keeps its directory at. *)
Lemma resolved_rooted root : is_rooted root = true → resolved root = root.
Proof.
  intros Hroot. unfold resolved, Path.join.
  assert (String.eqb root "" = false) as ->.
  { destruct (rooted_segments _ Hroot) as (seg & segs & _ & _ & ->). done. }
  cbn [String.eqb Ascii.eqb Bool.eqb].
  destruct (normalize_below root "." Hroot) as (more & tail & -> & -> & ->).
  { unfold Path.split. cbn. rewrite list_elem_of_singleton. discriminate. }
  assert (filter kept (Path.split ".") = []) as ->.
  { unfold Path.split. cbn [Path.split_go Ascii.eqb Bool.eqb Path.slash].
    rewrite str_app_nil_l, filter_cons_False; [done|].
    unfold kept. intros [_ H]. by apply H. }
  rewrite decide_True by done.
  change ("/" +:+ ".") with "/.".
  rewrite (ends_with_slash_app root "/.") by done.
  change (Path.ends_with_slash "/.") with false.
  by rewrite !str_app_nil_r.
Qed.

(** The root may be written with slashes and dots that the system
    resolves: the listing is that of the directory all the same. *)
Example listing_of_an_unnormalised_root :
  filename <$> getScreenshots no_birthtime one_block "/data//screenshots/./"
                 shots None
  = ["screenshot-new.png"; "screenshot-old.png"].
Proof. reflexivity. Qed.

(** X4.  On a disk whose paths are distinct and under a root that is an
    absolute path of plain segments, [getScreenshots(limit)] is empty when
    the root is not a directory; otherwise it is the beginning of a
    newest-first ordering of the entries of the root whose names begin
    with [screenshot-]: what it returns, followed by what it leaves out,
    is a rearrangement of these entries in which no element is newer than
    one before it.  It keeps [limit] of them (20 without argument), all
    when there are fewer, and a negative [limit] drops that many of the
    oldest instead. *)
Theorem getScreenshots_newest_first (root : string) (fs : Fs.t)
    (limit : option Z) :
  is_rooted root = true →
  well_formed fs →
  let shots := getScreenshots birthtime directory_size root fs limit in
  let all := shot_of birthtime directory_size <$> candidates root fs in
  (is_directory (Fs.lookup root fs) = false → shots = [])
  ∧ (is_directory (Fs.lookup root fs) = true →
     (∃ rest, shots ++ rest ≡ₚ all
        ∧ StronglySorted newer_shot_first (shots ++ rest))
     ∧ Z.of_nat (length shots)
       = let n := Z.of_nat (length all) in
         let k := default 20 limit in
         if k <? 0 then Z.max (n + k) 0 else Z.min k n).
Proof.
  intros Hroot Hwf shots all. subst shots.
  rewrite getScreenshots_unfold, resolved_rooted by done. fold all.
  split; [by intros ->|]. intros ->.
  rewrite slice_take. rewrite (Permutation_length (shot_sort_perm all)).
  split.
  - exists (drop (kept_by_slice (default 20 limit) (length all))
              (sort_newest_first all)).
    rewrite take_drop. split; [apply shot_sort_perm|apply shot_sort_sorted].
  - rewrite length_take, (Permutation_length (shot_sort_perm all)).
    pose proof (kept_by_slice_le (default 20 limit) (length all)) as Hle.
    cbv zeta. rewrite Nat.min_l by done. unfold kept_by_slice.
    destruct (default 20 limit <? 0) eqn:Hk; [lia|].
    apply Z.ltb_ge in Hk. lia.
Qed.

End ListingProofs.

Section Latest.
Variable birthtime : string → Z.
Variable directory_size : string → Z.

Lemma last_no_slash l :
  Forall (λ x, no_slash x = true) l → no_slash (List.last l "") = true.
Proof.
  induction l as [|x l IH]; [done|]. intros [Hx Hl]%Forall_cons.
  destruct l as [|y l]; [done|]. by apply IH.
Qed.

Lemma child_basename_plain root p :
  Fs.is_child root p = true → plain (Fs.basename p) = true.
Proof.
  unfold Fs.is_child, plain. rewrite !andb_true_iff.
  intros (((H1 & H2) & H3) & _). repeat split; try done.
  unfold Fs.basename, Path.split. apply last_no_slash.
  by apply split_go_no_slash.
Qed.

Lemma child_path root p :
  is_rooted root = true → Fs.is_child root p = true →
  Path.join root (Fs.basename p) = p ∧ String.prefix root p = true.
Proof.
  intros Hroot Hchild. pose proof (is_child_join _ _ Hchild) as Hj.
  split; [done|]. rewrite <- Hj.
  rewrite join_plain_name by (done || by eapply child_basename_plain).
  apply str_prefix_app.
Qed.

(** What [getScreenshot] gives for the name of an entry of the root. *)
Lemma getScreenshot_child root fs p n :
  is_rooted root = true → well_formed fs →
  (p, n) ∈ fs → Fs.is_child root p = true →
  (Store.getScreenshot root fs (Fs.basename p)).1
  = match Fs.kind n with
    | Fs.RegularFile c => Returns (Some c)
    | Fs.Directory => Throws (FsError "EISDIR" p)
    end.
Proof.
  intros Hroot Hwf Hin Hchild.
  destruct (child_path _ _ Hroot Hchild) as [Hj Hpre].
  unfold Store.getScreenshot. rewrite Hj, Hpre. cbn [negb].
  unfold Fs.existsSync, Fs.readFileSync.
  rewrite (lookup_elem _ _ _ Hwf Hin). by destruct n as [[] ?].
Qed.

Lemma sorted_head_newest (x : Listing.shot) l y :
  StronglySorted newer_shot_first (x :: l) → y ∈ x :: l →
  Listing.modified y ≤ Listing.modified x.
Proof.
  intros [_ Hx]%StronglySorted_inv [->|Hy]%elem_of_cons; [lia|].
  rewrite Forall_forall in Hx. by apply Hx.
Qed.

(** X5.  On a disk whose paths are distinct and under a root that is an
    absolute path of plain segments, [handleGetLatestScreenshot] answers
    with [No screenshots available] exactly when the listing is empty;
    otherwise it looks at an entry of the root named [screenshot-...] that
    none of these entries is newer than, sends its content when it is a
    regular file - always as [image/png], whatever the extension - and
    answers 500 when it is a directory.  [Screenshot not found] is never
    the answer. *)
Theorem latest_serves_a_newest_shot (root : string) (fs : Fs.t) :
  is_rooted root = true →
  well_formed fs →
  let answer :=
    Server.handleGetLatestScreenshot birthtime directory_size root fs in
  let listing :=
    Listing.getScreenshots birthtime directory_size root fs (Some 1) in
  (listing = [] ∧
   answer = Server.SendJson 404 (Server.ErrorMessage "No screenshots available"))
  ∨ ∃ p n,
      (p, n) ∈ fs ∧ candidate root p = true
      ∧ (∀ q m, (q, m) ∈ fs → candidate root q = true →
                Fs.mtime m ≤ Fs.mtime n)
      ∧ answer
        = match Fs.kind n with
          | Fs.RegularFile c => Server.SendBuffer "image/png" c
          | Fs.Directory =>
              Server.SendJson 500
                (Server.ErrorMessage (message (FsError "EISDIR" p)))
          end.
Proof.
  intros Hroot Hwf answer listing. subst answer.
  unfold Server.handleGetLatestScreenshot. fold listing.
  destruct listing as [|first rest] eqn:Hl; [by left|right].
  unfold listing in Hl. rewrite (getScreenshots_unfold _ _ _ _ _ Hwf) in Hl.
  destruct (is_directory _); [|done].
  rewrite slice_take in Hl.
  set (all := shot_of birthtime directory_size <$> candidates root fs) in *.
  pose proof (shot_sort_perm all) as Hperm.
  pose proof (shot_sort_sorted all) as Hsorted.
  destruct (Listing.sort_newest_first all) as [|x sorted] eqn:Hs.
  { by rewrite take_nil in Hl. }
  assert (first = x) as ->.
  { destruct (kept_by_slice _ _); simpl in Hl; [done|]. by injection Hl. }
  assert (x ∈ all) as Hx by (rewrite <- Hperm; apply list_elem_of_here).
  apply list_elem_of_fmap in Hx as ([p n] & -> & He).
  unfold candidates in He. apply list_elem_of_filter in He as [Hc He].
  cbn [fst] in Hc.
  exists p, n. split; [done|]. split; [done|]. split.
  - intros q m Hq Hqc.
    assert (shot_of birthtime directory_size (q, m)
              ∈ shot_of birthtime directory_size (p, n) :: sorted) as Hin.
    { rewrite Hperm. apply list_elem_of_fmap. exists (q, m). split; [done|].
      unfold candidates. by apply list_elem_of_filter. }
    by apply (sorted_head_newest _ _ _ Hsorted) in Hin.
  - unfold shot_of. cbn [Listing.filename fst].
    unfold candidate in Hc. apply andb_true_iff in Hc as [Hchild _].
    rewrite (getScreenshot_child root fs p n) by done.
    by destruct (Fs.kind n).
Qed.

End Latest.

Section SweepExtent.
Import Retention.








Lemma length_filter_mono {A} (P Q : A → Prop) `{∀ x, Decision (P x)}
    `{∀ x, Decision (Q x)} (l : list A) :
  (∀ x, P x → Q x) → (length (filter P l) ≤ length (filter Q l))%nat.
Proof.
  intros HPQ. induction l as [|x l IH]; [done|].
  rewrite !filter_cons. destruct (decide (P x)) as [HP|HP].
  - rewrite decide_True by auto. simpl. lia.
  - destruct (decide (Q x)); simpl; lia.
Qed.

Lemma survivors_bound now age count files fs :
  ∀ i,
    (∀ f, f ∈ files → is_regular (Fs.lookup (path f) fs) = true) →
    Z.of_nat (length (filter (λ f, path f ∉ victims now age count i files fs)
                        files))
    ≤ Z.max (count - i) 0.
Proof.
  induction files as [|g rest IH]; intros i Hreg; [simpl; lia|].
  assert (∀ f, f ∈ rest → is_regular (Fs.lookup (path f) fs) = true) as Hrest.
  { intros f Hf. apply Hreg. by apply list_elem_of_further. }
  specialize (IH (i + 1) Hrest).
  pose proof (Hreg g (list_elem_of_here _ _)) as Hg.
  destruct (expired now age count i g) eqn:Hexp.
  - assert (victims now age count i (g :: rest) fs
            = path g :: victims now age count (i + 1) rest fs) as ->.
    { cbn [victims]. by rewrite Hexp, Hg. }
    rewrite filter_cons, decide_False.
    2: { intros Hn. apply Hn, list_elem_of_here. }
    pose proof (length_filter_mono
      (λ f, path f ∉ path g :: victims now age count (i + 1) rest fs)
      (λ f, path f ∉ victims now age count (i + 1) rest fs) rest) as Hm.
    assert (∀ x : file,
              path x ∉ path g :: victims now age count (i + 1) rest fs →
              path x ∉ victims now age count (i + 1) rest fs) as Himp.
    { intros x Hx Hin. apply Hx. by apply list_elem_of_further. }
    specialize (Hm Himp). lia.
  - assert (victims now age count i (g :: rest) fs
            = victims now age count (i + 1) rest fs) as ->.
    { cbn [victims]. by rewrite Hexp. }
    unfold expired in Hexp.
    apply orb_false_iff in Hexp as [Hc _]. apply Z.leb_gt in Hc.
    rewrite filter_cons. destruct (decide _); simpl length; lia.
Qed.

End SweepExtent.

Section SweepAndListing.
Import Retention.
Variable birthtime : string → Z.
Variable directory_size : string → Z.

Lemma getScreenshots_entries root fs limit s :
  well_formed fs →
  s ∈ Listing.getScreenshots birthtime directory_size root fs limit →
  ∃ e, e ∈ candidates root fs ∧ s = shot_of birthtime directory_size e.
Proof.
  intros Hwf. rewrite (getScreenshots_unfold _ _ _ _ _ Hwf).
  destruct (is_directory _); [|by intros ?%elem_of_nil].
  rewrite slice_take. intros Hs%elem_of_take.
  destruct Hs as (i & Hs & _). apply list_elem_of_lookup_2 in Hs.
  rewrite shot_sort_perm in Hs.
  apply list_elem_of_fmap in Hs as (e & -> & He). eauto.
Qed.

Lemma getScreenshots_length root fs limit :
  well_formed fs →
  (length (Listing.getScreenshots birthtime directory_size root fs limit)
   ≤ length (candidates root fs))%nat.
Proof.
  intros Hwf. rewrite (getScreenshots_unfold _ _ _ _ _ Hwf).
  destruct (is_directory _); [|simpl; lia].
  rewrite slice_take, length_take, (Permutation_length (shot_sort_perm _)).
  rewrite length_fmap. lia.
Qed.

(** X7.  On a disk whose paths are distinct and where every entry of the
    root named [screenshot-...] is a regular file, a sweep with a count
    limit that is not negative leaves a store whose listing, whatever
    [limit] is asked for, holds at most [maxCount] shots, none of them
    older than [maxAgeHours] at the time of the sweep. *)
Theorem sweep_bounds_the_listing (root : string) (fs : Fs.t)
    (now maxAgeHours maxCount : Z) (limit : option Z) :
  well_formed fs →
  0 ≤ maxCount →
  (∀ e, e ∈ fs → candidate root e.1 = true → is_regular (Some e.2) = true) →
  let after := (cleanupOldScreenshots root now maxAgeHours maxCount fs).1 in
  let shots :=
    Listing.getScreenshots birthtime directory_size root after limit in
  Z.of_nat (length shots) ≤ maxCount
  ∧ ∀ s, s ∈ shots →
         now - Listing.modified s ≤ maxAgeHours * 60 * 60 * 1000.
Proof.
  intros Hwf Hcount Hfiles after shots.
  assert (well_formed after) as Hwf'.
  { unfold after. rewrite (first_sweep _ _ _ _ _ Hwf). cbn [fst].
    by apply well_formed_without. }
  split.
  - pose proof (getScreenshots_length root after limit Hwf') as Hle.
    fold shots in Hle.
    assert (Z.of_nat (length (candidates root after)) ≤ maxCount); [|lia].
    unfold after. rewrite (first_sweep _ _ _ _ _ Hwf). cbn [fst].
    set (age := maxAgeHours * 60 * 60 * 1000).
    rewrite candidates_without.
    rewrite <- (length_fmap info), info_without.
    fold age.
    assert (filter (λ f, path f ∉ victims now age maxCount 0 (listed root fs) fs)
              (info <$> candidates root fs)
            ≡ₚ filter (λ f, path f ∉ victims now age maxCount 0 (listed root fs) fs)
                 (listed root fs)) as ->.
    { apply filter_Permutation. unfold listed. by rewrite sort_perm. }
    pose proof (survivors_bound now age maxCount (listed root fs) fs 0) as Hb.
    rewrite Z.sub_0_r, Z.max_l in Hb by done. apply Hb.
    intros f Hf. apply listed_elem in Hf as ([p n] & He & Hc & ->).
    unfold info; cbn [path fst]. rewrite (lookup_elem _ _ _ Hwf He).
    by apply (Hfiles (p, n)).
  - intros s Hs. apply getScreenshots_entries in Hs as ([p n] & He & ->); [|done].
    unfold shot_of. cbn [Listing.modified snd].
    unfold candidates in He. apply list_elem_of_filter in He as [Hc He].
    cbn [fst] in Hc.
    apply (survivors_fresh root now maxAgeHours maxCount fs p n); try done.
    apply (Hfiles (p, n)); [|done].
    unfold after in He. rewrite (first_sweep _ _ _ _ _ Hwf) in He.
    cbn [fst] in He. unfold without in He.
    by apply list_elem_of_filter in He as [_ ?].
Qed.

End SweepAndListing.

Section CaptureDisk.
Import Capture.

Lemma lookup_replace_eq p n fs :
  Fs.lookup p fs ≠ None → Fs.lookup p (Fs.replace p n fs) = Some n.
Proof.
  induction fs as [|[q m] fs IH]; simpl; [done|].
  destruct (String.eqb q p) eqn:Hq; simpl; rewrite Hq; [done|apply IH].
Qed.

Lemma lookup_replace_ne p q n fs :
  q ≠ p → Fs.lookup q (Fs.replace p n fs) = Fs.lookup q fs.
Proof.
  intros Hne. induction fs as [|[r m] fs IH]; simpl; [done|].
  destruct (String.eqb r p) eqn:Hr; simpl.
  - apply String.eqb_eq in Hr as ->.
    assert (String.eqb p q = false) as -> by (apply String.eqb_neq; congruence).
    done.
  - by rewrite IH.
Qed.

Lemma lookup_append_ne p q n fs :
  q ≠ p → Fs.lookup q (fs ++ [(p, n)]) = Fs.lookup q fs.
Proof.
  intros Hne. induction fs as [|[r m] fs IH]; simpl.
  - assert (String.eqb p q = false) as -> by (apply String.eqb_neq; congruence).
    done.
  - by rewrite IH.
Qed.

(** [writeFileSync]: the file afterwards, and the rest of the disk. *)
Lemma writeFileSync_spec p c now fs :
  match Fs.writeFileSync p c now fs with
  | (fs', Returns _) =>
      Fs.lookup p fs' = Some {| Fs.kind := Fs.RegularFile c; Fs.mtime := now |}
      ∧ ∀ q, q ≠ p → Fs.lookup q fs' = Fs.lookup q fs
  | (fs', Throws _) => fs' = fs
  end.
Proof.
  unfold Fs.writeFileSync.
  destruct (Fs.lookup p fs) as [[[] ?]|] eqn:Hl; [| done |].
  - split; [apply lookup_replace_eq; by rewrite Hl|].
    intros q Hq. by apply lookup_replace_ne.
  - split; [by apply lookup_after_append|].
    intros q Hq. by apply lookup_append_ne.
Qed.

Lemma writeFileSync_keeps_files p c now fs q :
  is_regular (Fs.lookup q fs) = true →
  is_regular (Fs.lookup q (Fs.writeFileSync p c now fs).1) = true.
Proof.
  intros Hq. pose proof (writeFileSync_spec p c now fs) as H.
  destruct (Fs.writeFileSync p c now fs) as [fs' [[]|e]]; simpl.
  - destruct H as [Hp Hother]. destruct (decide (q = p)) as [->|Hne].
    + by rewrite Hp.
    + by rewrite Hother.
  - by subst.
Qed.

Lemma no_write_spec evs :
  no_write evs = true → ∀ q, Written q ∉ evs.
Proof.
  unfold no_write. rewrite forallb_forall. intros H q Hq.
  apply list_elem_of_In in Hq. by apply H in Hq.
Qed.

(** What [save] does to the disk and to the call. *)
Lemma save_disk W i buf evs s t :
  let r := save W i buf evs s t in
  screenshotPath r.1 = screenshotPath s
  ∧ opts r.2 = opts t
  ∧ saved_inv W (screenshotPath s) (fs r.1) i r.2
  ∧ (∀ q, is_regular (Fs.lookup q (fs s)) = true →
          is_regular (Fs.lookup q (fs r.1)) = true)
  ∧ ∃ evs', log r.2 = log t ++ evs'
      ∧ (∀ q, Written q ∉ evs' →
              Fs.lookup q (fs r.1) = Fs.lookup q (fs s))
      ∧ (no_write evs = true →
         ∀ q, Written q ∈ evs' →
              q = Path.join (screenshotPath s)
                    (file_name W i (outputFormat (destructure (opts t))))).
Proof.
  unfold save.
  set (name := "screenshot-" +:+ _).
  set (p := Path.join (screenshotPath s) name).
  assert (∀ m,
    let r := fail m s (goto (at_pc t) evs t) in
    screenshotPath r.1 = screenshotPath s
    ∧ opts r.2 = opts t
    ∧ saved_inv W (screenshotPath s) (fs r.1) i r.2
    ∧ (∀ q, is_regular (Fs.lookup q (fs s)) = true →
            is_regular (Fs.lookup q (fs r.1)) = true)
    ∧ ∃ evs', log r.2 = log t ++ evs'
        ∧ (∀ q, Written q ∉ evs' →
                Fs.lookup q (fs r.1) = Fs.lookup q (fs s))
        ∧ (no_write evs = true →
           ∀ q, Written q ∈ evs' →
                q = Path.join (screenshotPath s)
                      (file_name W i (outputFormat (destructure (opts t)))))) as Hfail.
  { intros m r. subst r.
    cbn [fst snd fail goto set_active screenshotPath opts fs log].
    split; [done|]. split; [done|].
    split; [intros ?? Hw; discriminate Hw|]. split; [done|].
    exists (evs ++ [Release]). split; [by rewrite app_assoc|]. split; [done|].
    intros Hevs q Hq. exfalso. apply elem_of_app in Hq as [Hq|Hq].
    - by apply (no_write_spec _ Hevs q).
    - apply list_elem_of_singleton in Hq. discriminate Hq. }
  destruct (write_fails W i) as [e|]; [apply Hfail|].
  pose proof (writeFileSync_spec p buf (ms_at_save W i) (fs s)) as Hw.
  destruct (Fs.writeFileSync p buf (ms_at_save W i) (fs s)) as [d [[]|e]];
    [|apply Hfail].
  destruct Hw as [Hp Hother].
  cbn [fst snd goto set_fs screenshotPath opts fs log].
  split; [done|]. split; [done|]. split; [|split].
  - intros n q Hnq. cbn [written at_pc goto] in Hnq.
    injection Hnq as <- <-.
    cbn [opts]. split; [done|]. split; [done|]. by rewrite Hp.
  - intros q Hq. destruct (decide (q = p)) as [->|Hne];
      [by rewrite Hp|by rewrite Hother].
  - exists (evs ++ [Written p]). split; [done|]. split.
    + intros q Hq. apply Hother. intros ->. apply Hq.
      apply elem_of_app. right. apply list_elem_of_here.
    + intros Hevs q Hq. apply elem_of_app in Hq as [Hq|Hq].
      * exfalso. by apply (no_write_spec _ Hevs q).
      * apply list_elem_of_singleton in Hq. by injection Hq as ->.
Qed.

(** One turn of a call: the root and the options stay, a file once
    written is kept on record and on disk, no regular file disappears,
    and the disk changes at a path the turn logs as written only. *)
Lemma turn_disk W i s t :
  saved_inv W (screenshotPath s) (fs s) i t →
  let r := captureScreenshot W i s t in
  screenshotPath r.1 = screenshotPath s
  ∧ opts r.2 = opts t
  ∧ saved_inv W (screenshotPath s) (fs r.1) i r.2
  ∧ (∀ q, is_regular (Fs.lookup q (fs s)) = true →
          is_regular (Fs.lookup q (fs r.1)) = true)
  ∧ ∃ evs, log r.2 = log t ++ evs
      ∧ (∀ q, Written q ∉ evs → Fs.lookup q (fs r.1) = Fs.lookup q (fs s))
      ∧ (∀ q, Written q ∈ evs →
              q = Path.join (screenshotPath s)
                    (file_name W i (outputFormat (destructure (opts t))))).
Proof.
  intros Hinv.
  set (goal := λ r : service * task,
    screenshotPath r.1 = screenshotPath s
    ∧ opts r.2 = opts t
    ∧ saved_inv W (screenshotPath s) (fs r.1) i r.2
    ∧ (∀ q, is_regular (Fs.lookup q (fs s)) = true →
            is_regular (Fs.lookup q (fs r.1)) = true)
    ∧ ∃ evs, log r.2 = log t ++ evs
        ∧ (∀ q, Written q ∉ evs → Fs.lookup q (fs r.1) = Fs.lookup q (fs s))
        ∧ (∀ q, Written q ∈ evs →
                q = Path.join (screenshotPath s)
                      (file_name W i (outputFormat (destructure (opts t)))))).
  change (goal (captureScreenshot W i s t)).
  assert (∀ (p : pc) evs n,
            written (goto p evs t) = None → no_write evs = true →
            goal (set_active n s, goto p evs t)) as Hstay.
  { intros p evs n Hp Hevs. unfold goal.
    cbn [fst snd goto opts log set_active screenshotPath fs].
    split; [done|]. split; [done|].
    split; [intros ?? Hw; rewrite Hp in Hw; discriminate Hw|].
    split; [done|]. exists evs. split; [done|]. split; [done|].
    intros q Hq. exfalso. by apply (no_write_spec _ Hevs q). }
  assert (∀ (p : pc) evs,
            written (goto p evs t) = None → no_write evs = true →
            goal (s, goto p evs t)) as Hstay'.
  { intros p evs Hp Hevs. unfold goal. cbn [fst snd goto opts log].
    split; [done|]. split; [done|].
    split; [intros ?? Hw; rewrite Hp in Hw; discriminate Hw|].
    split; [done|]. exists evs. split; [done|]. split; [done|].
    intros q Hq. exfalso. by apply (no_write_spec _ Hevs q). }
  assert (goal (s, t)) as Hsame.
  { unfold goal. cbn [fst snd]. split; [done|]. split; [done|].
    split; [done|]. split; [done|]. exists []. split; [by rewrite app_nil_r|].
    split; [done|]. by intros q Hq%elem_of_nil. }
  assert (∀ m, goal (fail m s t)) as Hfail.
  { intros m. unfold fail. by apply Hstay. }
  assert (∀ buf e, no_write [e] = true → goal (save W i buf [e] s t)) as Hsave.
  { intros buf e He. unfold goal.
    destruct (save_disk W i buf [e] s t)
      as (H1 & H2 & H3 & H4 & evs' & H5 & H6 & H7).
    split; [done|]. split; [done|]. split; [done|]. split; [done|].
    exists evs'. split; [done|]. split; [done|]. by apply H7. }
  unfold captureScreenshot.
  destruct (at_pc t) as [| |op|buf|op sv|r] eqn:Hpc.
  - destruct (browser s); cbn [negb]; [|by apply Hstay'].
    unfold enter. destruct (_ <=? _); [by apply Hstay'|by apply Hstay].
  - unfold enter. destruct (_ <=? _); [by apply Hstay'|by apply Hstay].
  - destruct (rejects W i op); [apply Hfail|].
    destruct op; try (by apply Hstay'); try apply Hsame.
    + apply Hstay'; [|done]. unfold written, after_viewport, after_theme.
      cbn [goto at_pc opts].
      by destruct (Js.strict_eq _ _); [|destruct (Js.truthy _)].
    + apply Hstay'; [|done]. unfold written, after_theme. cbn [goto at_pc opts].
      by destruct (Js.truthy _).
    + destruct (_ || _); [by apply Hstay'|]. by apply Hsave.
  - destruct (if is_bmp _ then _ else _) as [b|e]; [|apply Hfail].
    by apply Hsave.
  - destruct (rejects W i op); [apply Hfail|].
    assert (written t = Some (s_filename sv, s_filepath sv)) as Hw.
    { unfold written. by rewrite Hpc. }
    destruct (Hinv _ _ Hw) as (Hn & Hp & Hreg).
    destruct op; unfold goal;
      cbn [fst snd goto set_active screenshotPath opts fs log];
      (split; [done|]; split; [done|]; split;
       [ intros n q Hnq; cbn [written at_pc goto] in Hnq; simplify_eq;
         cbn [filename filepath opts]; done
       | split; [done|]; eexists; split; [reflexivity|]; split; [done|];
         intros q Hq; exfalso;
         repeat (apply elem_of_cons in Hq as [Hq|Hq]; [discriminate Hq|]);
         by apply elem_of_nil in Hq ]).
  - apply Hsame.
Qed.

Lemma saved_inv_disk W root d d' i t :
  (∀ q, is_regular (Fs.lookup q d) = true → is_regular (Fs.lookup q d') = true) →
  saved_inv W root d i t → saved_inv W root d' i t.
Proof.
  intros Hd Hinv name path Hw. destruct (Hinv _ _ Hw) as (? & ? & ?). auto.
Qed.


Lemma step_disk_inv W root calls s j :
  disk_inv W root calls s → disk_inv W root calls (step W s j).
Proof.
  intros (Hroot & Hopts & Hinv). unfold step.
  destruct (tasks s !! j) as [t|] eqn:Hj; [|done].
  pose proof (turn_disk W j (svc s) t) as H. rewrite Hroot in H.
  specialize (H (Hinv _ _ Hj)). cbv zeta in H.
  destruct (captureScreenshot W j (svc s) t) as [sv t'].
  cbn [fst snd] in H. destruct H as (H1 & H2 & H3 & H4 & _).
  split; [done|]. split.
  - cbn [tasks]. rewrite list_fmap_insert, H2.
    rewrite list_insert_id; [done|]. by rewrite list_lookup_fmap, Hj.
  - intros i u Hi. cbn [tasks svc] in *.
    destruct (decide (i = j)) as [->|Hne].
    + rewrite list_lookup_insert_eq in Hi by (by eapply lookup_lt_Some).
      by simplify_eq.
    + rewrite list_lookup_insert_ne in Hi by done.
      eapply saved_inv_disk; [exact H4|]. by apply Hinv.
Qed.

Lemma run_disk_inv W root calls sched s :
  disk_inv W root calls s → disk_inv W root calls (run W sched s).
Proof.
  revert s. induction sched as [|j sched IH]; intros s Hs; [done|].
  simpl. apply IH. by apply step_disk_inv.
Qed.

Lemma calls_disk_inv W sv (calls : list options) :
  disk_inv W (screenshotPath sv) calls {| svc := sv; tasks := call <$> calls |}.
Proof.
  split; [done|]. split.
  - cbn [tasks]. rewrite <- list_fmap_compose.
    induction calls as [|o calls IH]; [done|]. rewrite fmap_cons. by f_equal.
  - intros i t Hi. cbn [tasks] in Hi.
    apply list_lookup_fmap_Some in Hi as (o & -> & _).
    intros ?? H. discriminate H.
Qed.

End CaptureDisk.

Section CaptureFiles.
Import Capture.

(** X8.  Whatever the environment does and however the calls interleave,
    a call that has returned success reports the file name it made up
    from the time, the random bytes and the requested format, and the path
    it reports is the storage root joined with that name; a regular file
    lies at this path when the run ends, so that [getScreenshot] returns a
    buffer for the reported name whenever the path passes its guard. *)
Theorem successful_capture_is_on_disk (W : world) (sv : service)
    (calls : list options) (sched : list nat) (i : nat) (t : task)
    (r : success) :
  let s := run W sched {| svc := sv; tasks := call <$> calls |} in
  tasks s !! i = Some t →
  at_pc t = Done (Success r) →
  filename r = file_name W i (outputFormat (destructure (opts t)))
  ∧ calls !! i = Some (opts t)
  ∧ filepath r = Path.join (screenshotPath sv) (filename r)
  ∧ is_regular (Fs.lookup (filepath r) (fs (svc s))) = true
  ∧ (String.prefix (screenshotPath sv) (filepath r) = true →
     ∃ c, Store.getScreenshot (screenshotPath sv) (fs (svc s)) (filename r)
          = (Returns (Some c), [Fs.Exists (filepath r); Fs.Read (filepath r)])).
Proof.
  intros s Hi Hpc.
  destruct (run_disk_inv W _ calls sched _ (calls_disk_inv W sv calls))
    as (Hroot & Hopts & Hinv). fold s in Hroot, Hopts, Hinv.
  assert (written t = Some (filename r, filepath r)) as Hw.
  { unfold written. by rewrite Hpc. }
  destruct (Hinv _ _ Hi _ _ Hw) as (Hname & Hpath & Hreg).
  split; [done|]. split.
  { rewrite <- Hopts, list_lookup_fmap, Hi. done. }
  split; [done|]. split; [done|].
  intros Hpre. unfold Store.getScreenshot. rewrite <- Hpath, Hpre.
  cbn [negb]. unfold Fs.existsSync, Fs.readFileSync.
  destruct (Fs.lookup (filepath r) (fs (svc s))) as [[[c|] m]|]; try done.
  by exists c.
Qed.

Lemma step_frame W root calls s j :
  disk_inv W root calls s →
  (∀ q,
     (∀ i o, calls !! i = Some o →
             q ≠ Path.join root (file_name W i (outputFormat (destructure o)))) →
     Fs.lookup q (fs (svc (step W s j))) = Fs.lookup q (fs (svc s)))
  ∧ (∀ q, is_regular (Fs.lookup q (fs (svc s))) = true →
          is_regular (Fs.lookup q (fs (svc (step W s j)))) = true).
Proof.
  intros (Hroot & Hopts & Hinv). unfold step.
  destruct (tasks s !! j) as [t|] eqn:Hj; [|done].
  pose proof (turn_disk W j (svc s) t) as H. rewrite Hroot in H.
  specialize (H (Hinv _ _ Hj)). cbv zeta in H.
  destruct (captureScreenshot W j (svc s) t) as [sv' t'].
  cbn [fst snd svc] in *.
  destruct H as (_ & _ & _ & Hkeep & evs & _ & Hframe & Hpaths).
  split; [|done].
  intros q Hq. apply Hframe. intros Hin. apply Hpaths in Hin.
  apply (Hq j (opts t)); [|done].
  by rewrite <- Hopts, list_lookup_fmap, Hj.
Qed.

Lemma run_frame W root calls sched s :
  disk_inv W root calls s →
  (∀ q,
     (∀ i o, calls !! i = Some o →
             q ≠ Path.join root (file_name W i (outputFormat (destructure o)))) →
     Fs.lookup q (fs (svc (run W sched s))) = Fs.lookup q (fs (svc s)))
  ∧ (∀ q, is_regular (Fs.lookup q (fs (svc s))) = true →
          is_regular (Fs.lookup q (fs (svc (run W sched s)))) = true).
Proof.
  revert s. induction sched as [|j sched IH]; intros s Hs; [done|].
  cbn [run fold_left].
  destruct (step_frame W root calls s j Hs) as [H1 H2].
  destruct (IH (step W s j) (step_disk_inv _ _ _ _ j Hs)) as [H3 H4].
  split.
  - intros q Hq. unfold run in H3. rewrite H3 by done. by apply H1.
  - intros q Hq. apply H4. by apply H2.
Qed.

(** X9.  Captures write nowhere but at the paths they make up: whatever
    the environment does and however the calls interleave, an entry at a
    path that is not the storage root joined with the file name of one of
    the calls is at the end of the run what it was at the start, and a path
    that held a regular file at the start still holds one. *)
Theorem captures_write_their_own_files_only (W : world) (sv : service)
    (calls : list options) (sched : list nat) :
  let s := run W sched {| svc := sv; tasks := call <$> calls |} in
  (∀ q,
     (∀ i o, calls !! i = Some o →
             q ≠ Path.join (screenshotPath sv)
                   (file_name W i (outputFormat (destructure o)))) →
     Fs.lookup q (fs (svc s)) = Fs.lookup q (fs sv))
  ∧ (∀ q, is_regular (Fs.lookup q (fs sv)) = true →
          is_regular (Fs.lookup q (fs (svc s))) = true).
Proof.
  intros s. subst s.
  exact (run_frame W _ calls sched _ (calls_disk_inv W sv calls)).
Qed.

End CaptureFiles.

Section Fetch.
Import Capture.

Lemma dashes_no_slash s : no_slash s = true → no_slash (dashes s) = true.
Proof.
  induction s as [|c s IH]; [done|]. simpl.
  intros [Hc Hs]%andb_true_iff. rewrite IH by done. rewrite andb_true_r.
  by destruct (Ascii.eqb c ":" || Ascii.eqb c ".").
Qed.

Lemma file_name_plain W i fmt :
  no_slash (iso_at_save W i) = true →
  no_slash (random_hex W i) = true →
  no_slash (extension fmt) = true →
  plain (file_name W i fmt) = true
  ∧ Retention.is_screenshot (file_name W i fmt) = true.
Proof.
  intros Hiso Hhex Hext. unfold file_name. split.
  - unfold plain. rewrite !no_slash_app, dashes_no_slash, Hhex, Hext by done.
    by rewrite !str_app_cons.
  - apply str_prefix_app.
Qed.

Lemma basename_below root f :
  plain f = true → Fs.basename (root +:+ "/" +:+ f) = f.
Proof.
  intros Hf. destruct (plain_parts _ Hf) as (Hns & _).
  unfold Fs.basename, Path.split.
  change ("/" +:+ f) with (String Path.slash f).
  rewrite split_go_app, (split_go_plain "" f) by done.
  by rewrite last_last.
Qed.

Lemma plain_name_is_child root f :
  is_rooted root = true → plain f = true →
  Fs.is_child root (root +:+ "/" +:+ f) = true.
Proof.
  intros Hroot Hf. unfold Fs.is_child. rewrite basename_below by done.
  destruct (plain_parts _ Hf) as (_ & H1 & H2 & H3).
  apply String.eqb_neq in H1, H2, H3. rewrite H1, H2, H3.
  rewrite join_plain_name by done. by rewrite String.eqb_refl.
Qed.

(** X10.  Under a root that is an absolute path of plain segments, and
    when the time stamp, the random bytes and the extension hold no
    slash, a call that has returned success reports a plain file name
    that begins with [screenshot-]; its file lies directly in the root,
    where the listing and the sweep find it, and [getScreenshot] returns
    a buffer for the reported name when the run ends. *)
Theorem reported_name_fetches_the_capture (W : world) (sv : service)
    (calls : list options) (sched : list nat) (i : nat) (t : task)
    (r : success) :
  let s := run W sched {| svc := sv; tasks := call <$> calls |} in
  is_rooted (screenshotPath sv) = true →
  no_slash (iso_at_save W i) = true →
  no_slash (random_hex W i) = true →
  no_slash (extension (outputFormat (destructure (opts t)))) = true →
  tasks s !! i = Some t →
  at_pc t = Done (Success r) →
  plain (filename r) = true
  ∧ filepath r = screenshotPath sv +:+ "/" +:+ filename r
  ∧ candidate (screenshotPath sv) (filepath r) = true
  ∧ ∃ c, (Store.getScreenshot (screenshotPath sv) (fs (svc s)) (filename r)).1
         = Returns (Some c).
Proof.
  intros s Hroot Hiso Hhex Hext Hi Hpc.
  destruct (run_disk_inv W _ calls sched _ (calls_disk_inv W sv calls))
    as (_ & _ & Hinv). fold s in Hinv.
  assert (written t = Some (filename r, filepath r)) as Hw.
  { unfold written. by rewrite Hpc. }
  destruct (Hinv _ _ Hi _ _ Hw) as (Hname & Hpath & Hreg).
  destruct (file_name_plain W i _ Hiso Hhex Hext) as [Hplain Hshot].
  rewrite <- Hname in Hplain, Hshot.
  rewrite join_plain_name in Hpath by done.
  split; [done|]. split; [done|]. split.
  - unfold candidate. rewrite Hpath, plain_name_is_child by done.
    by rewrite basename_below.
  - assert (String.prefix (screenshotPath sv) (filepath r) = true) as Hpre.
    { rewrite Hpath. apply str_prefix_app. }
    unfold Store.getScreenshot. rewrite join_plain_name by done.
    rewrite <- Hpath, Hpre. cbn [negb].
    unfold Fs.existsSync, Fs.readFileSync.
    destruct (Fs.lookup (filepath r) (fs (svc s))) as [[[c|] m]|]; try done.
    by exists c.
Qed.

End Fetch.

Section Leak.
Import Capture.

(** X11.  Whatever the environment does and however the calls
    interleave, the log of a call holds the closing of its browser context
    exactly when the call has returned success: a call that is still
    running has not closed its context, and a call that has returned a
    failure never closes the context it may have opened before. *)
Theorem context_is_closed_on_success_only (W : world) (sv : service)
    (calls : list options) (sched : list nat) (i : nat) (t : task) :
  tasks (run W sched {| svc := sv; tasks := call <$> calls |}) !! i = Some t →
  (ContextClosed ∈ log t ↔ ∃ r, at_pc t = Done (Success r))
  ∧ (∀ m, at_pc t = Done (Failure m) → ContextClosed ∉ log t).
Proof.
  intros Hi.
  assert (log_inv t) as Hinv.
  { eapply Forall_lookup_1; [|exact Hi].
    apply run_log_inv. simpl. apply calls_log_inv. }
  assert (∀ l, held l → ContextClosed ∉ l) as Hheld.
  { by intros l (_ & _ & ?). }
  assert (∀ l e, held l → e ≠ ContextClosed → ContextClosed ∉ l ++ [e]) as Hsnoc.
  { intros l e Hl He. rewrite not_elem_of_app, list_elem_of_singleton.
    split; [by apply Hheld|congruence]. }
  unfold log_inv in Hinv.
  assert ((∃ r, at_pc t = Done (Success r)) ∨ ContextClosed ∉ log t) as Hcases.
  { destruct (at_pc t) as [| |op|buf|op s|[r|m]]; try (right; by apply Hheld).
    - right. rewrite Hinv. apply not_elem_of_nil.
    - right. rewrite Hinv. apply not_elem_of_nil.
    - right. destruct op; try (by apply Hheld);
        destruct Hinv as (l0 & -> & Hl0); by apply Hsnoc.
    - left. by exists r.
    - right. destruct Hinv as [->|(l0 & -> & Hl0)];
        [apply not_elem_of_nil|by apply Hsnoc]. }
  split; [split|].
  - intros Hin. by destruct Hcases.
  - intros [r Hr]. rewrite Hr in Hinv. destruct Hinv as (l0 & -> & _).
    apply elem_of_app. right.
    apply list_elem_of_further, list_elem_of_here.
  - intros m Hm. destruct Hcases as [[r Hr]|]; [congruence|done].
Qed.

End Leak.

Section CaptureStalls.
Import Capture.

Lemma stalled_lookup p sched calls i :
  stalled p sched calls !! i
  = (λ o, {| opts := o;
             at_pc := if bool_decide (i ∈ sched) then p else NotCalled;
             log := [] |}) <$> calls !! i.
Proof. unfold stalled. by rewrite list_lookup_imap. Qed.

Lemma stalled_none p (calls : list options) : stalled p [] calls = call <$> calls.
Proof.
  apply list_eq. intros i. rewrite stalled_lookup, list_lookup_fmap.
  by destruct (calls !! i).
Qed.

(** A run in which every turn of a call that has not started, or stands
    at [p], leaves the service alone and the call at [p]. *)
Lemma run_stalled W sv (p : pc) (calls : list options) :
  (∀ j o q, q = NotCalled ∨ q = p →
     captureScreenshot W j sv {| opts := o; at_pc := q; log := [] |}
     = (sv, {| opts := o; at_pc := p; log := [] |})) →
  ∀ sched past,
    run W sched {| svc := sv; tasks := stalled p past calls |}
    = {| svc := sv; tasks := stalled p (reverse sched ++ past) calls |}.
Proof.
  intros Hturn sched. induction sched as [|j sched IH]; intros past; [done|].
  cbn [run fold_left]. unfold run in IH.
  assert (step W {| svc := sv; tasks := stalled p past calls |} j
          = {| svc := sv; tasks := stalled p (j :: past) calls |}) as ->.
  { unfold step. cbn [tasks svc]. rewrite stalled_lookup.
    destruct (calls !! j) as [o|] eqn:Hj; simpl.
    - rewrite Hturn by (case_bool_decide; auto). f_equal.
      apply list_eq. intros i. rewrite stalled_lookup.
      destruct (decide (i = j)) as [->|Hne].
      + rewrite list_lookup_insert_eq.
        2: { unfold stalled. rewrite length_imap. by eapply lookup_lt_Some. }
        rewrite Hj. simpl.
        by rewrite bool_decide_eq_true_2 by apply list_elem_of_here.
      + rewrite list_lookup_insert_ne, stalled_lookup by done.
        destruct (calls !! i); [|done]. simpl.
        assert (bool_decide (i ∈ j :: past) = bool_decide (i ∈ past)) as ->; [|done].
        apply bool_decide_ext. rewrite elem_of_cons.
        split; [by intros [?|?]|auto].
    - f_equal. apply list_eq. intros i. rewrite !stalled_lookup.
      destruct (calls !! i) eqn:Hi; [|done]. simpl.
      assert (bool_decide (i ∈ j :: past) = bool_decide (i ∈ past)) as ->; [|done].
      apply bool_decide_ext. rewrite elem_of_cons.
      split; [|auto]. intros [->|?]; [congruence|done]. }
  rewrite IH. do 2 f_equal. by rewrite reverse_cons, <- app_assoc.
Qed.

Lemma stalled_ext p d1 d2 (calls : list options) :
  (∀ i, i ∈ d1 ↔ i ∈ d2) → stalled p d1 calls = stalled p d2 calls.
Proof.
  intros H. apply list_eq. intros i. rewrite !stalled_lookup.
  destruct (calls !! i); [|done]. simpl.
  by rewrite (bool_decide_ext _ _ (H i)).
Qed.

(** X12.  While [this.browser] is null - before [initialize] has
    succeeded, or after [close] - no call captures anything: every call
    that has had a turn has returned the failure [Browser not initialized]
    without logging a step, the others have not started, and the service,
    its counter and its disk are as they were. *)
Theorem no_browser_no_capture (W : world) (sv : service)
    (calls : list options) (sched : list nat) :
  browser sv = false →
  run W sched {| svc := sv; tasks := call <$> calls |}
  = {| svc := sv;
       tasks := stalled (Done (Failure "Browser not initialized")) sched
                  calls |}.
Proof.
  intros Hb. rewrite <- (stalled_none (Done (Failure "Browser not initialized"))).
  rewrite run_stalled.
  - f_equal. apply stalled_ext. intros i.
    by rewrite app_nil_r, elem_of_reverse.
  - intros j o q [-> | ->]; unfold captureScreenshot; cbn [at_pc]; [|done].
    by rewrite Hb.
Qed.

(** X13.  When the counter is not below the bound while no call holds a
    slot - which is the case from the start when [maxConcurrent] is 0 or
    negative, a value the constructor lets through - no call ever leaves
    the wait loop: every call that has had a turn is in the 100 ms wait
    without having logged a step, and the service is as it was. *)
Theorem exhausted_bound_starves_every_call (W : world) (sv : service)
    (calls : list options) (sched : list nat) :
  browser sv = true →
  maxConcurrent sv ≤ activeCaptures sv →
  run W sched {| svc := sv; tasks := call <$> calls |}
  = {| svc := sv; tasks := stalled Throttled sched calls |}.
Proof.
  intros Hb Hfull. rewrite <- (stalled_none Throttled).
  rewrite run_stalled.
  - f_equal. apply stalled_ext. intros i.
    by rewrite app_nil_r, elem_of_reverse.
  - apply Z.leb_le in Hfull.
    intros j o q [-> | ->]; unfold captureScreenshot, enter; cbn [at_pc];
      by rewrite ?Hb, Hfull.
Qed.

Lemma renders_below s i t :
  tasks s !! i = Some t → in_flight t = false →
  renders s ≤ Z.of_nat (length (tasks s)) - 1.
Proof.
  unfold renders. generalize (tasks s). intros l. revert i.
  induction l as [|a l IH]; intros i Hi Ht; [done|].
  rewrite filter_cons. destruct i as [|i]; simpl in Hi.
  - simplify_eq. rewrite decide_False by congruence.
    pose proof (length_filter (λ t, in_flight t = true) l). simpl. lia.
  - specialize (IH _ Hi Ht). destruct (decide _); simpl; lia.
Qed.

Lemma turn_never_waits W i s t :
  at_pc t ≠ Throttled →
  (at_pc t = NotCalled → activeCaptures s < maxConcurrent s) →
  at_pc (captureScreenshot W i s t).2 ≠ Throttled.
Proof.
  intros Hpc Hfree. unfold captureScreenshot.
  assert (∀ buf evs, at_pc (save W i buf evs s t).2 ≠ Throttled) as Hsave.
  { intros buf evs. unfold save.
    destruct (write_fails W i); [done|].
    by destruct (Fs.writeFileSync _ _ _ _) as [? [[]|?]]. }
  destruct (at_pc t) as [| |op|buf|op sv|r] eqn:Ht; try done.
  - destruct (browser s); cbn [negb]; [|done].
    unfold enter. specialize (Hfree eq_refl). apply Z.leb_gt in Hfree.
    by rewrite Hfree.
  - destruct (rejects W i op); [done|].
    destruct op; cbn [snd goto at_pc]; try done; try congruence.
    + unfold after_viewport, after_theme.
      by destruct (Js.strict_eq _ _); [|destruct (Js.truthy _)].
    + unfold after_theme. by destruct (Js.truthy _).
    + destruct (_ || _); [done|apply Hsave].
  - destruct (if is_bmp _ then _ else _); [apply Hsave|done].
  - destruct (rejects W i op); [done|]. by destruct op.
  - cbn [snd]. congruence.
Qed.

Lemma step_length W s i : length (tasks (step W s i)) = length (tasks s).
Proof.
  unfold step. destruct (tasks s !! i); [|done].
  destruct (captureScreenshot _ _ _ _). cbn [tasks]. by rewrite length_insert.
Qed.

Lemma step_never_waits W s i :
  throttle_inv s →
  Z.of_nat (length (tasks s)) ≤ maxConcurrent (svc s) →
  Forall (λ t, at_pc t ≠ Throttled) (tasks s) →
  Forall (λ t, at_pc t ≠ Throttled) (tasks (step W s i)).
Proof.
  intros [Hact Hle] Hroom Hall. unfold step.
  destruct (tasks s !! i) as [t|] eqn:Hi; [|done].
  pose proof (turn_never_waits W i (svc s) t) as H.
  destruct (captureScreenshot W i (svc s) t) as [sv t']. cbn [tasks snd] in *.
  apply Forall_insert; [done|]. apply H.
  - by eapply Forall_lookup_1 in Hall.
  - intros Hpc. pose proof (renders_below s i t Hi) as Hr.
    unfold in_flight in Hr. rewrite Hpc in Hr. specialize (Hr eq_refl). lia.
Qed.

(** X14.  With no more calls than [maxConcurrent], and the counter at 0
    when they start, no call ever waits: whatever the environment does and
    however the calls interleave, no call is found in the wait loop. *)
Theorem enough_slots_nobody_waits (W : world) (sv : service)
    (calls : list options) (sched : list nat) :
  Z.of_nat (length calls) ≤ maxConcurrent sv →
  activeCaptures sv = 0 →
  Forall (λ t, at_pc t ≠ Throttled)
    (tasks (run W sched {| svc := sv; tasks := call <$> calls |})).
Proof.
  intros Hroom Hzero.
  set (s0 := {| svc := sv; tasks := call <$> calls |}).
  assert (throttle_inv s0) as Hinv.
  { unfold throttle_inv, renders; simpl.
    rewrite no_call_in_flight. simpl. lia. }
  assert (Z.of_nat (length (tasks s0)) ≤ maxConcurrent (svc s0)) as Hlen.
  { simpl. by rewrite length_fmap. }
  assert (Forall (λ t, at_pc t ≠ Throttled) (tasks s0)) as Hall.
  { simpl. apply Forall_fmap, Forall_forall. by intros. }
  clearbody s0. revert s0 Hinv Hlen Hall.
  induction sched as [|i sched IH]; intros s0 Hinv Hlen Hall; [done|].
  cbn [run fold_left]. apply IH.
  - by apply step_preserves_inv.
  - by rewrite step_length, step_keeps_bound.
  - by apply step_never_waits.
Qed.

End CaptureStalls.

Section CreatedProfiles.
Import Profiles.

Lemma guard_nil {A} (c : bool) (x : A) : (if c then [x] else []) = [] → c = false.
Proof. by destruct c. Qed.

Lemma valid_checks st config :
  valid st config = true →
  let cfg k := get st config k in
  (Js.truthy (cfg "url") = true ∧ Js.typeof (cfg "url") = "string")
  ∧ (Js.truthy (cfg "name") = true ∧ Js.typeof (cfg "name") = "string")
  ∧ Js.truthy (cfg "width") && not_number_within (cfg "width") 100 4000 = false
  ∧ Js.truthy (cfg "height") && not_number_within (cfg "height") 100 4000 = false
  ∧ Js.truthy (cfg "theme")
    && negb (Js.includes ["light"; "dark"] (cfg "theme")) = false
  ∧ Js.truthy (cfg "refreshInterval")
    && (negb (String.eqb (Js.typeof (cfg "refreshInterval")) "number")
        || match cfg "refreshInterval" with JNum n => n <? 0 | _ => false end)
    = false
  ∧ Js.truthy (cfg "outputFormat")
    && negb (Js.includes ["png"; "jpeg"; "bmp3"; "bmp"] (cfg "outputFormat"))
    = false.
Proof.
  intros H cfg. apply bool_decide_eq_true in H.
  unfold validateProfile in H. fold cfg in H.
  repeat (apply app_eq_nil in H as [?%guard_nil H]).
  apply guard_nil in H.
  repeat match goal with
  | H : _ || _ = false |- _ => apply orb_false_iff in H as [? ?]
  | H : negb _ = false |- _ => apply negb_false_iff in H
  | H : String.eqb _ _ = true |- _ => apply String.eqb_eq in H
  end.
  done.
Qed.

Lemma new_profile_fields st id now config :
  let cfg k := get st config k in
  let p := new_profile st id now config in
  p !! "id" = Some (JStr id)
  ∧ p !! "name" = Some (Js.or (cfg "name")
                          (JStr ("Profile " +:+ String.substring 0 4 id)))
  ∧ p !! "url" = Some (Js.or (cfg "url")
                         (JStr "http://homeassistant.local:8123/lovelace/default"))
  ∧ p !! "width" = Some (Js.or (cfg "width") (JNum 800))
  ∧ p !! "height" = Some (Js.or (cfg "height") (JNum 480))
  ∧ p !! "theme" = Some (Js.or (cfg "theme") (JStr "light"))
  ∧ p !! "refreshInterval" = Some (Js.or (cfg "refreshInterval") (JNum 0))
  ∧ p !! "outputFormat" = Some (Js.or (cfg "outputFormat") (JStr "png"))
  ∧ p !! "enabled"
    = Some (JBool (negb (Js.strict_eq (cfg "enabled") (JBool false))))
  ∧ p !! "description" = Some (Js.or (cfg "description") (JStr ""))
  ∧ p !! "created" = Some (JStr now)
  ∧ p !! "lastRun" = Some JNull
  ∧ p !! "lastSuccess" = Some JNull
  ∧ p !! "failureCount" = Some (JNum 0).
Proof.
  intros cfg p. subst p. unfold new_profile. fold cfg.
  cbn [list_to_map foldr fst snd].
  repeat split;
    repeat (rewrite lookup_insert_ne by done); by rewrite lookup_insert_eq.
Qed.

Lemma or_number_within v lo hi d :
  lo ≤ d ≤ hi →
  Js.truthy v && not_number_within v lo hi = false →
  ∃ n, Js.or v (JNum d) = JNum n ∧ lo ≤ n ≤ hi.
Proof.
  intros Hd. unfold Js.or, not_number_within.
  destruct v as [| |[]|n| |s]; simpl; try (by exists d); try done.
  - destruct (n =? 0) eqn:H0; simpl; [by exists d|].
    intros [?%Z.ltb_ge ?%Z.ltb_ge]%orb_false_iff. exists n. split; [done|lia].
  - destruct (String.eqb s ""); simpl; [by exists d|done].
Qed.

Lemma or_string_among v (l : list string) d :
  d ∈ l →
  Js.truthy v && negb (Js.includes l v) = false →
  ∃ s, Js.or v (JStr d) = JStr s ∧ s ∈ l.
Proof.
  intros Hd. unfold Js.or, Js.includes.
  destruct v as [| |[]|n| |s]; simpl; try (by exists d); try done.
  - destruct (n =? 0); simpl; [by exists d|done].
  - destruct (String.eqb s "") eqn:Hs; simpl; [by exists d|].
    intros H%negb_false_iff%bool_decide_eq_true. by exists s.
Qed.

Lemma truthy_string v :
  Js.truthy v = true → Js.typeof v = "string" → ∃ s, v = JStr s ∧ s ≠ "".
Proof.
  destruct v as [| |[]|n| |s]; simpl; try done.
  intros H%negb_true_iff%String.eqb_neq _. by exists s.
Qed.

Lemma createProfile_completion st id now config :
  (createProfile id now config st).2
  = match disk_error st with
    | None => Returns (new_profile st id now config)
    | Some e => Throws e
    end.
Proof.
  unfold createProfile, bind, current, modify, ret, saveProfiles.
  cbn [fst snd with_profiles disk_error]. by destruct (disk_error st).
Qed.

Lemma valid_in_range st id now config :
  valid st config = true → in_range (new_profile st id now config).
Proof.
  intros Hvalid.
  destruct (valid_checks _ _ Hvalid)
    as ((Hu1 & Hu2) & (Hn1 & Hn2) & Hw & Hh & Ht & Hr & Hf).
  destruct (new_profile_fields st id now config)
    as (_ & Fn & Fu & Fw & Fh & Ft & Fr & Ff & Fe & _).
  unfold in_range.
  rewrite Fn, Fu, Fw, Fh, Ft, Fr, Ff, Fe. unfold Js.or at 1 2.
  rewrite Hu1, Hn1.
  destruct (truthy_string _ Hu1 Hu2) as (u & -> & Hu).
  destruct (truthy_string _ Hn1 Hn2) as (n & -> & Hn).
  split; [by exists u|]. split; [by exists n|].
  split.
  { destruct (or_number_within _ 100 4000 800 ltac:(lia) Hw) as (w & -> & ?).
    by exists w. }
  split.
  { destruct (or_number_within _ 100 4000 480 ltac:(lia) Hh) as (h & -> & ?).
    by exists h. }
  split.
  { destruct (or_string_among _ ["light"; "dark"] "light"
                ltac:(apply list_elem_of_here) Ht) as (t & -> & ?).
    by exists t. }
  split.
  { clear -Hr. unfold Js.or.
    destruct (get st config "refreshInterval") as [| |[]|k| |s]; simpl in *;
      try (by exists 0); try done.
    - destruct (k =? 0) eqn:H0; simpl in *; [by exists 0|].
      apply Z.ltb_ge in Hr. by exists k.
    - destruct (String.eqb s ""); simpl in *; [by exists 0|done]. }
  split.
  { destruct (or_string_among _ ["png"; "jpeg"; "bmp3"; "bmp"] "png"
                ltac:(apply list_elem_of_here) Hf) as (f & -> & ?).
    by exists f. }
  by eexists.
Qed.

(** X15.  [handleCreateProfile] answers a request that fails the
    validation with 400 and the list of violations, which is not empty,
    and leaves the store as it was.  A request that passes is answered
    with 201 and the new profile when the disk takes the write, and with
    500 and the error of the disk when it does not; either way the
    profile is then in the store under the new identifier with every
    checked field in range: [url] and [name] are strings that are not
    empty, [width] and [height] numbers from 100 to 4000, [theme] is light
    or dark, [refreshInterval] a number that is not negative,
    [outputFormat] one of the four formats, and [enabled] a boolean - a
    field that the request left out, or gave as 0 or the empty string,
    holding its default.  So the answer is 201 exactly for a valid request
    on a disk that takes the write, and 400 exactly for an invalid one. *)
Theorem created_profiles_are_in_range (id now : string) (body : jsobj)
    (st : state) :
  let r := Server.handleCreateProfile id now body st in
  (valid st body = false →
   validateProfile st body ≠ []
   ∧ r = (st, {| Server.status := 400;
                 Server.json := Server.JsonErrors (validateProfile st body) |}))
  ∧ (valid st body = true →
     r.2 = match disk_error st with
           | None => {| Server.status := 201;
                        Server.json := Server.JsonObject (OwnProfile id) |}
           | Some e => {| Server.status := 500;
                          Server.json := Server.JsonError (message e) |}
           end
     ∧ profiles r.1 = <[id := new_profile st id now body]> (profiles st)
     ∧ in_range (new_profile st id now body))
  ∧ (Server.status r.2 = 201 ↔ valid st body = true ∧ disk_error st = None)
  ∧ (Server.status r.2 = 400 ↔ valid st body = false).
Proof.
  intros r. subst r. unfold Server.handleCreateProfile.
  pose proof (createProfile_profiles st id now body) as Hprof.
  pose proof (createProfile_completion st id now body) as Hres.
  destruct (valid st body) eqn:Hvalid; cbn [negb].
  - destruct (createProfile id now body st) as [st' c].
    cbn [fst snd] in Hprof, Hres. subst c.
    split; [done|]. split.
    { intros _. split; [|split; [|by apply valid_in_range]].
      - by destruct (disk_error st).
      - by destruct (disk_error st). }
    destruct (disk_error st); cbn [fst snd Server.status]; split;
      split; try done; try by intros [_ ?]. 
  - split.
    { intros _. split; [|done].
      apply bool_decide_eq_false in Hvalid. done. }
    split; [done|]. cbn [fst snd Server.status].
    split; split; try done. by intros [? _].
Qed.

Lemma created_profiles_are_in_range_witness :
  let r := Server.handleCreateProfile kitchen_id "2025-11-23T23:00:00.000Z"
             kitchen_config empty_store in
  valid empty_store kitchen_config = true
  ∧ Server.status r.2 = 201
  ∧ in_range (new_profile empty_store kitchen_id "2025-11-23T23:00:00.000Z"
                kitchen_config).
Proof.
  intros r.
  assert (valid empty_store kitchen_config = true) as Hv by (by vm_compute).
  split; [exact Hv|].
  destruct (created_profiles_are_in_range kitchen_id
              "2025-11-23T23:00:00.000Z" kitchen_config empty_store)
    as (_ & H & _).
  destruct (H Hv) as (Hr & _ & Hin). split; [|exact Hin].
  fold r in Hr. by rewrite Hr.
Defined.

End CreatedProfiles.

Section Persistence.
Import Profiles.

Lemma to_json_lookup o k :
  to_json o !! k
  = match o !! k with
    | Some JUndefined | None => None
    | Some JNaN => Some JNull
    | Some v => Some v
    end.
Proof.
  unfold to_json. rewrite lookup_fmap, map_lookup_filter.
  destruct (o !! k) as [v|]; [|done]. simpl.
  destruct v; simpl; try done;
    by rewrite option_guard_True by done.
Qed.

Lemma to_json_clean o :
  (∀ k v, o !! k = Some v → v ≠ JUndefined ∧ v ≠ JNaN) → to_json o = o.
Proof.
  intros H. apply map_eq. intros k. rewrite to_json_lookup.
  destruct (o !! k) as [v|] eqn:Hk; [|done].
  destruct (H _ _ Hk). by destruct v.
Qed.

Lemma to_json_is_clean o k v :
  to_json o !! k = Some v → v ≠ JUndefined ∧ v ≠ JNaN.
Proof.
  rewrite to_json_lookup. destruct (o !! k) as [[]|]; intros; by simplify_eq.
Qed.

Lemma to_json_idemp o : to_json (to_json o) = to_json o.
Proof. apply to_json_clean. apply to_json_is_clean. Qed.

Lemma or_clean v d :
  d ≠ JUndefined → d ≠ JNaN → Js.or v d ≠ JUndefined ∧ Js.or v d ≠ JNaN.
Proof. unfold Js.or. by destruct v as [| |[]| | |]; simpl; try case_match. Qed.

Lemma new_profile_clean st id now config k v :
  new_profile st id now config !! k = Some v → v ≠ JUndefined ∧ v ≠ JNaN.
Proof.
  unfold new_profile. intros H%elem_of_list_to_map_2.
  repeat (apply elem_of_cons in H as [H|H];
          [injection H as -> ->; first [done | by apply or_clean]|]).
  by apply elem_of_nil in H.
Qed.

Lemma restart_profiles st j :
  profiles_json st = Some j →
  profiles (restart st) = j
  ∧ object_prototype (restart st) = ∅
  ∧ profiles_json (restart st) = Some j
  ∧ disk_error (restart st) = disk_error st.
Proof.
  intros H. unfold restart, profiles_file, new_manager, construct.
  by rewrite H.
Qed.

Lemma createProfile_saved st id now config :
  disk_error st = None →
  createProfile id now config st
  = (with_profiles_json
       (Some (to_json <$> <[id := new_profile st id now config]> (profiles st)))
       (with_profiles (insert id (new_profile st id now config)) st),
     Returns (new_profile st id now config)).
Proof.
  intros Hd. unfold createProfile, bind, current, modify, ret.
  by rewrite saveProfiles_written.
Qed.

(** X16.  When the disk takes the write, the profile [createProfile]
    returns survives the end of the process: a manager built afterwards
    over the same file holds under the same identifier a profile equal to
    it in every field, and [getProfile] finds it.  The manager holds every
    profile of the old one as [JSON.stringify] wrote it (properties that
    were [undefined] gone, NaN turned into [null]), and building yet
    another manager changes nothing more. *)
Theorem created_profile_survives_restart (st : state) (id now : string)
    (config : jsobj) :
  disk_error st = None →
  let r := createProfile id now config st in
  let st' := restart r.1 in
  r.2 = Returns (new_profile st id now config)
  ∧ profiles st' = to_json <$> profiles r.1
  ∧ profiles st' !! id = Some (new_profile st id now config)
  ∧ getProfile st' id = Some (OwnProfile id)
  ∧ profiles (restart st') = profiles st'.
Proof.
  intros Hd r st'. subst st' r. rewrite (createProfile_saved _ _ _ _ Hd).
  cbn [fst snd].
  set (J := to_json <$> <[id := new_profile st id now config]> (profiles st)).
  set (saved := with_profiles_json (Some J) _).
  destruct (restart_profiles saved J eq_refl) as (Hp & _ & Hj & _).
  rewrite Hp. split; [done|]. split; [done|]. subst J.
  assert ((to_json <$> <[id := new_profile st id now config]> (profiles st))
            !! id = Some (new_profile st id now config)) as Hid.
  { rewrite lookup_fmap, lookup_insert_eq. simpl. f_equal.
    apply to_json_clean. apply new_profile_clean. }
  split; [done|]. split.
  - unfold getProfile, lookup. rewrite Hp, Hid. done.
  - destruct (restart_profiles (restart saved) _ Hj) as (Hp' & _).
    by rewrite Hp'.
Qed.

(** X17.  The constructor never fails: [loadProfiles], the one call it
    makes, returns normally whatever lies at [profilesPath], whatever the
    store held and whether or not the disk takes writes.  With a document
    at [profilesPath] the store holds what the document says.  With no
    file the store starts empty and the file is created holding the empty
    object, unless the disk refuses, in which case the store is empty all
    the same.  With a file that cannot be read or parsed the store starts
    empty and the file is not touched; the first write that succeeds then
    replaces it with what the store holds. *)
Theorem constructor_starts_empty (e : thrown) (disk_error : option thrown)
    (id now : string) (config : jsobj) :
  let fresh := new_manager Missing disk_error in
  let broken := new_manager (Unreadable e) None in
  (∀ file, (construct file disk_error).2 = Returns tt)
  ∧ (∀ file st, (loadProfiles file st).2 = Returns tt)
  ∧ (∀ j, profiles (new_manager (Document j) disk_error) = j)
  ∧ profiles fresh = ∅
  ∧ profiles_json fresh
    = match disk_error with None => Some ∅ | Some _ => None end
  ∧ profiles broken = ∅
  ∧ profiles_json broken = None
  ∧ profiles_json (createProfile id now config broken).1
    = Some {[ id := new_profile broken id now config ]}.
Proof.
  intros fresh broken.
  assert (∀ file st, (loadProfiles file st).2 = Returns tt) as Hload.
  { intros [| |] st; unfold loadProfiles; [|done..].
    by destruct (saveProfiles _) as [? [|]]. }
  split; [intros file; apply Hload|]. split; [exact Hload|].
  split; [done|].
  split; [by destruct disk_error|]. split; [by destruct disk_error|].
  split; [done|]. split; [done|].
  rewrite createProfile_saved by done. cbn [fst profiles_json with_profiles_json].
  f_equal. change (profiles broken) with (∅ : gmap string jsobj).
  rewrite insert_empty, map_fmap_singleton. f_equal.
  apply to_json_clean. apply new_profile_clean.
Qed.

End Persistence.

Section Deletion.
Import Profiles.

Lemma ordinary_absent st id :
  profiles st !! id = None → ordinary st id = true →
  target_truthy (lookup st id) = false.
Proof.
  unfold ordinary. rewrite !andb_true_iff, negb_true_iff.
  intros Hp ((Hm%bool_decide_eq_true & Hproto%String.eqb_neq)
             & Ho%bool_decide_eq_true).
  by apply lookup_absent.
Qed.

Lemma deleteProfile_own st id p :
  profiles st !! id = Some p →
  deleteProfile id st
  = match saveProfiles (with_profiles (delete id) st) with
    | (st', Returns _) => (st', Returns true)
    | (st', Throws e) => (st', Throws e)
    end.
Proof.
  intros Hp. unfold deleteProfile, bind at 1, current, lookup. rewrite Hp.
  cbn [target_truthy negb]. unfold bind, modify, ret.
  by destruct (saveProfiles _) as [? [[]|?]].
Qed.

Lemma deleteProfile_absent st id :
  target_truthy (lookup st id) = false →
  deleteProfile id st = (st, Returns false).
Proof.
  intros H. unfold deleteProfile, bind, current. by rewrite H.
Qed.

Lemma deleteProfile_store st id p :
  profiles st !! id = Some p →
  profiles (deleteProfile id st).1 = delete id (profiles st)
  ∧ object_prototype (deleteProfile id st).1 = object_prototype st.
Proof.
  intros Hp. rewrite (deleteProfile_own _ _ _ Hp).
  unfold saveProfiles. by destruct (disk_error _).
Qed.

(** X18.  For a profile of the store [deleteProfile] removes that
    profile and no other, also when writing the file fails afterwards;
    when the disk takes the write it returns [true] and the file holds
    the remaining profiles.  When nothing is inherited under the
    identifier, the profile cannot be found afterwards and a second
    [deleteProfile] returns [false] and leaves everything as it is.  A
    profile that is created and deleted again leaves the store holding
    what it held before. *)
Theorem deleteProfile_removes_one_profile (st : state) (id : string)
    (p : jsobj) :
  profiles st !! id = Some p →
  let r := deleteProfile id st in
  profiles r.1 = delete id (profiles st)
  ∧ (disk_error st = None →
     r.2 = Returns true
     ∧ profiles_json r.1 = Some (to_json <$> delete id (profiles st)))
  ∧ (ordinary st id = true →
     getProfile r.1 id = None
     ∧ deleteProfile id r.1 = (r.1, Returns false))
  ∧ (∀ id' now config,
       profiles st !! id' = None →
       profiles (deleteProfile id' (createProfile id' now config st).1).1
       = profiles st).
Proof.
  intros Hp r. subst r. rewrite (deleteProfile_own _ _ _ Hp).
  assert (∀ st0, profiles (match saveProfiles st0 with
                           | (st', Returns _) => (st', Returns true)
                           | (st', Throws e) => (st', Throws e)
                           end).1 = profiles st0
                 ∧ object_prototype (match saveProfiles st0 with
                           | (st', Returns _) => (st', Returns true)
                           | (st', Throws e) => (st', Throws e)
                           end).1 = object_prototype st0) as Hsave.
  { intros st0. unfold saveProfiles. by destruct (disk_error st0). }
  destruct (Hsave (with_profiles (delete id) st)) as [Hprof Hproto].
  split; [exact Hprof|]. split; [|split].
  - intros Hd. by rewrite saveProfiles_written.
  - intros Hord.
    assert (target_truthy
              (lookup (match saveProfiles (with_profiles (delete id) st) with
                       | (st', Returns _) => (st', Returns true)
                       | (st', Throws e) => (st', Throws e)
                       end).1 id) = false) as Habs.
    { apply ordinary_absent.
      - rewrite Hprof. cbn [profiles with_profiles]. apply lookup_delete_eq.
      - unfold ordinary in *. by rewrite Hproto. }
    split; [unfold getProfile; by rewrite Habs|by apply deleteProfile_absent].
  - intros id' now config Hnone.
    pose proof (createProfile_profiles st id' now config) as Hc.
    rewrite (deleteProfile_own _ _ (new_profile st id' now config)).
    2: { rewrite Hc. apply lookup_insert_eq. }
    destruct (Hsave (with_profiles (delete id')
                       (createProfile id' now config st).1)) as [-> _].
    cbn [profiles with_profiles]. rewrite Hc.
    by rewrite delete_insert_eq, delete_id.
Qed.

(** X19.  An identifier that names no profile and under which nothing is
    inherited is turned down everywhere and changes nothing: [getProfile]
    gives [null], [updateProfile] throws [Profile not found] with the
    identifier, [deleteProfile] returns [false], [recordCapture] returns
    without a write, and the four handlers that take the identifier answer
    404. *)
Theorem unknown_identifier_changes_nothing (st : state) (id : string)
    (now now1 now2 : string) (updates : jsobj) (success : bool)
    (haToken : jsval) :
  profiles st !! id = None →
  ordinary st id = true →
  getProfile st id = None
  ∧ updateProfile now id updates st
    = (st, Throws (Error ("Profile not found: " +:+ id)))
  ∧ deleteProfile id st = (st, Returns false)
  ∧ recordCapture now1 now2 id success st = (st, Returns tt)
  ∧ Server.handleGetProfile id st
    = Server.SendJson 404 (Server.ErrorMessage "Profile not found")
  ∧ Server.handleUpdateProfile now id updates st
    = (st, {| Server.status := 404;
              Server.json := Server.JsonError "Profile not found" |})
  ∧ Server.handleDeleteProfile id st
    = (st, Server.SendJson 404 (Server.ErrorMessage "Profile not found"))
  ∧ Server.handleCaptureProfile_request haToken id st
    = inl (Server.SendJson 404 (Server.ErrorMessage "Profile not found")).
Proof.
  intros Hp Hord. pose proof (ordinary_absent _ _ Hp Hord) as Habs.
  assert (getProfile st id = None) as Hget.
  { unfold getProfile. by rewrite Habs. }
  split; [done|]. split.
  { unfold updateProfile, bind, current. by rewrite Habs. }
  split; [by apply deleteProfile_absent|].
  split; [by apply recordCapture_absent|].
  split; [unfold Server.handleGetProfile; by rewrite Hget|].
  split; [unfold Server.handleUpdateProfile; by rewrite Hget|].
  split.
  - unfold Server.handleDeleteProfile. by rewrite deleteProfile_absent.
  - unfold Server.handleCaptureProfile_request. by rewrite Hget.
Qed.


End Deletion.

Section Streaks.
Import Profiles.

(** X21.  For a profile of the store whose [failureCount] is a number,
    any sequence of [recordCapture] calls leaves in [failureCount] the
    number of failures since the last success of the sequence, added to
    the count before when the sequence holds no success; this holds
    whether or not the writes to disk succeed. *)
Theorem failureCount_counts_the_streak (st : state) (id : string)
    (p : jsobj) (k : Z) (runs : list (string * string * bool)) :
  profiles st !! id = Some p →
  get st p "failureCount" = JNum k →
  ∃ p', profiles (recordCaptures id runs st) !! id = Some p'
    ∧ get (recordCaptures id runs st) p' "failureCount"
      = JNum (streak k runs).
Proof.
  revert st p k. induction runs as [|[[now1 now2] ok] runs IH];
    intros st p k Hp Hk.
  - exists p. done.
  - cbn [recordCaptures streak].
    pose proof (recordCapture_profiles st id p now1 now2 ok Hp) as H1.
    pose proof (recordCapture_prototype st id p now1 now2 ok Hp) as H2.
    set (st1 := (recordCapture now1 now2 id ok st).1) in *.
    assert (profiles st1 !! id = Some (recorded st now1 now2 ok p)) as Hp1.
    { rewrite H1. apply lookup_insert_eq. }
    destruct ok.
    + apply (IH st1 _ 0 Hp1). unfold get.
      by destruct (recorded_success st now1 now2 p) as [-> _].
    + apply (IH st1 _ (k + 1) Hp1). unfold get.
      by destruct (recorded_failure st now1 now2 p k Hk) as [-> _].
Qed.

End Streaks.

Section ProfileCaptures.
Import Profiles.

(** X22.  [handleCaptureProfile] passes the stored [url], [width],
    [height], [theme] and [outputFormat] of the profile to the capture as
    they are, with the token of the server.  When the capture has
    resolved and the profile is still in the store, the outcome is
    recorded on it, and the answer is the result with status 200 for a
    success and 400 for a failure; but when the disk refuses the write of
    the run history the answer is 500 with the error of the disk, also
    after a capture that succeeded.  When the profile has meanwhile been
    deleted the answer is the result and the store is left alone. *)
Theorem capture_of_a_profile_is_recorded (st : state) (id : string)
    (p : jsobj) (haToken : jsval) (now1 now2 : string)
    (result : Capture.result) :
  profiles st !! id = Some p →
  let success :=
    match result with Capture.Success _ => true | _ => false end in
  let answer :=
    Server.SendJson (if success then 200 else 400)
      (Server.CaptureResult result) in
  let r := Server.handleCaptureProfile_response now1 now2 id result st in
  Server.handleCaptureProfile_request haToken id st
  = inr {| Capture.url := get st p "url";
           Capture.width := get st p "width";
           Capture.height := get st p "height";
           Capture.theme := get st p "theme";
           Capture.haToken := haToken;
           Capture.outputFormat := get st p "outputFormat" |}
  ∧ profiles r.1 = <[id := recorded st now1 now2 success p]> (profiles st)
  ∧ (disk_error st = None → r.2 = answer)
  ∧ (∀ e, disk_error st = Some e →
          r.2 = Server.SendJson 500 (Server.ErrorMessage (message e)))
  ∧ (ordinary st id = true →
     let gone := (deleteProfile id st).1 in
     Server.handleCaptureProfile_response now1 now2 id result gone
     = (gone, answer)).
Proof.
  intros Hp success answer r.
  split.
  { unfold Server.handleCaptureProfile_request, getProfile, lookup.
    rewrite Hp. cbn [target_truthy target_get]. by rewrite Hp. }
  assert (Server.handleCaptureProfile_response now1 now2 id result st
          = match recordCapture now1 now2 id success st with
            | (st', Returns _) => (st', answer)
            | (st', Throws e) =>
                (st', Server.SendJson 500 (Server.ErrorMessage (message e)))
            end) as Hr.
  { unfold Server.handleCaptureProfile_response. fold success.
    destruct (recordCapture _ _ _ _ _) as [st' [[]|e]]; [|done].
    unfold answer. by destruct success. }
  subst r. rewrite Hr.
  pose proof (recordCapture_profiles st id p now1 now2 success Hp) as Hprof.
  rewrite (recordCapture_own _ _ _ _ _ _ Hp) in *.
  split.
  { by destruct (saveProfiles _) as [? [[]|?]]. }
  split.
  { intros Hd. by rewrite saveProfiles_written. }
  split.
  { intros e Hd. unfold saveProfiles. cbn [disk_error with_profiles].
    by rewrite Hd. }
  intros Hord gone.
  unfold Server.handleCaptureProfile_response.
  rewrite recordCapture_absent; [by destruct result|].
  destruct (deleteProfile_store st id p Hp) as [Hprof' Hproto].
  apply ordinary_absent.
  - unfold gone. rewrite Hprof'. apply lookup_delete_eq.
  - unfold ordinary, gone in *. by rewrite Hproto.
Qed.

End ProfileCaptures.

Section ProfileLists.
Import Profiles.
Variable StringToNumber : string → option Z.
Variable Date_parse : string → option Z.

Lemma filter_filter_sub {A} (P Q : A → Prop) `{∀ x, Decision (P x)}
    `{∀ x, Decision (Q x)} (l : list A) :
  (∀ x, P x → Q x) → filter P l `sublist_of` filter Q l.
Proof.
  intros HPQ. induction l as [|x l IH]; [done|].
  rewrite !filter_cons. destruct (decide (P x)) as [HP|HP].
  - rewrite decide_True by auto. by apply sublist_skip.
  - destruct (decide (Q x)); [by apply sublist_cons|done].
Qed.

(** X23.  [getAllProfiles()] returns every profile of the store once;
    with [enabledOnly] it keeps, in the same order, those whose [enabled]
    is truthy, and every profile [getProfilesToCapture] selects is among
    these.  [handleListProfiles] reports as [total] the length of the list
    it sends, and filters only when the query parameter is exactly
    [true]. *)
Theorem profile_lists_nest (st : state) (now : Z) (enabled : option string) :
  (∀ p, p ∈ getAllProfiles st false ↔ ∃ id, profiles st !! id = Some p)
  ∧ length (getAllProfiles st false) = size (profiles st)
  ∧ (∀ p, p ∈ getAllProfiles st true
          ↔ p ∈ getAllProfiles st false
            ∧ Js.truthy (get st p "enabled") = true)
  ∧ getAllProfiles st true `sublist_of` getAllProfiles st false
  ∧ getProfilesToCapture StringToNumber Date_parse st now
      `sublist_of` getAllProfiles st true
  ∧ Server.handleListProfiles enabled st
    = let l := getAllProfiles st (bool_decide (enabled = Some "true")) in
      Server.SendJson 200 (Server.ProfileList (Z.of_nat (length l)) l).
Proof.
  unfold getAllProfiles. split; [|split; [|split; [|split; [|split]]]].
  - intros p. rewrite list_elem_of_fmap. split.
    + intros ([id q] & -> & Hin). exists id. by apply elem_of_map_to_list.
    + intros [id Hid]. exists (id, p). split; [done|].
      by apply elem_of_map_to_list.
  - by rewrite length_fmap, length_map_to_list.
  - intros p. rewrite list_elem_of_filter. tauto.
  - apply sublist_filter.
  - unfold getProfilesToCapture. apply filter_filter_sub.
    intros p Hd. unfold due in Hd.
    destruct (Js.truthy (get st p "enabled")); [done|]. simpl in Hd. done.
  - done.
Qed.

End ProfileLists.

(** ** The properties above, each at one input *)

Section Witnesses.

Lemma names_that_do_not_climb_stay_inside_witness :
  is_rooted storage_root = true
  ∧ climbs "shots/./screenshot-a.png" = false
  ∧ Path.within storage_root
      (Path.join storage_root "shots/./screenshot-a.png") = true.
Proof.
  assert (is_rooted storage_root = true) as H1 by reflexivity.
  assert (climbs "shots/./screenshot-a.png" = false) as H2 by reflexivity.
  split; [exact H1|]. split; [exact H2|].
  exact (proj1 (names_that_do_not_climb_stay_inside storage_root disk _ H1 H2)).
Defined.

Lemma plain_names_address_entries_witness :
  is_rooted storage_root = true
  ∧ plain "screenshot-a.png" = true
  ∧ Path.join storage_root "screenshot-a.png"
    = "/data/screenshots/screenshot-a.png"
  ∧ (Store.getScreenshot storage_root disk "screenshot-a.png").1
    = Returns (Some []).
Proof.
  assert (is_rooted storage_root = true) as H1 by reflexivity.
  assert (plain "screenshot-a.png" = true) as H2 by reflexivity.
  split; [exact H1|]. split; [exact H2|].
  destruct (plain_names_address_entries extname_of_shots lower_case
              storage_root disk _ H1 H2) as (Hj & Hg & _).
  split; [exact Hj|exact Hg].
Defined.

Lemma getScreenshots_newest_first_witness :
  is_rooted storage_root = true
  ∧ well_formed shots
  ∧ Z.of_nat (length (Listing.getScreenshots no_birthtime one_block
                        storage_root shots (Some 1))) = 1.
Proof.
  assert (is_rooted storage_root = true) as H1 by reflexivity.
  split; [exact H1|]. split; [exact shots_well_formed|].
  destruct (getScreenshots_newest_first no_birthtime one_block storage_root
              shots (Some 1) H1 shots_well_formed) as [_ H].
  destruct (H eq_refl) as [_ ->]. reflexivity.
Defined.

Lemma latest_serves_a_newest_shot_witness :
  is_rooted storage_root = true
  ∧ well_formed shots
  ∧ Server.handleGetLatestScreenshot no_birthtime one_block storage_root shots
    = Server.SendBuffer "image/png" [].
Proof.
  assert (is_rooted storage_root = true) as H1 by reflexivity.
  split; [exact H1|]. split; [exact shots_well_formed|].
  destruct (latest_serves_a_newest_shot no_birthtime one_block storage_root
              shots H1 shots_well_formed) as [[_ H]|(p & n & _ & _ & _ & H)];
    reflexivity.
Defined.


Lemma shots_hold_files (e : string * Fs.node) :
  e ∈ shots → candidate storage_root e.1 = true →
  is_regular (Some e.2) = true.
Proof.
  intros He Hc. unfold shots in He.
  repeat (apply elem_of_cons in He as [->|He]; [by vm_compute in Hc |- *|]).
  by apply elem_of_nil in He.
Qed.

Lemma sweep_bounds_the_listing_witness :
  well_formed shots
  ∧ 0 ≤ 1
  ∧ (∀ e, e ∈ shots → candidate storage_root e.1 = true →
          is_regular (Some e.2) = true)
  ∧ Z.of_nat
      (length
         (Listing.getScreenshots no_birthtime one_block storage_root
            (Retention.cleanupOldScreenshots storage_root day_ms 24 1 shots).1
            None)) ≤ 1.
Proof.
  assert (0 ≤ 1) as H0 by lia.
  split; [exact shots_well_formed|]. split; [exact H0|].
  split; [exact shots_hold_files|].
  exact (proj1 (sweep_bounds_the_listing no_birthtime one_block storage_root
                  shots day_ms 24 1 None shots_well_formed H0
                  shots_hold_files)).
Defined.

Lemma successful_capture_is_on_disk_witness :
  ∃ t r,
    Capture.tasks (alone calm ready (dashboard (JStr "png"))) !! 0%nat = Some t
    ∧ Capture.at_pc t = Capture.Done (Capture.Success r)
    ∧ Capture.filepath r
      = "/data/screenshots/screenshot-2025-11-23T23-11-14-224Z-0fdd4984.png"
    ∧ is_regular
        (Fs.lookup (Capture.filepath r)
           (Capture.fs (Capture.svc (alone calm ready (dashboard (JStr "png"))))))
      = true.
Proof.
  eexists _, _. split; [reflexivity|]. split; [reflexivity|].
  split; [reflexivity|].
  exact (proj1 (proj2 (proj2 (proj2
    (successful_capture_is_on_disk calm ready [dashboard (JStr "png")]
       (replicate 12 0%nat) 0%nat _ _ eq_refl eq_refl))))).
Defined.

Lemma reported_name_fetches_the_capture_witness :
  ∃ t r,
    Capture.tasks (alone calm ready (dashboard (JStr "png"))) !! 0%nat
    = Some t
    ∧ Capture.at_pc t = Capture.Done (Capture.Success r)
    ∧ is_rooted (Capture.screenshotPath ready) = true
    ∧ no_slash (Capture.iso_at_save calm 0%nat) = true
    ∧ no_slash (Capture.random_hex calm 0%nat) = true
    ∧ no_slash (Capture.extension
                  (Capture.outputFormat (Capture.destructure (Capture.opts t))))
      = true
    ∧ ∃ c, (Store.getScreenshot (Capture.screenshotPath ready)
              (Capture.fs (Capture.svc (alone calm ready (dashboard (JStr "png")))))
              (Capture.filename r)).1
           = Returns (Some c).
Proof.
  eexists _, _. split; [reflexivity|]. split; [reflexivity|].
  assert (is_rooted (Capture.screenshotPath ready) = true) as H1
    by reflexivity.
  assert (no_slash (Capture.iso_at_save calm 0%nat) = true) as H2
    by reflexivity.
  assert (no_slash (Capture.random_hex calm 0%nat) = true) as H3
    by reflexivity.
  split; [exact H1|]. split; [exact H2|]. split; [exact H3|].
  refine ((λ H4, conj H4
    (proj2 (proj2 (proj2
      (reported_name_fetches_the_capture calm ready [dashboard (JStr "png")]
         (replicate 12 0%nat) 0%nat _ _ H1 H2 H3 H4 eq_refl eq_refl))))) _).
  reflexivity.
Defined.

Lemma context_is_closed_on_success_only_witness :
  ∃ t,
    Capture.tasks (alone unreachable ready (dashboard (JStr "png"))) !! 0%nat
    = Some t
    ∧ Capture.at_pc t = Capture.Done (Capture.Failure "Timeout 30000ms exceeded")
    ∧ Capture.ContextOpened ∈ Capture.log t
    ∧ Capture.ContextClosed ∉ Capture.log t.
Proof.
  eexists. split; [reflexivity|]. split; [reflexivity|].
  split; [apply list_elem_of_further, list_elem_of_here|].
  exact (proj2 (context_is_closed_on_success_only unreachable ready
                  [dashboard (JStr "png")] (replicate 12 0%nat) 0%nat _ eq_refl)
           _ eq_refl).
Defined.

Lemma no_browser_no_capture_witness :
  Capture.browser closed = false
  ∧ Capture.run calm [1; 1; 0]%nat
      {| Capture.svc := closed;
         Capture.tasks := Capture.call <$> replicate 3 (dashboard JUndefined) |}
    = {| Capture.svc := closed;
         Capture.tasks :=
           stalled (Capture.Done (Capture.Failure "Browser not initialized"))
             [1; 1; 0]%nat (replicate 3 (dashboard JUndefined)) |}.
Proof.
  assert (Capture.browser closed = false) as H by reflexivity.
  split; [exact H|].
  exact (no_browser_no_capture calm closed _ _ H).
Defined.

Lemma exhausted_bound_starves_every_call_witness :
  Capture.browser starved = true
  ∧ Capture.maxConcurrent starved ≤ Capture.activeCaptures starved
  ∧ Capture.run calm [0; 1; 0]%nat
      {| Capture.svc := starved;
         Capture.tasks := Capture.call <$> replicate 2 (dashboard JUndefined) |}
    = {| Capture.svc := starved;
         Capture.tasks :=
           stalled Capture.Throttled [0; 1; 0]%nat
             (replicate 2 (dashboard JUndefined)) |}.
Proof.
  assert (Capture.browser starved = true) as H1 by reflexivity.
  assert (Capture.maxConcurrent starved ≤ Capture.activeCaptures starved)
    as H2 by (vm_compute; discriminate).
  split; [exact H1|]. split; [exact H2|].
  exact (exhausted_bound_starves_every_call calm starved _ _ H1 H2).
Defined.

Lemma enough_slots_nobody_waits_witness :
  Z.of_nat (length (replicate 3 (dashboard JUndefined)))
    ≤ Capture.maxConcurrent ready
  ∧ Capture.activeCaptures ready = 0
  ∧ Forall (λ t, Capture.at_pc t ≠ Capture.Throttled)
      (Capture.tasks
         (Capture.run calm [0; 1; 2; 0; 1; 2]%nat
            {| Capture.svc := ready;
               Capture.tasks :=
                 Capture.call <$> replicate 3 (dashboard JUndefined) |})).
Proof.
  assert (Z.of_nat (length (replicate 3 (dashboard JUndefined)))
            ≤ Capture.maxConcurrent ready) as H1 by (vm_compute; discriminate).
  assert (Capture.activeCaptures ready = 0) as H2 by reflexivity.
  split; [exact H1|]. split; [exact H2|].
  exact (enough_slots_nobody_waits calm ready _ _ H1 H2).
Defined.

Lemma created_profile_survives_restart_witness :
  Profiles.disk_error empty_store = None
  ∧ Profiles.getProfile
      (restart (Profiles.createProfile kitchen_id "2025-11-23T23:00:00.000Z"
                  kitchen_config empty_store).1) kitchen_id
    = Some (Profiles.OwnProfile kitchen_id).
Proof.
  assert (Profiles.disk_error empty_store = None) as H by reflexivity.
  split; [exact H|].
  exact (proj1 (proj2 (proj2 (proj2
    (created_profile_survives_restart empty_store kitchen_id
       "2025-11-23T23:00:00.000Z" kitchen_config H))))).
Defined.

Lemma deleteProfile_removes_one_profile_witness :
  ∃ p,
    Profiles.profiles kitchen_store !! kitchen_id = Some p
    ∧ Profiles.profiles (Profiles.deleteProfile kitchen_id kitchen_store).1
      = delete kitchen_id (Profiles.profiles kitchen_store).
Proof.
  eexists. split; [exact kitchen_store_profile|].
  exact (proj1 (deleteProfile_removes_one_profile kitchen_store kitchen_id _
                  kitchen_store_profile)).
Defined.

Lemma unknown_identifier_changes_nothing_witness :
  Profiles.profiles kitchen_store !! unknown_id = None
  ∧ ordinary kitchen_store unknown_id = true
  ∧ Profiles.deleteProfile unknown_id kitchen_store
    = (kitchen_store, Returns false).
Proof.
  assert (Profiles.profiles kitchen_store !! unknown_id = None) as H1
    by (vm_compute; reflexivity).
  assert (ordinary kitchen_store unknown_id = true) as H2
    by (vm_compute; reflexivity).
  split; [exact H1|]. split; [exact H2|].
  exact (proj1 (proj2 (proj2
    (unknown_identifier_changes_nothing kitchen_store unknown_id "" "" ""
       ∅ false JNull H1 H2)))).
Defined.


Lemma failureCount_counts_the_streak_witness :
  ∃ p,
    Profiles.profiles kitchen_store !! kitchen_id = Some p
    ∧ Profiles.get kitchen_store p "failureCount" = JNum 0
    ∧ ∃ p',
        Profiles.profiles (recordCaptures kitchen_id two_failures kitchen_store)
          !! kitchen_id = Some p'
        ∧ Profiles.get (recordCaptures kitchen_id two_failures kitchen_store)
            p' "failureCount" = JNum 2.
Proof.
  eexists. split; [exact kitchen_store_profile|].
  refine ((λ H, conj H
    (failureCount_counts_the_streak kitchen_store kitchen_id _ 0 two_failures
       kitchen_store_profile H)) _).
  vm_compute. reflexivity.
Defined.

Lemma capture_of_a_profile_is_recorded_witness :
  ∃ p,
    Profiles.profiles kitchen_store !! kitchen_id = Some p
    ∧ (Server.handleCaptureProfile_response "2025-11-23T23:01:00.000Z"
         "2025-11-23T23:01:00.001Z" kitchen_id
         (Capture.Failure "Timeout 30000ms exceeded") kitchen_store).2
      = Server.SendJson 400
          (Server.CaptureResult (Capture.Failure "Timeout 30000ms exceeded")).
Proof.
  eexists. split; [exact kitchen_store_profile|].
  exact (proj1 (proj2 (proj2
    (capture_of_a_profile_is_recorded kitchen_store kitchen_id _ JNull
       "2025-11-23T23:01:00.000Z" "2025-11-23T23:01:00.001Z"
       (Capture.Failure "Timeout 30000ms exceeded") kitchen_store_profile)))
    eq_refl).
Defined.

End Witnesses.
